(** * Porter-Duff span painters of fitz/draw-paint.c

    A shallow embedding of the compositing kernels, their dispatchers, the
    pixmap entry points and the run-length glyph decoder, followed by the
    properties established about them.

    Conventions of the embedding.
    - A C [int] is a [Z]; the values met here stay far from the 32-bit range,
      except in the word-at-a-time kernels, where [unsigned int] arithmetic is
      reduced modulo 2^32 with [u32].
    - A byte is a [Z]; a store through a [byte *] keeps the low 8 bits.
    - A buffer is a [list Z] of bytes, and a pointer into it is the [Z] index
      of the byte it points to.  A load or store outside the buffer is
      undefined behaviour in C; here it makes the whole call return [None].
    - [restrict]-qualified arguments are separate buffers.  Buffers behind a
      [const] pointer are passed in and never returned.
    - [TRACK_FN()] traces calls and touches no buffer; it is left out. *)

From stdpp Require Import base option list numbers.

Local Open Scope Z_scope.

(** ** Build configuration

    The [FZ_PLOTTERS_*] and [ARCH_UNALIGNED_OK] macros come from the build
    configuration and the byte order from the target; the code branches on all
    of them, so they are parameters of the model.  So is [NDEBUG], which
    turns every [assert] into nothing: the code is written for both builds
    ([assert(fn); if (fn == NULL) return;]). *)

Record config := Config {
  FZ_PLOTTERS_G : bool;
  FZ_PLOTTERS_RGB : bool;
  FZ_PLOTTERS_CMYK : bool;
  FZ_PLOTTERS_N : bool;
  ARCH_UNALIGNED_OK : bool;
  isbigendian : bool;
  NDEBUG : bool
}.

(** The stock build: every plotter family compiled in, little endian,
    assertions on. *)
Definition default_config : config :=
  Config true true true true false false false.

(** The same build with [NDEBUG] defined. *)
Definition release_config : config :=
  Config true true true true false false true.

(** ** Fixed-point primitives *)

(** Modelled from the spec: the macro FZ_EXPAND is defined in a header that is
    not part of the file; [expand(a) = a + (a >> 7)]. *)
Definition FZ_EXPAND (a : Z) : Z := a + (a ≫ 7).

(** Modelled from the spec: the macro FZ_COMBINE is defined in a header that is
    not part of the file; [combine(x, w) = (x * w) >> 8]. *)
Definition FZ_COMBINE (a b : Z) : Z := (a * b) ≫ 8.

(** Modelled from the spec: the macro FZ_COMBINE2 is defined in a header that
    is not part of the file;
    [combine2(a, wa, b, wb) = combine(a, wa) + combine(b, wb)]. *)
Definition FZ_COMBINE2 (a b c d : Z) : Z := FZ_COMBINE a b + FZ_COMBINE c d.

(** Modelled from the spec: the macro FZ_BLEND is defined in a header that is
    not part of the file; [blend(src, dst, w) = dst + combine(src - dst, w)]. *)
Definition FZ_BLEND (src dst amount : Z) : Z := dst + FZ_COMBINE (src - dst) amount.

(** ** Memory *)

Definition mem := list Z.

Definition is_byte (b : Z) : Prop := 0 ≤ b < 256.

(** [p[0]] for a pointer [p] into buffer [m]. *)
Definition load (m : mem) (p : Z) : option Z :=
  if p <? 0 then None else m !! Z.to_nat p.

(** [p[0] = v] through a byte pointer: the value is cut to 8 bits. *)
Definition store (m : mem) (p v : Z) : option mem :=
  if (0 <=? p) && (p <? Z.of_nat (length m))
  then Some (<[Z.to_nat p := v `mod` 256]> m)
  else None.

Definition u32 (x : Z) : Z := x `mod` 4294967296.

(** [*(uint32_t * )p] in the byte order [be]. *)
Definition load32 (be : bool) (m : mem) (p : Z) : option Z :=
  b0 ← load m p;
  b1 ← load m (p + 1);
  b2 ← load m (p + 2);
  b3 ← load m (p + 3);
  Some (if be
        then Z.lor (Z.lor (b0 ≪ 24) (b1 ≪ 16)) (Z.lor (b2 ≪ 8) b3)
        else Z.lor (Z.lor b0 (b1 ≪ 8)) (Z.lor (b2 ≪ 16) (b3 ≪ 24))).

(** [*(uint32_t * )p = v] in the byte order [be]. *)
Definition store32 (be : bool) (m : mem) (p v : Z) : option mem :=
  let b k := Z.land (v ≫ k) 255 in
  m ← store m p (if be then b 24 else b 0);
  m ← store m (p + 1) (if be then b 16 else b 8);
  m ← store m (p + 2) (if be then b 8 else b 16);
  store m (p + 3) (if be then b 0 else b 24).

(** Storing a word of a byte/word union writes the four bytes it overlays, in
    memory order, whatever the byte order. *)
Definition store_union_word (m : mem) (p b0 b1 b2 b3 : Z) : option mem :=
  m ← store m p b0;
  m ← store m (p + 1) b1;
  m ← store m (p + 2) b2;
  store m (p + 3) b3.

(** ** Loops *)

(** [do body while (--w)].  Entered with [w <= 0] the counter does not reach
    zero before it wraps around while the body keeps walking through memory:
    undefined behaviour, [None] here. *)
Fixpoint do_while {St : Type} (body : St → option St) (w : nat) (s : St) : option St :=
  match w with
  | O => None
  | S w' =>
      s' ← body s;
      match w' with
      | O => Some s'
      | S _ => do_while body w' s'
      end
  end.

(** [for (k = lo; k < hi; k++) body], and [k = n; while (k--) body] when the
    body is indexed from [lo = 0]. *)
Fixpoint for_loop_aux {St : Type} (body : Z → St → option St) (fuel : nat) (k : Z) (s : St)
  : option St :=
  match fuel with
  | O => Some s
  | S fuel' => s' ← body k s; for_loop_aux body fuel' (k + 1) s'
  end.

Definition for_loop {St : Type} (lo hi : Z) (body : Z → St → option St) (s : St) : option St :=
  for_loop_aux body (Z.to_nat (hi - lo)) lo s.

(** ** Solid color painters *)

Definition fz_solid_color_painter_t : Type :=
  mem → Z → Z → Z → list Z → Z → option mem.

Definition template_solid_color_1_da (m : mem) (dp n w : Z) (color : list Z) (da : Z)
  : option mem :=
  c1 ← load color 1;
  let sa := FZ_EXPAND c1 in
  if sa =? 0 then Some m
  else if sa =? 256 then
    fst <$> do_while (λ '(m, dp),
      c0 ← load color 0;
      m ← store m dp c0;
      m ← store m (dp + 1) 255;
      Some (m, dp + 2)) (Z.to_nat w) (m, dp)
  else
    fst <$> do_while (λ '(m, dp),
      c0 ← load color 0;
      d0 ← load m dp;
      m ← store m dp (FZ_BLEND c0 d0 sa);
      d1 ← load m (dp + 1);
      m ← store m (dp + 1) (FZ_BLEND 255 d1 sa);
      Some (m, dp + 2)) (Z.to_nat w) (m, dp).

(** The two-lanes-per-word blend shared by the RGBA kernels:
    [RB = (RGBA<<8) & mask; GA = RGBA & mask; RB += (rb-(RB>>8))*a;
     GA += (ga-(GA>>8))*a; RB &= mask; GA &= mask; (RB>>8) | GA]. *)
Definition blend_rgba_word (rb ga RGBA a : Z) : Z :=
  let mask := 0xFF00FF00 in
  let RB := Z.land (u32 (RGBA ≪ 8)) mask in
  let GA := Z.land RGBA mask in
  let RB := u32 (RB + u32 (u32 (rb - (RB ≫ 8)) * a)) in
  let GA := u32 (GA + u32 (u32 (ga - (GA ≫ 8)) * a)) in
  let RB := Z.land RB mask in
  let GA := Z.land GA mask in
  Z.lor (RB ≫ 8) GA.

Definition template_solid_color_3_da (cfg : config) (m : mem) (dp n w : Z) (color : list Z)
    (da : Z) : option mem :=
  rgba ← load32 (isbigendian cfg) color 0;
  c3 ← load color 3;
  let sa := FZ_EXPAND c3 in
  if sa =? 0 then Some m
  else
    let rgba := if isbigendian cfg then Z.lor rgba 0x000000FF else Z.lor rgba 0xFF000000 in
    if sa =? 256 then
      fst <$> do_while (λ '(m, dp),
        m ← store32 (isbigendian cfg) m dp rgba;
        Some (m, dp + 4)) (Z.to_nat w) (m, dp)
    else
      let mask := 0xFF00FF00 in
      let rb := Z.land rgba (mask ≫ 8) in
      let ga := (Z.land rgba mask) ≫ 8 in
      fst <$> do_while (λ '(m, dp),
        RGBA ← load32 (isbigendian cfg) m dp;
        m ← store32 (isbigendian cfg) m dp (blend_rgba_word rb ga RGBA sa);
        Some (m, dp + 4)) (Z.to_nat w) (m, dp).

(** [do body while (cond)], for the loops whose counter steps by more than
    one; [fuel] bounds the number of rounds. *)
Fixpoint do_while_cond {St : Type} (body : St → option St) (cond : St → bool) (fuel : nat)
    (s : St) : option St :=
  match fuel with
  | O => None
  | S fuel' =>
      s' ← body s;
      if cond s' then do_while_cond body cond fuel' s' else Some s'
  end.

(** The five words that hold four CMYK+alpha pixels, [#ifdef ARCH_UNALIGNED_OK]. *)
Definition solid_color_4_da_words (be : bool) (a : Z) : Z * Z * Z * Z :=
  if be then
    (Z.lor 0xFF000000 (a ≫ 8),
     Z.lor (Z.lor 0x00FF0000 (a ≫ 16)) (u32 (a ≪ 24)),
     Z.lor (Z.lor 0x0000FF00 (a ≫ 24)) (u32 (a ≪ 16)),
     Z.lor 0x000000FF (u32 (a ≪ 8)))
  else
    (Z.lor 0x000000FF (u32 (a ≪ 8)),
     Z.lor (Z.lor 0x0000FF00 (u32 (a ≪ 16))) (a ≫ 24),
     Z.lor (Z.lor 0x00FF0000 (u32 (a ≪ 24))) (a ≫ 16),
     Z.lor 0xFF000000 (a ≫ 8)).

Definition template_solid_color_4_da (cfg : config) (m : mem) (dp n w : Z) (color : list Z)
    (da : Z) : option mem :=
  c4 ← load color 4;
  let sa := FZ_EXPAND c4 in
  if sa =? 0 then Some m
  else if sa =? 256 then
    let bytewise '(m, dp, w) :=
      fst <$> do_while (λ '(m, dp),
        c0 ← load color 0; m ← store m dp c0;
        c1 ← load color 1; m ← store m (dp + 1) c1;
        c2 ← load color 2; m ← store m (dp + 2) c2;
        c3 ← load color 3; m ← store m (dp + 3) c3;
        m ← store m (dp + 4) 255;
        Some (m, dp + 5)) (Z.to_nat w) (m, dp) in
    if ARCH_UNALIGNED_OK cfg && (w >? 4) then
      let be := isbigendian cfg in
      a ← load32 be color 0;
      let '(b, c, d, e) := solid_color_4_da_words be a in
      let w := w - 3 in
      '(m, dp, w) ← do_while_cond (λ '(m, dp, w),
        m ← store32 be m dp a;
        m ← store32 be m (dp + 4) b;
        m ← store32 be m (dp + 8) c;
        m ← store32 be m (dp + 12) d;
        m ← store32 be m (dp + 16) e;
        Some (m, dp + 20, w - 4)) (λ '(_, _, w), w >? 0) (Z.to_nat w) (m, dp, w);
      let w := w + 3 in
      if w =? 0 then Some m else bytewise (m, dp, w)
    else bytewise (m, dp, w)
  else
    fst <$> do_while (λ '(m, dp),
      c0 ← load color 0; d0 ← load m dp; m ← store m dp (FZ_BLEND c0 d0 sa);
      c1 ← load color 1; d1 ← load m (dp + 1); m ← store m (dp + 1) (FZ_BLEND c1 d1 sa);
      c2 ← load color 2; d2 ← load m (dp + 2); m ← store m (dp + 2) (FZ_BLEND c2 d2 sa);
      c3 ← load color 3; d3 ← load m (dp + 3); m ← store m (dp + 3) (FZ_BLEND c3 d3 sa);
      d5 ← load m (dp + 5); m ← store m (dp + 4) (FZ_BLEND 255 d5 sa);
      Some (m, dp + 5)) (Z.to_nat w) (m, dp).

(** The pixel written by the overwrite loops of the N-channel templates:
    [dp[0] = color[0]; if (n1 > 1) dp[1] = color[1]; if (n1 > 2) dp[2] = color[2];
     for (k = 3; k < n1; k++) dp[k] = color[k]; if (da) dp[n1] = 255]. *)
Definition copy_color (color : list Z) (dp : Z) (k : Z) (m : mem) : option mem :=
  c ← load color k; store m (dp + k) c.

Definition solid_pixel_256 (m : mem) (dp n1 : Z) (color : list Z) (da : Z) : option mem :=
  m ← copy_color color dp 0 m;
  m ← (if n1 >? 1 then copy_color color dp 1 m else Some m);
  m ← (if n1 >? 2 then copy_color color dp 2 m else Some m);
  m ← for_loop 3 n1 (copy_color color dp) m;
  if da =? 0 then Some m else store m (dp + n1) 255.

(** [for (k = 0; k < n1; k++) dp[k] = FZ_BLEND(color[k], dp[k], sa);
     if (da) dp[k] = FZ_BLEND(255, dp[k], sa)]. *)
Definition blend_color (color : list Z) (dp sa : Z) (k : Z) (m : mem) : option mem :=
  c ← load color k; d ← load m (dp + k); store m (dp + k) (FZ_BLEND c d sa).

Definition solid_pixel_sa (m : mem) (dp n1 : Z) (color : list Z) (da sa : Z) : option mem :=
  m ← for_loop 0 n1 (blend_color color dp sa) m;
  let k := Z.max 0 n1 in
  if da =? 0 then Some m
  else d ← load m (dp + k); store m (dp + k) (FZ_BLEND 255 d sa).

Definition template_solid_color_N_256 (m : mem) (dp n w : Z) (color : list Z) (da : Z)
  : option mem :=
  let n1 := n - da in
  let bytewise '(m, dp, w) :=
    fst <$> do_while (λ '(m, dp),
      m ← solid_pixel_256 m dp n1 color da;
      Some (m, dp + n)) (Z.to_nat w) (m, dp) in
  if (n =? 3) && (da =? 0) && (w >=? 8) then
    c0 ← load color 0;
    c1 ← load color 1;
    c2 ← load color 2;
    (* u.w[0] = c0 c1 c2 c0, u.w[1] = c1 c2 c0 c1, u.w[2] = c2 c0 c1 c2 *)
    '(m, dp, w) ←
      match Z.land dp 3 with
      | 3 =>
          m ← store m dp c0;
          m ← store_union_word m (dp + 1) c1 c2 c0 c1;
          m ← store_union_word m (dp + 5) c2 c0 c1 c2;
          Some (m, dp + 9, w - 3)
      | 2 =>
          m ← store m dp c0;
          m ← store m (dp + 1) c1;
          m ← store_union_word m (dp + 2) c2 c0 c1 c2;
          Some (m, dp + 6, w - 2)
      | 1 =>
          m ← store m dp c0;
          m ← store m (dp + 1) c1;
          m ← store m (dp + 2) c2;
          Some (m, dp + 3, w - 1)
      | _ => Some (m, dp, w)
      end;
    let w := w - 4 in
    '(m, dp, w) ← do_while_cond (λ '(m, dp, w),
      m ← store_union_word m dp c0 c1 c2 c0;
      m ← store_union_word m (dp + 4) c1 c2 c0 c1;
      m ← store_union_word m (dp + 8) c2 c0 c1 c2;
      Some (m, dp + 12, w - 4)) (λ '(_, _, w), w >? 0) (Z.to_nat w) (m, dp, w);
    let w := w + 4 in
    if w =? 0 then Some m else bytewise (m, dp, w)
  else bytewise (m, dp, w).

Definition template_solid_color_N_sa (m : mem) (dp n w : Z) (color : list Z) (da sa : Z)
  : option mem :=
  let n1 := n - da in
  fst <$> do_while (λ '(m, dp),
    m ← solid_pixel_sa m dp n1 color da sa;
    Some (m, dp + n)) (Z.to_nat w) (m, dp).

Definition template_solid_color_N_general (m : mem) (dp n w : Z) (color : list Z) (da sa : Z)
  : option mem :=
  let n1 := n - da in
  if sa =? 256 then
    fst <$> do_while (λ '(m, dp),
      m ← solid_pixel_256 m dp n1 color da;
      Some (m, dp + n)) (Z.to_nat w) (m, dp)
  else
    fst <$> do_while (λ '(m, dp),
      m ← solid_pixel_sa m dp n1 color da sa;
      Some (m, dp + n)) (Z.to_nat w) (m, dp).

Definition paint_solid_color_1_alpha : fz_solid_color_painter_t := λ m dp n w color da,
  c ← load color 1; template_solid_color_N_sa m dp 1 w color 0 (FZ_EXPAND c).

Definition paint_solid_color_1 : fz_solid_color_painter_t := λ m dp n w color da,
  template_solid_color_N_256 m dp 1 w color 0.

Definition paint_solid_color_1_da : fz_solid_color_painter_t := λ m dp n w color da,
  template_solid_color_1_da m dp 2 w color 1.

Definition paint_solid_color_3_alpha : fz_solid_color_painter_t := λ m dp n w color da,
  c ← load color 3; template_solid_color_N_sa m dp 3 w color 0 (FZ_EXPAND c).

Definition paint_solid_color_3 : fz_solid_color_painter_t := λ m dp n w color da,
  template_solid_color_N_256 m dp 3 w color 0.

Definition paint_solid_color_3_da (cfg : config) : fz_solid_color_painter_t :=
  λ m dp n w color da, template_solid_color_3_da cfg m dp 4 w color 1.

Definition paint_solid_color_4_alpha : fz_solid_color_painter_t := λ m dp n w color da,
  c ← load color 4; template_solid_color_N_sa m dp 4 w color 0 (FZ_EXPAND c).

Definition paint_solid_color_4 : fz_solid_color_painter_t := λ m dp n w color da,
  template_solid_color_N_256 m dp 4 w color 0.

Definition paint_solid_color_4_da (cfg : config) : fz_solid_color_painter_t :=
  λ m dp n w color da, template_solid_color_4_da cfg m dp 5 w color 1.

Definition paint_solid_color_N_alpha : fz_solid_color_painter_t := λ m dp n w color da,
  c ← load color n; template_solid_color_N_sa m dp n w color 0 (FZ_EXPAND c).

Definition paint_solid_color_N : fz_solid_color_painter_t := λ m dp n w color da,
  template_solid_color_N_256 m dp n w color 0.

Definition paint_solid_color_N_da : fz_solid_color_painter_t := λ m dp n w color da,
  c ← load color 1; template_solid_color_N_general m dp n w color 1 (FZ_EXPAND c).

(** The dispatcher reads the alpha byte of [color] only on the branches that
    test it; [None] is the C [NULL]. *)
Definition fz_get_solid_color_painter (cfg : config) (n : Z) (color : list Z) (da : Z)
  : option fz_solid_color_painter_t :=
  let alpha_is_255 k := bool_decide (load color k = Some 255) in
  let default :=
    if FZ_PLOTTERS_N cfg then
      if negb (da =? 0) then Some paint_solid_color_N_da
      else if alpha_is_255 n then Some paint_solid_color_N
      else Some paint_solid_color_N_alpha
    else None in
  match n - da with
  | 1 =>
      if FZ_PLOTTERS_G cfg then
        if negb (da =? 0) then Some paint_solid_color_1_da
        else if alpha_is_255 1 then Some paint_solid_color_1
        else Some paint_solid_color_1_alpha
      else default
  | 3 =>
      if FZ_PLOTTERS_RGB cfg then
        if negb (da =? 0) then Some (paint_solid_color_3_da cfg)
        else if alpha_is_255 3 then Some paint_solid_color_3
        else Some paint_solid_color_3_alpha
      else default
  | 4 =>
      if FZ_PLOTTERS_CMYK cfg then
        if negb (da =? 0) then Some (paint_solid_color_4_da cfg)
        else if alpha_is_255 4 then Some paint_solid_color_4
        else Some paint_solid_color_4_alpha
      else default
  | _ => default
  end.

(** ** Span painters with a solid color and a coverage mask *)

Definition fz_span_color_painter_t : Type :=
  mem → Z → list Z → Z → Z → Z → list Z → Z → option mem.

Definition template_span_with_color_1_da (m : mem) (dp : Z) (msk : list Z) (mp : Z) (n w : Z)
    (color : list Z) (da : Z) : option mem :=
  c1 ← load color 1;
  let sa := FZ_EXPAND c1 in
  g ← load color 0;
  if sa =? 256 then
    (λ s, s.1.1) <$> do_while (λ '(m, dp, mp),
      ma ← load msk mp;
      let mp := mp + 1 in
      let ma := FZ_EXPAND ma in
      m ← (if ma =? 0 then Some m
           else if ma =? 256 then
             m ← store m dp g;
             store m (dp + 1) 255
           else
             d0 ← load m dp; m ← store m dp (FZ_BLEND g d0 ma);
             d1 ← load m (dp + 1); store m (dp + 1) (FZ_BLEND 255 d1 ma));
      Some (m, dp + 2, mp)) (Z.to_nat w) (m, dp, mp)
  else
    (λ s, s.1.1) <$> do_while (λ '(m, dp, mp),
      ma ← load msk mp;
      let mp := mp + 1 in
      let ma := FZ_EXPAND ma in
      m ← (if ma =? 0 then Some m
           else
             let ma := FZ_COMBINE ma sa in
             d0 ← load m dp; m ← store m dp (FZ_BLEND g d0 ma);
             d1 ← load m (dp + 1); store m (dp + 1) (FZ_BLEND 255 d1 ma));
      Some (m, dp + 2, mp)) (Z.to_nat w) (m, dp, mp).

(** The pixel is addressed as [((unsigned int * )dp)[-1]] after [dp += 4],
    that is, at the value [dp] had on entry to the round. *)
Definition template_span_with_color_3_da (cfg : config) (m : mem) (dp : Z) (msk : list Z)
    (mp : Z) (n w : Z) (color : list Z) (da : Z) : option mem :=
  let be := isbigendian cfg in
  rgba ← load32 be color 0;
  c3 ← load color 3;
  let sa := FZ_EXPAND c3 in
  if sa =? 0 then Some m
  else
    let rgba := if be then Z.lor rgba 0x000000FF else Z.lor rgba 0xFF000000 in
    let mask := 0xFF00FF00 in
    let rb := Z.land rgba (mask ≫ 8) in
    let ga := (Z.land rgba mask) ≫ 8 in
    if sa =? 256 then
      (λ s, s.1.1) <$> do_while (λ '(m, dp, mp),
        ma ← load msk mp;
        let mp := mp + 1 in
        let ma := FZ_EXPAND ma in
        m ← (if ma =? 0 then Some m
             else if ma =? 256 then store32 be m dp rgba
             else
               RGBA ← load32 be m dp;
               store32 be m dp (blend_rgba_word rb ga RGBA ma));
        Some (m, dp + 4, mp)) (Z.to_nat w) (m, dp, mp)
    else
      (λ s, s.1.1) <$> do_while (λ '(m, dp, mp),
        ma ← load msk mp;
        let mp := mp + 1 in
        let ma := FZ_COMBINE (FZ_EXPAND ma) sa in
        m ← (if negb (ma =? 0) then
               RGBA ← load32 be m dp;
               store32 be m dp (blend_rgba_word rb ga RGBA ma)
             else Some m);
        Some (m, dp + 4, mp)) (Z.to_nat w) (m, dp, mp).

Definition template_span_with_color_4_da (m : mem) (dp : Z) (msk : list Z) (mp : Z) (n w : Z)
    (color : list Z) (da : Z) : option mem :=
  c4 ← load color 4;
  let sa := FZ_EXPAND c4 in
  c ← load color 0;
  mg ← load color 1;
  y ← load color 2;
  k ← load color 3;
  let blend4 m dp ma :=
    d0 ← load m dp; m ← store m dp (FZ_BLEND c d0 ma);
    d1 ← load m (dp + 1); m ← store m (dp + 1) (FZ_BLEND mg d1 ma);
    d2 ← load m (dp + 2); m ← store m (dp + 2) (FZ_BLEND y d2 ma);
    d3 ← load m (dp + 3); m ← store m (dp + 3) (FZ_BLEND k d3 ma);
    d4 ← load m (dp + 4); store m (dp + 4) (FZ_BLEND 255 d4 ma) in
  if sa =? 256 then
    (λ s, s.1.1) <$> do_while (λ '(m, dp, mp),
      ma ← load msk mp;
      let mp := mp + 1 in
      let ma := FZ_EXPAND ma in
      m ← (if ma =? 0 then Some m
           else if ma =? 256 then
             m ← store m dp c;
             m ← store m (dp + 1) mg;
             m ← store m (dp + 2) y;
             m ← store m (dp + 3) k;
             store m (dp + 4) 255
           else blend4 m dp ma);
      Some (m, dp + 5, mp)) (Z.to_nat w) (m, dp, mp)
  else
    (λ s, s.1.1) <$> do_while (λ '(m, dp, mp),
      ma ← load msk mp;
      let mp := mp + 1 in
      let ma := FZ_EXPAND ma in
      m ← (if ma =? 0 then Some m
           else blend4 m dp (FZ_COMBINE ma sa));
      Some (m, dp + 5, mp)) (Z.to_nat w) (m, dp, mp).

(** The overwrite branch of the N-channel span painter guards [dp[0]] too:
    [if (n1 > 0) dp[0] = color[0]; if (n1 > 1) ...]. *)
Definition span_color_pixel_256 (m : mem) (dp n1 : Z) (color : list Z) (da : Z) : option mem :=
  m ← (if n1 >? 0 then copy_color color dp 0 m else Some m);
  m ← (if n1 >? 1 then copy_color color dp 1 m else Some m);
  m ← (if n1 >? 2 then copy_color color dp 2 m else Some m);
  m ← for_loop 3 n1 (copy_color color dp) m;
  if da =? 0 then Some m else store m (dp + n1) 255.

(** [for (k = 0; k < n1; k++) dp[k] = FZ_BLEND(color[k], dp[k], ma);
     if (da) dp[n1] = FZ_BLEND(255, dp[k], ma)]: the alpha byte is read at
    the loop's final [k] and written at [n1]. *)
Definition span_color_pixel_blend (m : mem) (dp n1 : Z) (color : list Z) (da ma : Z)
  : option mem :=
  m ← for_loop 0 n1 (blend_color color dp ma) m;
  let k := Z.max 0 n1 in
  if da =? 0 then Some m
  else d ← load m (dp + k); store m (dp + n1) (FZ_BLEND 255 d ma).

Definition template_span_with_color_N_general (m : mem) (dp : Z) (msk : list Z) (mp : Z)
    (n w : Z) (color : list Z) (da : Z) : option mem :=
  let n1 := n - da in
  ca ← load color n1;
  let sa := FZ_EXPAND ca in
  if sa =? 0 then Some m
  else if sa =? 256 then
    (λ s, s.1.1) <$> do_while (λ '(m, dp, mp),
      ma ← load msk mp;
      let mp := mp + 1 in
      let ma := FZ_EXPAND ma in
      m ← (if ma =? 0 then Some m
           else if ma =? 256 then span_color_pixel_256 m dp n1 color da
           else span_color_pixel_blend m dp n1 color da ma);
      Some (m, dp + n, mp)) (Z.to_nat w) (m, dp, mp)
  else
    (λ s, s.1.1) <$> do_while (λ '(m, dp, mp),
      ma ← load msk mp;
      let mp := mp + 1 in
      let ma := FZ_COMBINE (FZ_EXPAND ma) sa in
      m ← solid_pixel_sa m dp n1 color da ma;
      Some (m, dp + n, mp)) (Z.to_nat w) (m, dp, mp).

Definition paint_span_with_color_0_da : fz_span_color_painter_t := λ m dp msk mp n w color da,
  template_span_with_color_N_general m dp msk mp 1 w color 1.

Definition paint_span_with_color_1 : fz_span_color_painter_t := λ m dp msk mp n w color da,
  template_span_with_color_N_general m dp msk mp 1 w color 0.

Definition paint_span_with_color_1_da : fz_span_color_painter_t := λ m dp msk mp n w color da,
  template_span_with_color_1_da m dp msk mp 2 w color 1.

Definition paint_span_with_color_3 : fz_span_color_painter_t := λ m dp msk mp n w color da,
  template_span_with_color_N_general m dp msk mp 3 w color 0.

Definition paint_span_with_color_3_da (cfg : config) : fz_span_color_painter_t :=
  λ m dp msk mp n w color da, template_span_with_color_3_da cfg m dp msk mp 4 w color 1.

Definition paint_span_with_color_4 : fz_span_color_painter_t := λ m dp msk mp n w color da,
  template_span_with_color_N_general m dp msk mp 4 w color 0.

Definition paint_span_with_color_4_da : fz_span_color_painter_t := λ m dp msk mp n w color da,
  template_span_with_color_4_da m dp msk mp 5 w color 1.

Definition paint_span_with_color_N : fz_span_color_painter_t := λ m dp msk mp n w color da,
  template_span_with_color_N_general m dp msk mp n w color 0.

Definition paint_span_with_color_N_da : fz_span_color_painter_t := λ m dp msk mp n w color da,
  template_span_with_color_N_general m dp msk mp n w color 1.

Definition fz_get_span_color_painter (cfg : config) (n da : Z) (color : list Z)
  : option fz_span_color_painter_t :=
  let default :=
    if FZ_PLOTTERS_N cfg
    then Some (if negb (da =? 0) then paint_span_with_color_N_da else paint_span_with_color_N)
    else None in
  match n - da with
  | 0 => if negb (da =? 0) then Some paint_span_with_color_0_da else None
  | 1 => Some (if negb (da =? 0) then paint_span_with_color_1_da else paint_span_with_color_1)
  | 3 =>
      if FZ_PLOTTERS_RGB cfg
      then Some (if negb (da =? 0) then paint_span_with_color_3_da cfg
                 else paint_span_with_color_3)
      else default
  | 4 =>
      if FZ_PLOTTERS_CMYK cfg
      then Some (if negb (da =? 0) then paint_span_with_color_4_da
                 else paint_span_with_color_4)
      else default
  | _ => default
  end.

(** ** Statements shared by the source-reading span painters

    [src] is the buffer behind [sp]; each helper is one C assignment, the
    pointer increments stay with the caller. *)

(** A C [int] used as a truth value. *)
Definition truthy (x : Z) : bool := negb (x =? 0).

(** [*dp = *sp] *)
Definition put_src (src : list Z) (m : mem) (dp sp : Z) : option mem :=
  s ← load src sp; store m dp s.

(** [*dp = *sp + FZ_COMBINE( *dp, t)] *)
Definition put_over (src : list Z) (t : Z) (m : mem) (dp sp : Z) : option mem :=
  s ← load src sp; d ← load m dp; store m dp (s + FZ_COMBINE d t).

(** [*dp = FZ_COMBINE2( *sp, ma, *dp, masa)] *)
Definition put_combine2 (src : list Z) (ma masa : Z) (m : mem) (dp sp : Z) : option mem :=
  s ← load src sp; d ← load m dp; store m dp (FZ_COMBINE2 s ma d masa).

(** [*dp = FZ_BLEND( *sp, *dp, ma)] *)
Definition put_blend (src : list Z) (ma : Z) (m : mem) (dp sp : Z) : option mem :=
  s ← load src sp; d ← load m dp; store m dp (FZ_BLEND s d ma).

(** [*dp = FZ_BLEND(v, *dp, ma)] *)
Definition put_blend_const (v ma : Z) (m : mem) (dp : Z) : option mem :=
  d ← load m dp; store m dp (FZ_BLEND v d ma).

(** [(sa ? *sp : 255)] *)
Definition src_alpha (src : list Z) (sa sp : Z) : option Z :=
  if truthy sa then load src sp else Some 255.

(** [*dp = (sa ? *sp : 255) + FZ_COMBINE( *dp, t)] *)
Definition put_alpha_over (src : list Z) (sa t : Z) (m : mem) (dp sp : Z) : option mem :=
  a ← src_alpha src sa sp; d ← load m dp; store m dp (a + FZ_COMBINE d t).

(** [k = n; while (k--) { stmt; sp++; dp++; }], for the [n >= 0] the
    painters are called with. *)
Definition each_channel (n : Z) (stmt : mem → Z → Z → option mem) (m : mem) (dp sp : Z)
  : option (mem * Z * Z) :=
  for_loop 0 n (λ _ '(m, dp, sp), m ← stmt m dp sp; Some (m, dp + 1, sp + 1)) (m, dp, sp).

(** ** Span painters with a source and a coverage mask *)

Definition fz_span_mask_painter_t : Type :=
  mem → Z → Z → list Z → Z → Z → list Z → Z → Z → Z → option mem.

Definition template_span_with_mask_1_general (m : mem) (dp da : Z) (src : list Z) (sp sa : Z)
    (msk : list Z) (mp : Z) (w : Z) : option mem :=
  (λ s, s.1.1.1) <$> do_while (λ '(m, dp, sp, mp),
    ma ← load msk mp;
    let mp := mp + 1 in
    let ma := FZ_EXPAND ma in
    '(m, dp, sp) ←
      (if ma =? 0 then Some (m, dp + (1 + da), sp + (1 + sa))
       else if ma =? 256 then
         masa ← (if truthy sa then a ← load src (sp + 1); Some (255 - a) else Some 0);
         if masa =? 0 then
           m ← put_src src m dp sp;
           let dp := dp + 1 in let sp := sp + 1 in
           if truthy da then
             (* *dp++ = (sa ? *sp++ : 255) *)
             a ← src_alpha src sa sp;
             m ← store m dp a;
             Some (m, dp + 1, if truthy sa then sp + 1 else sp)
           else Some (m, dp, sp)
         else
           let masa := FZ_EXPAND masa in
           m ← put_over src masa m dp sp;
           let sp := sp + 1 in let dp := dp + 1 in
           '(m, dp) ← (if truthy da
                       then m ← put_alpha_over src sa masa m dp sp; Some (m, dp + 1)
                       else Some (m, dp));
           Some (m, dp, if truthy sa then sp + 1 else sp)
       else
         if truthy sa then
           a ← load src (sp + 1);
           let masa := FZ_COMBINE a ma in
           let masa := 255 - masa in
           let masa := FZ_EXPAND masa in
           m ← put_combine2 src ma masa m dp sp;
           let sp := sp + 1 in let dp := dp + 1 in
           '(m, dp) ← (if truthy da
                       then m ← put_combine2 src ma masa m dp sp; Some (m, dp + 1)
                       else Some (m, dp));
           Some (m, dp, sp + 1)
         else
           m ← put_blend src ma m dp sp;
           let sp := sp + 1 in let dp := dp + 1 in
           if truthy da
           then m ← put_blend_const 255 ma m dp; Some (m, dp + 1, sp)
           else Some (m, dp, sp));
    Some (m, dp, sp, mp)) (Z.to_nat w) (m, dp, sp, mp).

Definition template_span_with_mask_3_general (cfg : config) (m : mem) (dp da : Z)
    (src : list Z) (sp sa : Z) (msk : list Z) (mp : Z) (w : Z) : option mem :=
  (λ s, s.1.1.1) <$> do_while (λ '(m, dp, sp, mp),
    ma ← load msk mp;
    let mp := mp + 1 in
    let ma := FZ_EXPAND ma in
    '(m, dp, sp) ←
      (if ma =? 0 then Some (m, dp + (3 + da), sp + (3 + sa))
       else if ma =? 256 then
         masa ← (if truthy sa then a ← load src (sp + 3); Some (255 - a) else Some 0);
         if masa =? 0 then
           if truthy da && truthy sa then
             (* *(int32_t * )dp = *(int32_t * )sp *)
             v ← load32 (isbigendian cfg) src sp;
             m ← store32 (isbigendian cfg) m dp v;
             Some (m, dp + 4, sp + 4)
           else
             m ← put_src src m dp sp; let dp := dp + 1 in let sp := sp + 1 in
             m ← put_src src m dp sp; let dp := dp + 1 in let sp := sp + 1 in
             m ← put_src src m dp sp; let dp := dp + 1 in let sp := sp + 1 in
             '(m, dp) ← (if truthy da
                         then a ← src_alpha src sa sp; m ← store m dp a; Some (m, dp + 1)
                         else Some (m, dp));
             Some (m, dp, if truthy sa then sp + 1 else sp)
         else
           let masa := FZ_EXPAND masa in
           m ← put_over src masa m dp sp; let sp := sp + 1 in let dp := dp + 1 in
           m ← put_over src masa m dp sp; let sp := sp + 1 in let dp := dp + 1 in
           m ← put_over src masa m dp sp; let sp := sp + 1 in let dp := dp + 1 in
           '(m, dp) ← (if truthy da
                       then m ← put_alpha_over src sa masa m dp sp; Some (m, dp + 1)
                       else Some (m, dp));
           Some (m, dp, if truthy sa then sp + 1 else sp)
       else
         if truthy sa then
           a ← load src (sp + 3);
           let masa := FZ_COMBINE a ma in
           let masa := 255 - masa in
           let masa := FZ_EXPAND masa in
           m ← put_combine2 src ma masa m dp sp; let sp := sp + 1 in let dp := dp + 1 in
           m ← put_combine2 src ma masa m dp sp; let sp := sp + 1 in let dp := dp + 1 in
           m ← put_combine2 src ma masa m dp sp; let sp := sp + 1 in let dp := dp + 1 in
           '(m, dp) ← (if truthy da
                       then m ← put_combine2 src ma masa m dp sp; Some (m, dp + 1)
                       else Some (m, dp));
           Some (m, dp, sp + 1)
         else
           m ← put_blend src ma m dp sp; let sp := sp + 1 in let dp := dp + 1 in
           m ← put_blend src ma m dp sp; let sp := sp + 1 in let dp := dp + 1 in
           m ← put_blend src ma m dp sp; let sp := sp + 1 in let dp := dp + 1 in
           if truthy da
           then m ← put_blend_const 255 ma m dp; Some (m, dp + 1, sp)
           else Some (m, dp, sp));
    Some (m, dp, sp, mp)) (Z.to_nat w) (m, dp, sp, mp).

Definition template_span_with_mask_4_general (m : mem) (dp da : Z) (src : list Z) (sp sa : Z)
    (msk : list Z) (mp : Z) (w : Z) : option mem :=
  (λ s, s.1.1.1) <$> do_while (λ '(m, dp, sp, mp),
    ma ← load msk mp;
    let mp := mp + 1 in
    let ma := FZ_EXPAND ma in
    '(m, dp, sp) ←
      (if ma =? 0 then Some (m, dp + (4 + da), sp + (4 + sa))
       else if ma =? 256 then
         masa ← (if truthy sa then a ← load src (sp + 4); Some (255 - a) else Some 0);
         if masa =? 0 then
           m ← put_src src m dp sp; let dp := dp + 1 in let sp := sp + 1 in
           m ← put_src src m dp sp; let dp := dp + 1 in let sp := sp + 1 in
           m ← put_src src m dp sp; let dp := dp + 1 in let sp := sp + 1 in
           m ← put_src src m dp sp; let dp := dp + 1 in let sp := sp + 1 in
           '(m, dp) ← (if truthy da
                       then a ← src_alpha src sa sp; m ← store m dp a; Some (m, dp + 1)
                       else Some (m, dp));
           Some (m, dp, if truthy sa then sp + 1 else sp)
         else
           let masa := FZ_EXPAND masa in
           m ← put_over src masa m dp sp; let sp := sp + 1 in let dp := dp + 1 in
           m ← put_over src masa m dp sp; let sp := sp + 1 in let dp := dp + 1 in
           m ← put_over src masa m dp sp; let sp := sp + 1 in let dp := dp + 1 in
           m ← put_over src masa m dp sp; let sp := sp + 1 in let dp := dp + 1 in
           '(m, dp) ← (if truthy da
                       then m ← put_alpha_over src sa masa m dp sp; Some (m, dp + 1)
                       else Some (m, dp));
           Some (m, dp, if truthy sa then sp + 1 else sp)
       else
         if truthy sa then
           a ← load src (sp + 4);
           let masa := FZ_COMBINE a ma in
           let masa := 255 - masa in
           let masa := FZ_EXPAND masa in
           m ← put_combine2 src ma masa m dp sp; let sp := sp + 1 in let dp := dp + 1 in
           m ← put_combine2 src ma masa m dp sp; let sp := sp + 1 in let dp := dp + 1 in
           m ← put_combine2 src ma masa m dp sp; let sp := sp + 1 in let dp := dp + 1 in
           m ← put_combine2 src ma masa m dp sp; let sp := sp + 1 in let dp := dp + 1 in
           '(m, dp) ← (if truthy da
                       then m ← put_combine2 src ma masa m dp sp; Some (m, dp + 1)
                       else Some (m, dp));
           Some (m, dp, sp + 1)
         else
           m ← put_blend src ma m dp sp; let sp := sp + 1 in let dp := dp + 1 in
           m ← put_blend src ma m dp sp; let sp := sp + 1 in let dp := dp + 1 in
           m ← put_blend src ma m dp sp; let sp := sp + 1 in let dp := dp + 1 in
           m ← put_blend src ma m dp sp; let sp := sp + 1 in let dp := dp + 1 in
           if truthy da
           then m ← put_blend_const 255 ma m dp; Some (m, dp + 1, sp)
           else Some (m, dp, sp));
    Some (m, dp, sp, mp)) (Z.to_nat w) (m, dp, sp, mp).

Definition template_span_with_mask_N_general (m : mem) (dp da : Z) (src : list Z) (sp sa : Z)
    (msk : list Z) (mp : Z) (n w : Z) : option mem :=
  (λ s, s.1.1.1) <$> do_while (λ '(m, dp, sp, mp),
    ma ← load msk mp;
    let mp := mp + 1 in
    let ma := FZ_EXPAND ma in
    '(m, dp, sp) ←
      (if ma =? 0 then Some (m, dp + (n + da), sp + (n + sa))
       else if ma =? 256 then
         masa ← (if truthy sa then a ← load src (sp + n); Some (255 - a) else Some 0);
         if masa =? 0 then
           '(m, dp, sp) ← each_channel n (put_src src) m dp sp;
           '(m, dp) ← (if truthy da
                       then a ← src_alpha src sa sp; m ← store m dp a; Some (m, dp + 1)
                       else Some (m, dp));
           Some (m, dp, if truthy sa then sp + 1 else sp)
         else
           let masa := FZ_EXPAND masa in
           '(m, dp, sp) ← each_channel n (put_over src masa) m dp sp;
           '(m, dp) ← (if truthy da
                       then m ← put_alpha_over src sa masa m dp sp; Some (m, dp + 1)
                       else Some (m, dp));
           Some (m, dp, if truthy sa then sp + 1 else sp)
       else
         if truthy sa then
           a ← load src (sp + n);
           let masa := FZ_COMBINE a ma in
           let masa := 255 - masa in
           let masa := FZ_EXPAND masa in
           '(m, dp, sp) ← each_channel n (put_combine2 src ma masa) m dp sp;
           '(m, dp) ← (if truthy da
                       then m ← put_combine2 src ma masa m dp sp; Some (m, dp + 1)
                       else Some (m, dp));
           Some (m, dp, sp + 1)
         else
           '(m, dp, sp) ← each_channel n (put_blend src ma) m dp sp;
           if truthy da
           then m ← put_blend_const 255 ma m dp; Some (m, dp + 1, sp)
           else Some (m, dp, sp));
    Some (m, dp, sp, mp)) (Z.to_nat w) (m, dp, sp, mp).

Definition paint_span_with_mask_0_da_sa : fz_span_mask_painter_t :=
  λ m dp da src sp sa msk mp n w, template_span_with_mask_N_general m dp 1 src sp 1 msk mp 0 w.
Definition paint_span_with_mask_0_da : fz_span_mask_painter_t :=
  λ m dp da src sp sa msk mp n w, template_span_with_mask_N_general m dp 1 src sp 0 msk mp 0 w.
Definition paint_span_with_mask_1_da_sa : fz_span_mask_painter_t :=
  λ m dp da src sp sa msk mp n w, template_span_with_mask_1_general m dp 1 src sp 1 msk mp w.
Definition paint_span_with_mask_1 : fz_span_mask_painter_t :=
  λ m dp da src sp sa msk mp n w, template_span_with_mask_1_general m dp 0 src sp 0 msk mp w.
Definition paint_span_with_mask_1_da : fz_span_mask_painter_t :=
  λ m dp da src sp sa msk mp n w, template_span_with_mask_1_general m dp 1 src sp 0 msk mp w.
Definition paint_span_with_mask_1_sa : fz_span_mask_painter_t :=
  λ m dp da src sp sa msk mp n w, template_span_with_mask_1_general m dp 0 src sp 1 msk mp w.
Definition paint_span_with_mask_3_da_sa (cfg : config) : fz_span_mask_painter_t :=
  λ m dp da src sp sa msk mp n w, template_span_with_mask_3_general cfg m dp 1 src sp 1 msk mp w.
Definition paint_span_with_mask_3_da (cfg : config) : fz_span_mask_painter_t :=
  λ m dp da src sp sa msk mp n w, template_span_with_mask_3_general cfg m dp 1 src sp 0 msk mp w.
Definition paint_span_with_mask_3_sa (cfg : config) : fz_span_mask_painter_t :=
  λ m dp da src sp sa msk mp n w, template_span_with_mask_3_general cfg m dp 0 src sp 1 msk mp w.
Definition paint_span_with_mask_3 (cfg : config) : fz_span_mask_painter_t :=
  λ m dp da src sp sa msk mp n w, template_span_with_mask_3_general cfg m dp 0 src sp 0 msk mp w.
Definition paint_span_with_mask_4_da_sa : fz_span_mask_painter_t :=
  λ m dp da src sp sa msk mp n w, template_span_with_mask_4_general m dp 1 src sp 1 msk mp w.
Definition paint_span_with_mask_4_da : fz_span_mask_painter_t :=
  λ m dp da src sp sa msk mp n w, template_span_with_mask_4_general m dp 1 src sp 0 msk mp w.
Definition paint_span_with_mask_4_sa : fz_span_mask_painter_t :=
  λ m dp da src sp sa msk mp n w, template_span_with_mask_4_general m dp 0 src sp 1 msk mp w.
Definition paint_span_with_mask_4 : fz_span_mask_painter_t :=
  λ m dp da src sp sa msk mp n w, template_span_with_mask_4_general m dp 0 src sp 0 msk mp w.
Definition paint_span_with_mask_N_da_sa : fz_span_mask_painter_t :=
  λ m dp da src sp sa msk mp n w, template_span_with_mask_N_general m dp 1 src sp 1 msk mp n w.
Definition paint_span_with_mask_N_da : fz_span_mask_painter_t :=
  λ m dp da src sp sa msk mp n w, template_span_with_mask_N_general m dp 1 src sp 0 msk mp n w.
Definition paint_span_with_mask_N_sa : fz_span_mask_painter_t :=
  λ m dp da src sp sa msk mp n w, template_span_with_mask_N_general m dp 0 src sp 1 msk mp n w.
Definition paint_span_with_mask_N : fz_span_mask_painter_t :=
  λ m dp da src sp sa msk mp n w, template_span_with_mask_N_general m dp 0 src sp 0 msk mp n w.

(** Selection among the four variants of one channel count. *)
Definition by_alpha {A : Type} (da sa : Z) (da_sa da_only sa_only plain : A) : A :=
  if truthy da
  then (if truthy sa then da_sa else da_only)
  else (if truthy sa then sa_only else plain).

Definition fz_get_span_mask_painter (cfg : config) (da sa n : Z)
  : option fz_span_mask_painter_t :=
  let default :=
    if FZ_PLOTTERS_N cfg
    then Some (by_alpha da sa paint_span_with_mask_N_da_sa paint_span_with_mask_N_da
                 paint_span_with_mask_N_sa paint_span_with_mask_N)
    else None in
  match n with
  | 0 =>
      if negb (truthy da) then None
      else if truthy sa then Some paint_span_with_mask_0_da_sa
      else Some paint_span_with_mask_0_da
  | 1 =>
      if FZ_PLOTTERS_G cfg
      then Some (by_alpha da sa paint_span_with_mask_1_da_sa paint_span_with_mask_1_da
                   paint_span_with_mask_1_sa paint_span_with_mask_1)
      else if truthy da && truthy sa then Some paint_span_with_mask_1_da_sa
      else if negb (truthy da) && negb (truthy sa) then Some paint_span_with_mask_1
      else default
  | 3 =>
      if FZ_PLOTTERS_RGB cfg
      then Some (by_alpha da sa (paint_span_with_mask_3_da_sa cfg) (paint_span_with_mask_3_da cfg)
                   (paint_span_with_mask_3_sa cfg) (paint_span_with_mask_3 cfg))
      else default
  | 4 =>
      if FZ_PLOTTERS_CMYK cfg
      then Some (by_alpha da sa paint_span_with_mask_4_da_sa paint_span_with_mask_4_da
                   paint_span_with_mask_4_sa paint_span_with_mask_4)
      else default
  | _ => default
  end.

(** ** Span painters: source over destination, with a constant alpha *)

Definition fz_span_painter_t : Type :=
  mem → Z → Z → list Z → Z → Z → Z → Z → Z → option mem.

(** [*dp = FZ_BLEND((sa ? *sp : 255), *dp, masa)] *)
Definition put_blend_alpha (src : list Z) (sa masa : Z) (m : mem) (dp sp : Z) : option mem :=
  a ← src_alpha src sa sp; d ← load m dp; store m dp (FZ_BLEND a d masa).

(** [masa = (sa ? FZ_COMBINE(sp[n1], alpha) : alpha)] *)
Definition plane_weight (src : list Z) (sa sp n1 alpha : Z) : option Z :=
  if truthy sa then a ← load src (sp + n1); Some (FZ_COMBINE a alpha) else Some alpha.

Definition template_span_1_with_alpha_general (m : mem) (dp da : Z) (src : list Z) (sp sa : Z)
    (w alpha : Z) : option mem :=
  let alpha := if truthy sa then FZ_EXPAND alpha else alpha in
  (λ s, s.1.1) <$> do_while (λ '(m, dp, sp),
    masa ← plane_weight src sa sp 1 alpha;
    m ← put_blend src masa m dp sp; let dp := dp + 1 in let sp := sp + 1 in
    '(m, dp) ← (if truthy da
                then m ← put_blend_alpha src sa masa m dp sp; Some (m, dp + 1)
                else Some (m, dp));
    Some (m, dp, if truthy sa then sp + 1 else sp)) (Z.to_nat w) (m, dp, sp).

Definition template_span_3_with_alpha_general (m : mem) (dp da : Z) (src : list Z) (sp sa : Z)
    (w alpha : Z) : option mem :=
  let alpha := if truthy sa then FZ_EXPAND alpha else alpha in
  (λ s, s.1.1) <$> do_while (λ '(m, dp, sp),
    masa ← plane_weight src sa sp 3 alpha;
    m ← put_blend src masa m dp sp; let sp := sp + 1 in let dp := dp + 1 in
    m ← put_blend src masa m dp sp; let sp := sp + 1 in let dp := dp + 1 in
    m ← put_blend src masa m dp sp; let sp := sp + 1 in let dp := dp + 1 in
    '(m, dp) ← (if truthy da
                then m ← put_blend_alpha src sa masa m dp sp; Some (m, dp + 1)
                else Some (m, dp));
    Some (m, dp, if truthy sa then sp + 1 else sp)) (Z.to_nat w) (m, dp, sp).

Definition template_span_4_with_alpha_general (m : mem) (dp da : Z) (src : list Z) (sp sa : Z)
    (w alpha : Z) : option mem :=
  let alpha := if truthy sa then FZ_EXPAND alpha else alpha in
  (λ s, s.1.1) <$> do_while (λ '(m, dp, sp),
    masa ← plane_weight src sa sp 4 alpha;
    m ← put_blend src masa m dp sp; let sp := sp + 1 in let dp := dp + 1 in
    m ← put_blend src masa m dp sp; let sp := sp + 1 in let dp := dp + 1 in
    m ← put_blend src masa m dp sp; let sp := sp + 1 in let dp := dp + 1 in
    m ← put_blend src masa m dp sp; let sp := sp + 1 in let dp := dp + 1 in
    '(m, dp) ← (if truthy da
                then m ← put_blend_alpha src sa masa m dp sp; Some (m, dp + 1)
                else Some (m, dp));
    Some (m, dp, if truthy sa then sp + 1 else sp)) (Z.to_nat w) (m, dp, sp).

Definition template_span_N_with_alpha_general (m : mem) (dp da : Z) (src : list Z) (sp sa : Z)
    (n1 w alpha : Z) : option mem :=
  let alpha := if truthy sa then FZ_EXPAND alpha else alpha in
  (λ s, s.1.1) <$> do_while (λ '(m, dp, sp),
    masa ← plane_weight src sa sp n1 alpha;
    '(m, dp, sp) ← each_channel n1 (put_blend src masa) m dp sp;
    '(m, dp) ← (if truthy da
                then m ← put_blend_alpha src sa masa m dp sp; Some (m, dp + 1)
                else Some (m, dp));
    Some (m, dp, if truthy sa then sp + 1 else sp)) (Z.to_nat w) (m, dp, sp).

(** ** Span painters: source over destination *)

(** [t = (sa ? FZ_EXPAND(sp[n1]) : 256)] *)
Definition source_weight (src : list Z) (sa sp n1 : Z) : option Z :=
  if truthy sa then a ← load src (sp + n1); Some (FZ_EXPAND a) else Some 256.

(** [*dp = (sa ? *sp + FZ_COMBINE( *dp, t) : 255)] *)
Definition put_over_or_255 (src : list Z) (sa t : Z) (m : mem) (dp sp : Z) : option mem :=
  if truthy sa
  then s ← load src sp; d ← load m dp; store m dp (s + FZ_COMBINE d t)
  else store m dp 255.

Definition template_span_1_general (m : mem) (dp da : Z) (src : list Z) (sp sa : Z) (w : Z)
  : option mem :=
  (λ s, s.1.1) <$> do_while (λ '(m, dp, sp),
    t ← source_weight src sa sp 1;
    if t =? 0 then Some (m, dp + (1 + da), sp + (1 + sa))
    else
      let t := 256 - t in
      if t =? 0 then
        m ← put_src src m dp sp; let dp := dp + 1 in let sp := sp + 1 in
        '(m, dp) ← (if truthy da
                    then a ← src_alpha src sa sp; m ← store m dp a; Some (m, dp + 1)
                    else Some (m, dp));
        Some (m, dp, if truthy sa then sp + 1 else sp)
      else
        m ← put_over src t m dp sp; let sp := sp + 1 in let dp := dp + 1 in
        '(m, dp) ← (if truthy da
                    then m ← put_over_or_255 src sa t m dp sp; Some (m, dp + 1)
                    else Some (m, dp));
        Some (m, dp, if truthy sa then sp + 1 else sp)) (Z.to_nat w) (m, dp, sp).

Definition template_span_3_general (cfg : config) (m : mem) (dp da : Z) (src : list Z)
    (sp sa : Z) (w : Z) : option mem :=
  (λ s, s.1.1) <$> do_while (λ '(m, dp, sp),
    t ← source_weight src sa sp 3;
    if t =? 0 then Some (m, dp + (3 + da), sp + (3 + sa))
    else
      let t := 256 - t in
      if t =? 0 then
        m ← (if truthy da && truthy sa then
               v ← load32 (isbigendian cfg) src sp;
               store32 (isbigendian cfg) m dp v
             else
               m ← put_src src m dp sp;
               m ← put_src src m (dp + 1) (sp + 1);
               m ← put_src src m (dp + 2) (sp + 2);
               if truthy da
               then a ← src_alpha src sa (sp + 3); store m (dp + 3) a
               else Some m);
        Some (m, dp + (3 + da), sp + (3 + sa))
      else
        m ← put_over src t m dp sp; let sp := sp + 1 in let dp := dp + 1 in
        m ← put_over src t m dp sp; let sp := sp + 1 in let dp := dp + 1 in
        m ← put_over src t m dp sp; let sp := sp + 1 in let dp := dp + 1 in
        '(m, dp) ← (if truthy da
                    then m ← put_over_or_255 src sa t m dp sp; Some (m, dp + 1)
                    else Some (m, dp));
        Some (m, dp, if truthy sa then sp + 1 else sp)) (Z.to_nat w) (m, dp, sp).

Definition template_span_4_general (m : mem) (dp da : Z) (src : list Z) (sp sa : Z) (w : Z)
  : option mem :=
  (λ s, s.1.1) <$> do_while (λ '(m, dp, sp),
    t ← source_weight src sa sp 4;
    if t =? 0 then Some (m, dp + (4 + da), sp + (4 + sa))
    else
      let t := 256 - t in
      if t =? 0 then
        m ← put_src src m dp sp;
        m ← put_src src m (dp + 1) (sp + 1);
        m ← put_src src m (dp + 2) (sp + 2);
        m ← put_src src m (dp + 3) (sp + 3);
        m ← (if truthy da
             then a ← src_alpha src sa (sp + 4); store m (dp + 4) a
             else Some m);
        Some (m, dp + (4 + da), sp + (4 + sa))
      else
        m ← put_over src t m dp sp; let sp := sp + 1 in let dp := dp + 1 in
        m ← put_over src t m dp sp; let sp := sp + 1 in let dp := dp + 1 in
        m ← put_over src t m dp sp; let sp := sp + 1 in let dp := dp + 1 in
        m ← put_over src t m dp sp; let sp := sp + 1 in let dp := dp + 1 in
        '(m, dp) ← (if truthy da
                    then m ← put_over_or_255 src sa t m dp sp; Some (m, dp + 1)
                    else Some (m, dp));
        Some (m, dp, if truthy sa then sp + 1 else sp)) (Z.to_nat w) (m, dp, sp).

Definition template_span_N_general (m : mem) (dp da : Z) (src : list Z) (sp sa : Z)
    (n1 w : Z) : option mem :=
  (λ s, s.1.1) <$> do_while (λ '(m, dp, sp),
    t ← source_weight src sa sp n1;
    if t =? 0 then Some (m, dp + (n1 + da), sp + (n1 + sa))
    else
      let t := 256 - t in
      if t =? 0 then
        '(m, dp, sp) ← each_channel n1 (put_src src) m dp sp;
        '(m, dp) ← (if truthy da
                    then a ← src_alpha src sa sp; m ← store m dp a; Some (m, dp + 1)
                    else Some (m, dp));
        Some (m, dp, if truthy sa then sp + 1 else sp)
      else
        '(m, dp, sp) ← each_channel n1 (put_over src t) m dp sp;
        '(m, dp) ← (if truthy da
                    then m ← put_over_or_255 src sa t m dp sp; Some (m, dp + 1)
                    else Some (m, dp));
        Some (m, dp, if truthy sa then sp + 1 else sp)) (Z.to_nat w) (m, dp, sp).

Definition paint_span_0_da_sa : fz_span_painter_t := λ m dp da src sp sa n w alpha,
  (λ s, s.1.1) <$> do_while (λ '(m, dp, sp),
    s ← load src sp;
    let sp := sp + 1 in
    let t := FZ_EXPAND (255 - s) in
    d ← load m dp;
    m ← store m dp (s + FZ_COMBINE d t);
    Some (m, dp + 1, sp)) (Z.to_nat w) (m, dp, sp).

Definition paint_span_0_da_sa_alpha : fz_span_painter_t := λ m dp da src sp sa n w alpha,
  let alpha := FZ_EXPAND alpha in
  (λ s, s.1.1) <$> do_while (λ '(m, dp, sp),
    s ← load src sp;
    let masa := FZ_COMBINE s alpha in
    m ← put_blend src masa m dp sp;
    Some (m, dp + 1, sp + 1)) (Z.to_nat w) (m, dp, sp).

Definition paint_span_1_sa : fz_span_painter_t := λ m dp da src sp sa n w alpha,
  template_span_1_general m dp 0 src sp 1 w.
Definition paint_span_1_sa_alpha : fz_span_painter_t := λ m dp da src sp sa n w alpha,
  template_span_1_with_alpha_general m dp 0 src sp 1 w alpha.
Definition paint_span_1_da_sa : fz_span_painter_t := λ m dp da src sp sa n w alpha,
  template_span_1_general m dp 1 src sp 1 w.
Definition paint_span_1_da_sa_alpha : fz_span_painter_t := λ m dp da src sp sa n w alpha,
  template_span_1_with_alpha_general m dp 1 src sp 1 w alpha.
Definition paint_span_1_da : fz_span_painter_t := λ m dp da src sp sa n w alpha,
  template_span_1_general m dp 1 src sp 0 w.
Definition paint_span_1_da_alpha : fz_span_painter_t := λ m dp da src sp sa n w alpha,
  template_span_1_with_alpha_general m dp 1 src sp 0 w alpha.
Definition paint_span_1 : fz_span_painter_t := λ m dp da src sp sa n w alpha,
  template_span_1_general m dp 0 src sp 0 w.
Definition paint_span_1_alpha : fz_span_painter_t := λ m dp da src sp sa n w alpha,
  template_span_1_with_alpha_general m dp 0 src sp 0 w alpha.

Definition paint_span_3_da_sa (cfg : config) : fz_span_painter_t :=
  λ m dp da src sp sa n w alpha, template_span_3_general cfg m dp 1 src sp 1 w.
Definition paint_span_3_da_sa_alpha : fz_span_painter_t := λ m dp da src sp sa n w alpha,
  template_span_3_with_alpha_general m dp 1 src sp 1 w alpha.
Definition paint_span_3_da (cfg : config) : fz_span_painter_t :=
  λ m dp da src sp sa n w alpha, template_span_3_general cfg m dp 1 src sp 0 w.
Definition paint_span_3_da_alpha : fz_span_painter_t := λ m dp da src sp sa n w alpha,
  template_span_3_with_alpha_general m dp 1 src sp 0 w alpha.
Definition paint_span_3_sa (cfg : config) : fz_span_painter_t :=
  λ m dp da src sp sa n w alpha, template_span_3_general cfg m dp 0 src sp 1 w.
Definition paint_span_3_sa_alpha : fz_span_painter_t := λ m dp da src sp sa n w alpha,
  template_span_3_with_alpha_general m dp 0 src sp 1 w alpha.
Definition paint_span_3 (cfg : config) : fz_span_painter_t :=
  λ m dp da src sp sa n w alpha, template_span_3_general cfg m dp 0 src sp 0 w.
Definition paint_span_3_alpha : fz_span_painter_t := λ m dp da src sp sa n w alpha,
  template_span_3_with_alpha_general m dp 0 src sp 0 w alpha.

Definition paint_span_4_da_sa : fz_span_painter_t := λ m dp da src sp sa n w alpha,
  template_span_4_general m dp 1 src sp 1 w.
Definition paint_span_4_da_sa_alpha : fz_span_painter_t := λ m dp da src sp sa n w alpha,
  template_span_4_with_alpha_general m dp 1 src sp 1 w alpha.
Definition paint_span_4_da : fz_span_painter_t := λ m dp da src sp sa n w alpha,
  template_span_4_general m dp 1 src sp 0 w.
Definition paint_span_4_da_alpha : fz_span_painter_t := λ m dp da src sp sa n w alpha,
  template_span_4_with_alpha_general m dp 1 src sp 0 w alpha.
Definition paint_span_4_sa : fz_span_painter_t := λ m dp da src sp sa n w alpha,
  template_span_4_general m dp 0 src sp 1 w.
Definition paint_span_4_sa_alpha : fz_span_painter_t := λ m dp da src sp sa n w alpha,
  template_span_4_with_alpha_general m dp 0 src sp 1 w alpha.
Definition paint_span_4 : fz_span_painter_t := λ m dp da src sp sa n w alpha,
  template_span_4_general m dp 0 src sp 0 w.
Definition paint_span_4_alpha : fz_span_painter_t := λ m dp da src sp sa n w alpha,
  template_span_4_with_alpha_general m dp 0 src sp 0 w alpha.

Definition paint_span_N_da_sa : fz_span_painter_t := λ m dp da src sp sa n w alpha,
  template_span_N_general m dp 1 src sp 1 n w.
Definition paint_span_N_da_sa_alpha : fz_span_painter_t := λ m dp da src sp sa n w alpha,
  template_span_N_with_alpha_general m dp 1 src sp 1 n w alpha.
Definition paint_span_N_da : fz_span_painter_t := λ m dp da src sp sa n w alpha,
  template_span_N_general m dp 1 src sp 0 n w.
Definition paint_span_N_da_alpha : fz_span_painter_t := λ m dp da src sp sa n w alpha,
  template_span_N_with_alpha_general m dp 1 src sp 0 n w alpha.
Definition paint_span_N_sa : fz_span_painter_t := λ m dp da src sp sa n w alpha,
  template_span_N_general m dp 0 src sp 1 n w.
Definition paint_span_N_sa_alpha : fz_span_painter_t := λ m dp da src sp sa n w alpha,
  template_span_N_with_alpha_general m dp 0 src sp 1 n w alpha.
Definition paint_span_N : fz_span_painter_t := λ m dp da src sp sa n w alpha,
  template_span_N_general m dp 0 src sp 0 n w.
Definition paint_span_N_alpha : fz_span_painter_t := λ m dp da src sp sa n w alpha,
  template_span_N_with_alpha_general m dp 0 src sp 0 n w alpha.

(** [if (alpha == 255) return opaque; else if (alpha > 0) return with_alpha;]
    and otherwise the [break] that leads to [return NULL]. *)
Definition by_plane_alpha {A : Type} (alpha : Z) (opaque with_alpha : A) : option A :=
  if alpha =? 255 then Some opaque
  else if alpha >? 0 then Some with_alpha
  else None.

Definition fz_get_span_painter (cfg : config) (da sa n alpha : Z) : option fz_span_painter_t :=
  let default :=
    if FZ_PLOTTERS_N cfg then
      by_alpha da sa
        (by_plane_alpha alpha paint_span_N_da_sa paint_span_N_da_sa_alpha)
        (by_plane_alpha alpha paint_span_N_da paint_span_N_da_alpha)
        (by_plane_alpha alpha paint_span_N_sa paint_span_N_sa_alpha)
        (by_plane_alpha alpha paint_span_N paint_span_N_alpha)
    else None in
  match n with
  | 0 => by_plane_alpha alpha paint_span_0_da_sa paint_span_0_da_sa_alpha
  | 1 =>
      if truthy sa then
        if truthy da
        then by_plane_alpha alpha paint_span_1_da_sa paint_span_1_da_sa_alpha
        else by_plane_alpha alpha paint_span_1_sa paint_span_1_sa_alpha
      else if FZ_PLOTTERS_G cfg then
        if truthy da
        then by_plane_alpha alpha paint_span_1_da paint_span_1_da_alpha
        else by_plane_alpha alpha paint_span_1 paint_span_1_alpha
      else default
  | 3 =>
      if FZ_PLOTTERS_RGB cfg then
        by_alpha da sa
          (by_plane_alpha alpha (paint_span_3_da_sa cfg) paint_span_3_da_sa_alpha)
          (by_plane_alpha alpha (paint_span_3_da cfg) paint_span_3_da_alpha)
          (by_plane_alpha alpha (paint_span_3_sa cfg) paint_span_3_sa_alpha)
          (by_plane_alpha alpha (paint_span_3 cfg) paint_span_3_alpha)
      else default
  | 4 =>
      if FZ_PLOTTERS_CMYK cfg then
        by_alpha da sa
          (by_plane_alpha alpha paint_span_4_da_sa paint_span_4_da_sa_alpha)
          (by_plane_alpha alpha paint_span_4_da paint_span_4_da_alpha)
          (by_plane_alpha alpha paint_span_4_sa paint_span_4_sa_alpha)
          (by_plane_alpha alpha paint_span_4 paint_span_4_alpha)
      else default
  | _ => default
  end.

(** ** Pixmaps *)

(** Modelled from the spec: the struct fz_irect is declared in a header that
    is not part of the file; a rectangle of device space, of which the file
    reads the corners [x0], [y0], [x1], [y1]. *)
Record fz_irect := Irect { x0 : Z; y0 : Z; x1 : Z; y1 : Z }.

(** Modelled from the spec: the struct fz_pixmap is declared in a header that
    is not part of the file; a sample buffer with its channel count [n]
    (alpha included), its alpha flag, its stride, its integer origin [(x, y)],
    its width and height.  The fields are those the file reads, under a
    [pix_] prefix; [pix_colorspace] records whether the [colorspace] pointer
    is non-null. *)
Record fz_pixmap := Pixmap {
  pix_x : Z;
  pix_y : Z;
  pix_w : Z;
  pix_h : Z;
  pix_n : Z;
  pix_alpha : Z;
  pix_stride : Z;
  pix_colorspace : bool;
  pix_samples : mem
}.

(** Modelled from the spec: fz_pixmap_bbox_no_ctx is defined in another file;
    the bounds of a pixmap are its origin [(x, y)] extended by its width and
    height. *)
Definition fz_pixmap_bbox_no_ctx (p : fz_pixmap) : fz_irect :=
  Irect (pix_x p) (pix_y p) (pix_x p + pix_w p) (pix_y p + pix_h p).

(** Modelled from the spec: fz_intersect_irect is defined in another file; it
    computes the rectangle intersection, an empty intersection being a
    rectangle of zero area. *)
Definition fz_intersect_irect (a b : fz_irect) : fz_irect :=
  let r := Irect (Z.max (x0 a) (x0 b)) (Z.max (y0 a) (y0 b))
                 (Z.min (x1 a) (x1 b)) (Z.min (y1 a) (y1 b)) in
  if (x1 r <? x0 r) || (y1 r <? y0 r) then Irect 0 0 0 0 else r.

(** How a call that contains [assert]s ends: it returns, with the destination
    samples as they are then; or an assertion fails and the process aborts,
    the samples being what they were at that point; or it runs into undefined
    behaviour. *)
Inductive outcome :=
  | Returned (samples : mem)
  | AssertionFailed (samples : mem)
  | Undefined.

(** [assert(cond);] followed by [rest]: without [NDEBUG] a false condition
    aborts, the destination samples being [samples]; with [NDEBUG] the
    statement is empty. *)
Definition c_assert (cfg : config) (cond : bool) (samples : mem) (rest : outcome) : outcome :=
  if negb (NDEBUG cfg) && negb cond then AssertionFailed samples else rest.

Definition of_option (r : option mem) : outcome :=
  match r with Some m => Returned m | None => Undefined end.

(** [while (h--) { row; sp += sstride; dp += dstride; mp += mstride; }] *)
Fixpoint paint_rows (row : mem → Z → Z → Z → option mem) (h : nat) (m : mem)
    (dp sp mp dstride sstride mstride : Z) : option mem :=
  match h with
  | O => Some m
  | S h' =>
      m ← row m dp sp mp;
      paint_rows row h' m (dp + dstride) (sp + sstride) (mp + mstride) dstride sstride mstride
  end.

(** [samples + (unsigned int)((y - p->y) * p->stride + (x - p->x) * p->n)] *)
Definition pixel_offset (p : fz_pixmap) (x y : Z) : Z :=
  u32 ((y - pix_y p) * pix_stride p + (x - pix_x p) * pix_n p).

(** The part common to [fz_paint_pixmap] and [fz_paint_pixmap_with_bbox],
    from the computation of [x], [y], [w], [h] on. *)
Definition paint_pixmap_in (cfg : config) (dst src : fz_pixmap) (alpha : Z) (bbox : fz_irect)
  : outcome :=
  let x := x0 bbox in
  let y := y0 bbox in
  let w := x1 bbox - x0 bbox in
  let h := y1 bbox - y0 bbox in
  if (w =? 0) || (h =? 0) then Returned (pix_samples dst)
  else
    let n := pix_n src in
    let sp := pixel_offset src x y in
    let sa := pix_alpha src in
    let dp := pixel_offset dst x y in
    let da := pix_alpha dst in
    let n := n - sa in
    let fn := fz_get_span_painter cfg da sa n alpha in
    (* assert(fn); if (fn == NULL) return; *)
    c_assert cfg (bool_decide (is_Some fn)) (pix_samples dst)
      match fn with
      | None => Returned (pix_samples dst)
      | Some fn =>
          if h <? 0 then Undefined
          else of_option
            (paint_rows (λ m dp sp _, fn m dp da (pix_samples src) sp sa n w alpha)
               (Z.to_nat h) (pix_samples dst) dp sp 0 (pix_stride dst) (pix_stride src) 0)
      end.

Definition fz_paint_pixmap_with_bbox (cfg : config) (dst src : fz_pixmap) (alpha : Z)
    (bbox : fz_irect) : outcome :=
  c_assert cfg (pix_n dst - pix_alpha dst =? pix_n src - pix_alpha src) (pix_samples dst)
    (let bbox2 := fz_pixmap_bbox_no_ctx dst in
     let bbox := fz_intersect_irect bbox bbox2 in
     let bbox2 := fz_pixmap_bbox_no_ctx src in
     let bbox := fz_intersect_irect bbox bbox2 in
     paint_pixmap_in cfg dst src alpha bbox).

Definition fz_paint_pixmap (cfg : config) (dst src : fz_pixmap) (alpha : Z) : outcome :=
  c_assert cfg (pix_n dst - pix_alpha dst =? pix_n src - pix_alpha src) (pix_samples dst)
    (let bbox := fz_pixmap_bbox_no_ctx dst in
     let bbox2 := fz_pixmap_bbox_no_ctx src in
     let bbox := fz_intersect_irect bbox bbox2 in
     paint_pixmap_in cfg dst src alpha bbox).

Definition fz_paint_pixmap_with_mask (cfg : config) (dst src msk : fz_pixmap) : outcome :=
  c_assert cfg (pix_n dst =? pix_n src) (pix_samples dst) $
  c_assert cfg (pix_n msk =? 1) (pix_samples dst) $
    let bbox := fz_pixmap_bbox_no_ctx dst in
    let bbox2 := fz_pixmap_bbox_no_ctx src in
    let bbox := fz_intersect_irect bbox bbox2 in
    let bbox2 := fz_pixmap_bbox_no_ctx msk in
    let bbox := fz_intersect_irect bbox bbox2 in
    let x := x0 bbox in
    let y := y0 bbox in
    let w := x1 bbox - x0 bbox in
    let h := y1 bbox - y0 bbox in
    if (w =? 0) || (h =? 0) then Returned (pix_samples dst)
    else
      let n := pix_n src in
      let sp := pixel_offset src x y in
      let sa := pix_alpha src in
      let mp := pixel_offset msk x y in
      let dp := pixel_offset dst x y in
      let da := pix_alpha dst in
      let n := n - sa in
      match fz_get_span_mask_painter cfg da sa n with
      | None => Returned (pix_samples dst)
      | Some fn =>
          if h <? 0 then Undefined
          else of_option
            (paint_rows
               (λ m dp sp mp, fn m dp da (pix_samples src) sp sa (pix_samples msk) mp n w)
               (Z.to_nat h) (pix_samples dst) dp sp mp
               (pix_stride dst) (pix_stride src) (pix_stride msk))
      end.

(** ** Glyphs: run-length decoding into a coverage mask *)

(** Modelled from the spec: the struct fz_glyph is declared in a header that
    is not part of the file; of it the file reads only the [data] bytes: per
    row the offset of the row's runs in the shared run stream, or a sentinel
    (a negative number) for a row without coverage, stored as a table of
    [int]s at the head of [data], followed by the runs. *)
Record fz_glyph := Glyph { glyph_data : list Z }.

(** [((const int * )data)[i]] *)
Definition load_int (be : bool) (data : list Z) (i : Z) : option Z :=
  v ← load32 be data (4 * i);
  Some (if v >=? 2147483648 then v - 4294967296 else v).

(** [transparent_run: if (len > ww) len = ww; ww -= len; ddp += len;] *)
Definition transparent_run (ddp ww len : Z) : Z * Z :=
  let len := if len >? ww then ww else len in
  let ww := ww - len in
  (ddp + len, ww).

(** [solid_run: if (len > ww) len = ww; ww -= len;
     do { *ddp++ = 0xFF; } while (--len);] *)
Definition solid_run (m : mem) (ddp ww len : Z) : option (mem * Z * Z) :=
  let len := if len >? ww then ww else len in
  let ww := ww - len in
  '(m, ddp) ← do_while (λ '(m, ddp),
    m ← store m ddp 0xFF;
    Some (m, ddp + 1)) (Z.to_nat len) (m, ddp);
  Some (m, ddp, ww).

(** [intermediate_run: if (len > ww) len = ww; ww -= len;
     do { int v = *ddp; int a = *runp++;
          if (v == 0) *ddp++ = a;
          else { a = FZ_EXPAND(a); *ddp = FZ_BLEND(0xFF, v, a); ddp++; }
     } while (--len);] *)
Definition intermediate_run (data : list Z) (m : mem) (runp ddp ww len : Z)
  : option (mem * Z * Z * Z) :=
  let len := if len >? ww then ww else len in
  let ww := ww - len in
  '(m, runp, ddp) ← do_while (λ '(m, runp, ddp),
    v ← load m ddp;
    a ← load data runp;
    let runp := runp + 1 in
    if v =? 0 then
      m ← store m ddp a;
      Some (m, runp, ddp + 1)
    else
      let a := FZ_EXPAND a in
      m ← store m ddp (FZ_BLEND 0xFF v a);
      Some (m, runp, ddp + 1)) (Z.to_nat len) (m, runp, ddp);
  Some (m, runp, ddp, ww).

(** The [switch] of the emission loop, on the header [v] read at [runp - 1]. *)
Definition emit_switch (data : list Z) (m : mem) (v runp ddp ww extend eol : Z)
  : option (mem * Z * Z * Z * Z * Z) :=
  match Z.land v 3 with
  | 0 => (* Extend *)
      Some (m, runp, ddp, ww, v ≫ 2, eol)
  | 1 => (* Transparent *)
      let len := (v ≫ 2) + 1 + (extend ≪ 6) in
      let '(ddp, ww) := transparent_run ddp ww len in
      Some (m, runp, ddp, ww, 0, eol)
  | 2 => (* Solid *)
      let eol := Z.land v 4 in
      let len := (v ≫ 3) + 1 + (extend ≪ 5) in
      '(m, ddp, ww) ← solid_run m ddp ww len;
      Some (m, runp, ddp, ww, 0, eol)
  | _ => (* Intermediate *)
      let eol := Z.land v 4 in
      let len := (v ≫ 3) + 1 + (extend ≪ 5) in
      '(m, runp, ddp, ww) ← intermediate_run data m runp ddp ww len;
      Some (m, runp, ddp, ww, 0, eol)
  end.

(** [while (ww > 0) { v = *runp++; switch ...; if (eol) break; }].  Every
    round reads one more byte of [data], so [length data] rounds of [fuel]
    are never used up before a read leaves the buffer. *)
Fixpoint emit_loop (fuel : nat) (data : list Z) (m : mem) (runp ddp ww extend eol : Z)
  : option mem :=
  if ww >? 0 then
    match fuel with
    | O => None
    | S fuel' =>
        v ← load data runp;
        let runp := runp + 1 in
        '(m, runp, ddp, ww, extend, eol) ← emit_switch data m v runp ddp ww extend eol;
        if truthy eol then Some m
        else emit_loop fuel' data m runp ddp ww extend eol
    end
  else Some m.

(** Where the [switch] of the skip loop leaves: at its [break], or at one of
    the three labels inside the emission loop. *)
Inductive skip_exit := Break | Transparent_run | Solid_run | Intermediate_run.

(** The [switch] of the skip loop; returns the exit and the new
    [runp], [extend], [eol], [len]. *)
Definition skip_switch (v runp extend eol skip_xx : Z) : skip_exit * Z * Z * Z * Z :=
  match Z.land v 3 with
  | 0 => (* Extend *)
      (Break, runp, v ≫ 2, eol, 0)
  | 1 => (* Transparent *)
      let len := (v ≫ 2) + 1 + (extend ≪ 6) in
      if len >? skip_xx
      then (Transparent_run, runp, 0, eol, len - skip_xx)
      else (Break, runp, 0, eol, len)
  | 2 => (* Solid *)
      let eol := Z.land v 4 in
      let len := (v ≫ 3) + 1 + (extend ≪ 5) in
      if len >? skip_xx
      then (Solid_run, runp, 0, eol, len - skip_xx)
      else (Break, runp, 0, eol, len)
  | _ => (* Intermediate *)
      let eol := Z.land v 4 in
      let len := (v ≫ 3) + 1 + (extend ≪ 5) in
      if len >? skip_xx
      then (Intermediate_run, runp + skip_xx, 0, eol, len - skip_xx)
      else (Break, runp + len, 0, eol, len)
  end.

(** The end of a round of the emission loop entered through a label:
    [if (eol) break;] and back to the loop test. *)
Definition after_run (fuel : nat) (data : list Z) (m : mem) (runp ddp ww extend eol : Z)
  : option mem :=
  if truthy eol then Some m else emit_loop fuel data m runp ddp ww extend eol.

(** [while (skip_xx) { v = *runp++; switch ...;
     if (eol) { ww = 0; break; } skip_xx -= len; }] followed by the emission
    loop. *)
Fixpoint skip_loop (fuel : nat) (data : list Z) (m : mem) (runp ddp ww extend eol skip_xx : Z)
  : option mem :=
  if skip_xx =? 0 then emit_loop fuel data m runp ddp ww extend eol
  else
    match fuel with
    | O => None
    | S fuel' =>
        v ← load data runp;
        let runp := runp + 1 in
        let '(exit, runp, extend, eol, len) := skip_switch v runp extend eol skip_xx in
        match exit with
        | Break =>
            if truthy eol
            then emit_loop fuel' data m runp ddp 0 extend eol
            else skip_loop fuel' data m runp ddp ww extend eol (skip_xx - len)
        | Transparent_run =>
            let '(ddp, ww) := transparent_run ddp ww len in
            after_run fuel' data m runp ddp ww extend eol
        | Solid_run =>
            '(m, ddp, ww) ← solid_run m ddp ww len;
            after_run fuel' data m runp ddp ww extend eol
        | Intermediate_run =>
            '(m, runp, ddp, ww) ← intermediate_run data m runp ddp ww len;
            after_run fuel' data m runp ddp ww extend eol
        end
    end.

(** One row: the body of [if (offset >= 0)], with [runp = &data[offset]],
    [ddp = dp], [extend = 0], [eol = 0], [ww = w], [skip_xx = skip_x]. *)
Definition glyph_mask_row (data : list Z) (m : mem) (offset dp w skip_x : Z) : option mem :=
  skip_loop (length data) data m offset dp w 0 0 skip_x.

(** [while (h--) { offset = ((const int * )data)[skip_y++];
     if (offset >= 0) row; dp += span; }] *)
Fixpoint glyph_mask_rows (be : bool) (data : list Z) (h : nat) (m : mem)
    (span dp w skip_x skip_y : Z) : option mem :=
  match h with
  | O => Some m
  | S h' =>
      offset ← load_int be data skip_y;
      let skip_y := skip_y + 1 in
      m ← (if offset >=? 0 then glyph_mask_row data m offset dp w skip_x else Some m);
      glyph_mask_rows be data h' m span (dp + span) w skip_x skip_y
  end.

Definition fz_paint_glyph_mask (cfg : config) (span : Z) (m : mem) (dp da : Z)
    (glyph : fz_glyph) (w h skip_x skip_y : Z) : option mem :=
  if h <? 0 then None
  else glyph_mask_rows (isbigendian cfg) (glyph_data glyph) (Z.to_nat h) m span dp w
         skip_x skip_y.

(** ** Glyphs: painting in a color

    The painters [fz_paint_glyph_solid_*] and [fz_paint_glyph_alpha_*] are
    generated by the repeated inclusion of paint-glyph.h, which is not part of
    the file; they are parameters of the model. *)

Definition glyph_painter : Type :=
  list Z → Z → mem → Z → fz_glyph → Z → Z → Z → Z → option mem.

Definition glyph_painter_N : Type :=
  list Z → Z → Z → mem → Z → fz_glyph → Z → Z → Z → Z → option mem.

Record paint_glyph_h := PaintGlyphH {
  fz_paint_glyph_solid_1 : glyph_painter;
  fz_paint_glyph_alpha_1 : glyph_painter;
  fz_paint_glyph_solid_1_da : glyph_painter;
  fz_paint_glyph_alpha_1_da : glyph_painter;
  fz_paint_glyph_solid_3_da : glyph_painter;
  fz_paint_glyph_alpha_3_da : glyph_painter;
  fz_paint_glyph_solid_3 : glyph_painter;
  fz_paint_glyph_alpha_3 : glyph_painter;
  fz_paint_glyph_solid_4_da : glyph_painter;
  fz_paint_glyph_alpha_4_da : glyph_painter;
  fz_paint_glyph_alpha_4 : glyph_painter;
  fz_paint_glyph_solid_4 : glyph_painter;
  fz_paint_glyph_alpha_N : glyph_painter_N;
  fz_paint_glyph_solid_N_da : glyph_painter_N;
  fz_paint_glyph_alpha_N_da : glyph_painter_N;
  fz_paint_glyph_solid_N : glyph_painter_N
}.

Definition fz_paint_glyph_alpha (cfg : config) (P : paint_glyph_h) (colorbv : list Z)
    (n span : Z) (m : mem) (dp da : Z) (glyph : fz_glyph) (w h skip_x skip_y : Z)
  : option mem :=
  let default :=
    if FZ_PLOTTERS_N cfg then
      if truthy da
      then fz_paint_glyph_alpha_N_da P colorbv n span m dp glyph w h skip_x skip_y
      else fz_paint_glyph_alpha_N P colorbv n span m dp glyph w h skip_x skip_y
    else Some m in
  match n with
  | 1 =>
      if truthy da then
        if FZ_PLOTTERS_G cfg
        then fz_paint_glyph_alpha_1_da P colorbv span m dp glyph w h skip_x skip_y
        else default
      else fz_paint_glyph_alpha_1 P colorbv span m dp glyph w h skip_x skip_y
  | 3 =>
      if FZ_PLOTTERS_RGB cfg then
        if truthy da
        then fz_paint_glyph_alpha_3_da P colorbv span m dp glyph w h skip_x skip_y
        else fz_paint_glyph_alpha_3 P colorbv span m dp glyph w h skip_x skip_y
      else default
  | 4 =>
      if FZ_PLOTTERS_CMYK cfg then
        if truthy da
        then fz_paint_glyph_alpha_4_da P colorbv span m dp glyph w h skip_x skip_y
        else fz_paint_glyph_alpha_4 P colorbv span m dp glyph w h skip_x skip_y
      else default
  | _ => default
  end.

Definition fz_paint_glyph_solid (cfg : config) (P : paint_glyph_h) (colorbv : list Z)
    (n span : Z) (m : mem) (dp da : Z) (glyph : fz_glyph) (w h skip_x skip_y : Z)
  : option mem :=
  let default :=
    if FZ_PLOTTERS_N cfg then
      if truthy da
      then fz_paint_glyph_solid_N_da P colorbv n span m dp glyph w h skip_x skip_y
      else fz_paint_glyph_solid_N P colorbv n span m dp glyph w h skip_x skip_y
    else Some m in
  match n with
  | 1 =>
      if truthy da then
        if FZ_PLOTTERS_G cfg
        then fz_paint_glyph_solid_1_da P colorbv span m dp glyph w h skip_x skip_y
        else default
      else fz_paint_glyph_solid_1 P colorbv span m dp glyph w h skip_x skip_y
  | 3 =>
      if FZ_PLOTTERS_RGB cfg then
        if truthy da
        then fz_paint_glyph_solid_3_da P colorbv span m dp glyph w h skip_x skip_y
        else fz_paint_glyph_solid_3 P colorbv span m dp glyph w h skip_x skip_y
      else default
  | 4 =>
      if FZ_PLOTTERS_CMYK cfg then
        if truthy da
        then fz_paint_glyph_solid_4_da P colorbv span m dp glyph w h skip_x skip_y
        else fz_paint_glyph_solid_4 P colorbv span m dp glyph w h skip_x skip_y
      else default
  | _ => default
  end.

(** [dst] is the pixmap and [dp] the pointer into its samples at which the
    glyph is painted. *)
Definition fz_paint_glyph (cfg : config) (P : paint_glyph_h) (colorbv : list Z)
    (dst : fz_pixmap) (dp : Z) (glyph : fz_glyph) (w h skip_x skip_y : Z) : outcome :=
  let n := pix_n dst - pix_alpha dst in
  if pix_colorspace dst then
    c_assert cfg (n >? 0) (pix_samples dst)
      match load colorbv n with
      | None => Undefined
      | Some a =>
          if a =? 255 then
            of_option (fz_paint_glyph_solid cfg P colorbv n (pix_stride dst) (pix_samples dst)
                         dp (pix_alpha dst) glyph w h skip_x skip_y)
          else if negb (a =? 0) then
            of_option (fz_paint_glyph_alpha cfg P colorbv n (pix_stride dst) (pix_samples dst)
                         dp (pix_alpha dst) glyph w h skip_x skip_y)
          else Returned (pix_samples dst)
      end
  else
    c_assert cfg (truthy (pix_alpha dst) && (pix_n dst =? 1) && negb (pix_colorspace dst))
      (pix_samples dst)
      (of_option (fz_paint_glyph_mask cfg (pix_stride dst) (pix_samples dst) dp (pix_alpha dst)
                    glyph w h skip_x skip_y)).

(** ** Auxiliary definitions used in the statements *)


(** The byte at address [p] of [m] exists and is a byte. *)
Definition byte_at (m : mem) (p : Z) : Prop := ∃ d, load m p = Some d ∧ is_byte d.

(** [m'] holds what [m] holds at every address outside [lo, hi). *)
Definition same_outside (m m' : mem) (lo hi : Z) : Prop :=
  ∀ p, ¬ (lo ≤ p < hi) → load m' p = load m p.

(** The coverage left in the mask by an Intermediate run over an existing
    byte [v], for the payload byte [a], in the words of the specification:
    [a] itself on a first paint, [blend(0xFF, v, expand(a))] otherwise. *)
Definition spec_mask_coverage (v a : Z) : Z :=
  if v =? 0 then a else FZ_BLEND 255 v (FZ_EXPAND a).

(** The declared length of a Solid or Intermediate run of header [v]. *)
Definition run_length (v extend : Z) : Z := (v ≫ 3) + 1 + (extend ≪ 5).

(** [v] is the header of a Solid or Intermediate run. *)
Definition covering_header (v : Z) : Prop := Z.land v 3 = 2 ∨ Z.land v 3 = 3.

(** The first [k] bytes of the pixel at [dp] hold the color, the rest of the
    buffer is as in [m0]. *)
Definition colored (m0 m : mem) (dp : Z) (color : list Z) (k : Z) : Prop :=
  length m = length m0 ∧
  same_outside m0 m dp (dp + k) ∧
  ∀ j c, 0 ≤ j < k → load color j = Some c → load m (dp + j) = Some c.

(** Glyph painters that fault as soon as they are called. *)
Definition no_glyph_painters : paint_glyph_h :=
  let f : glyph_painter := λ _ _ _ _ _ _ _ _ _, None in
  let g : glyph_painter_N := λ _ _ _ _ _ _ _ _ _ _, None in
  PaintGlyphH f f f f f f f f f f f f g g g g.

(** The pixels [a] to [b - 1] of [n] bytes from [dp] on hold the color. *)
Definition pixels_colored (m : mem) (dp n : Z) (color : list Z) (a b : Z) : Prop :=
  ∀ i k c, a ≤ i < b → 0 ≤ k < n → load color k = Some c → load m (dp + i * n + k) = Some c.

(** The first [b] bytes from [dp] on hold the color, repeated every [n]
    bytes, the rest of the buffer is as in [m0]. *)
Definition filled (m0 m : mem) (dp : Z) (color : list Z) (n b : Z) : Prop :=
  length m = length m0 ∧
  same_outside m0 m dp (dp + b) ∧
  ∀ q c, 0 ≤ q < b → load color (q `mod` n) = Some c → load m (dp + q) = Some c.

(** The byte at [p], zero where there is none. *)
Definition byte_of (l : list Z) (p : Z) : Z := default 0 (load l p).

(** [m] is [m0] with the [w] pixels of [n] bytes from [dp] on repainted:
    channel [k] of pixel [i] holds [G i k d] where [m0] held [d]. *)
Definition painted (m0 m : mem) (dp n w : Z) (G : Z → Z → Z → Z) : Prop :=
  length m = length m0 ∧
  same_outside m0 m dp (dp + w * n) ∧
  ∀ i k d, 0 ≤ i < w → 0 ≤ k < n → load m0 (dp + i * n + k) = Some d →
           load m (dp + i * n + k) = Some (G i k d).

(** Every byte of [m] that is a byte is found in [m'] as a byte that is not
    smaller. *)
Definition covers_more (m m' : mem) : Prop :=
  length m' = length m ∧
  ∀ p v, load m p = Some v → is_byte v → ∃ v', load m' p = Some v' ∧ v ≤ v' ∧ is_byte v'.

(** * Properties *)

(** ** Worked examples *)

(** C3: the span-with-color painter selected for a 1-channel destination
    without alpha, on the row [50,50,50,50] with color 100 of alpha 255 and
    mask [0,128,255,0], leaves [50,75,100,50]; the second pixel is
    blend(100, 50, expand(128)) with expand(128) = 129. *)
Theorem C3_span_color_worked_example :
  ∀ cfg, ∃ fn,
    fz_get_span_color_painter cfg 1 0 [100; 255] = Some fn ∧
    fn [50; 50; 50; 50] 0 [0; 128; 255; 0] 0 1 4 [100; 255] 0 = Some [50; 75; 100; 50] ∧
    FZ_EXPAND 128 = 129 ∧
    FZ_BLEND 100 50 129 = 75 ∧
    50 + (((100 - 50) * 129) ≫ 8) = 75.
Proof.
  intros cfg. exists paint_span_with_color_1.
  split; [reflexivity|]. repeat split; vm_compute; reflexivity.
Qed.

(** C4: a row of width 6 decoded without skip from Transparent(2) (header 5)
    then Solid(3, eol) (header 22) into an all-zero row gives
    [0,0,255,255,255,0], whatever follows the two headers in the stream; the
    same through [fz_paint_glyph_mask] for a one-row glyph in either byte
    order. *)
Theorem C4_run_decode_example :
  (∀ rest, glyph_mask_row ([5; 22] ++ rest) [0; 0; 0; 0; 0; 0] 0 0 6 0
           = Some [0; 0; 255; 255; 255; 0]) ∧
  fz_paint_glyph_mask default_config 6 [0; 0; 0; 0; 0; 0] 0 1 (Glyph [4; 0; 0; 0; 5; 22]) 6 1 0 0
    = Some [0; 0; 255; 255; 255; 0] ∧
  fz_paint_glyph_mask (Config true true true true false true false) 6 [0; 0; 0; 0; 0; 0] 0 1
      (Glyph [0; 0; 0; 4; 5; 22]) 6 1 0 0
    = Some [0; 0; 255; 255; 255; 0].
Proof.
  split; [|split; vm_compute; reflexivity].
  intros rest. reflexivity.
Qed.

(** ** Defects of the solid color painters *)

(** C1: on a CMYK+alpha pixel and the opaque color (10,20,30,40,255) the
    specialised painter overwrites the pixel while the generic painter, called
    with n = 5, takes color[1] = 20 for the alpha and blends; with a color of
    alpha 128 the specialised painter moreover computes the new alpha from the
    byte after the pixel.  The RGB+alpha painter and the generic painter
    called with n = 4 differ in the same way as the first pair. *)
Theorem C1_solid_color_4_da_vs_N_da :
  paint_solid_color_4_da default_config [0; 0; 0; 0; 0] 0 5 1 [10; 20; 30; 40; 255] 1
    = Some [10; 20; 30; 40; 255] ∧
  paint_solid_color_N_da [0; 0; 0; 0; 0] 0 5 1 [10; 20; 30; 40; 255] 1
    = Some [0; 1; 2; 3; 19] ∧
  paint_solid_color_4_da default_config [0; 0; 0; 0; 0; 255] 0 5 1 [128; 128; 128; 128; 128] 1
    = Some [64; 64; 64; 64; 255; 255] ∧
  paint_solid_color_N_da [0; 0; 0; 0; 0; 255] 0 5 1 [128; 128; 128; 128; 128] 1
    = Some [64; 64; 64; 64; 128; 255] ∧
  paint_solid_color_3_da default_config [0; 0; 0; 0] 0 4 1 [10; 20; 30; 255] 1
    = Some [10; 20; 30; 255] ∧
  paint_solid_color_N_da [0; 0; 0; 0] 0 4 1 [10; 20; 30; 255] 1
    = Some [0; 1; 2; 19].
Proof. repeat split; vm_compute; reflexivity. Qed.

(** Called directly on a 1-channel source with alpha and a destination without,
    the specialised mask painter advances the source by one byte instead of
    two after a fully covered opaque pixel, and so differs from the generic
    painter from the next pixel on. *)
Example span_with_mask_1_sa_vs_N_sa :
  paint_span_with_mask_1_sa [0; 0] 0 0 [10; 255; 20; 255] 0 1 [255; 255] 0 1 2
    = Some [10; 255] ∧
  paint_span_with_mask_N_sa [0; 0] 0 0 [10; 255; 20; 255] 0 1 [255; 255] 0 1 2
    = Some [10; 20].
Proof. split; vm_compute; reflexivity. Qed.

(** C2: for a destination of two color channels and alpha the dispatcher
    returns the generic painter, which on the opaque color (10,20,255) does
    not overwrite the pixel [0,0,0] with [10,20,255] but blends it with weight
    expand(color[1]) = 20. *)
Theorem C2_solid_color_N_da_not_overwrite :
  ∃ fn,
    fz_get_solid_color_painter default_config 3 [10; 20; 255] 1 = Some fn ∧
    fn [0; 0; 0] 0 3 1 [10; 20; 255] 1 = Some [0; 1; 19].
Proof. exists paint_solid_color_N_da. split; vm_compute; reflexivity. Qed.

(** C8: the partial-alpha branch of the CMYK+alpha solid painter, painting the
    one pixel at bytes 0..4, reads byte 5: the alpha it writes changes with
    that byte, and the call faults when the buffer ends with the pixel. *)
Theorem C8_solid_color_4_da_reads_past_pixel :
  paint_solid_color_4_da default_config [0; 0; 0; 0; 0; 0] 0 5 1 [0; 0; 0; 0; 128] 1
    = Some [0; 0; 0; 0; 128; 0] ∧
  paint_solid_color_4_da default_config [0; 0; 0; 0; 0; 255] 0 5 1 [0; 0; 0; 0; 128] 1
    = Some [0; 0; 0; 0; 255; 255] ∧
  paint_solid_color_4_da default_config [0; 0; 0; 0; 0] 0 5 1 [0; 0; 0; 0; 128] 1 = None.
Proof. repeat split; vm_compute; reflexivity. Qed.

(** ** Preconditions of the pixmap entry points *)

(** C9: in a build with assertions ([NDEBUG] not defined), with mismatching
    color-channel counts [fz_paint_pixmap] stops at its assertion, the
    destination samples untouched; so does [fz_paint_pixmap_with_mask] when
    the channel counts of destination and source differ or the mask does not
    have exactly one channel. *)
Theorem C9_pixmap_shape_checks :
  (∀ cfg dst src alpha,
     NDEBUG cfg = false →
     pix_n dst - pix_alpha dst ≠ pix_n src - pix_alpha src →
     fz_paint_pixmap cfg dst src alpha = AssertionFailed (pix_samples dst)) ∧
  (∀ cfg dst src msk,
     NDEBUG cfg = false →
     pix_n dst ≠ pix_n src ∨ pix_n msk ≠ 1 →
     fz_paint_pixmap_with_mask cfg dst src msk = AssertionFailed (pix_samples dst)).
Proof.
  split.
  - intros cfg dst src alpha Hdebug Hne. unfold fz_paint_pixmap, c_assert. rewrite Hdebug.
    destruct (Z.eqb_spec (pix_n dst - pix_alpha dst) (pix_n src - pix_alpha src)); [lia|done].
  - intros cfg dst src msk Hdebug Hne. unfold fz_paint_pixmap_with_mask, c_assert.
    rewrite Hdebug.
    destruct (Z.eqb_spec (pix_n dst) (pix_n src)); [|done].
    destruct (Z.eqb_spec (pix_n msk) 1); [lia|done].
Qed.

Lemma C9_pixmap_shape_checks_witness :
  fz_paint_pixmap default_config
    (Pixmap 0 0 2 1 3 0 6 true [1; 2; 3; 4; 5; 6])
    (Pixmap 0 0 2 1 2 1 4 true [9; 255; 9; 255]) 255
    = AssertionFailed [1; 2; 3; 4; 5; 6] ∧
  fz_paint_pixmap_with_mask default_config
    (Pixmap 0 0 2 1 1 0 2 true [1; 2])
    (Pixmap 0 0 2 1 1 0 2 true [10; 20])
    (Pixmap 0 0 2 1 2 1 4 false [255; 255; 255; 255])
    = AssertionFailed [1; 2].
Proof.
  split.
  - apply (proj1 C9_pixmap_shape_checks); [reflexivity|simpl; lia].
  - apply (proj2 C9_pixmap_shape_checks); [reflexivity|right; simpl; lia].
Defined.

(** With [NDEBUG] defined nothing checks the shapes: on the same operands
    both entry points go on to paint, and return with the destination
    written. *)
Lemma C9_unchecked_without_assertions :
  let dst := Pixmap 0 0 2 1 3 0 6 true [1; 2; 3; 4; 5; 6] in
  let src := Pixmap 0 0 2 1 2 1 4 true [9; 255; 9; 255] in
  let dst' := Pixmap 0 0 2 1 1 0 2 true [1; 2] in
  let src' := Pixmap 0 0 2 1 1 0 2 true [10; 20] in
  let msk := Pixmap 0 0 2 1 2 1 4 false [255; 255; 255; 255] in
  pix_n dst - pix_alpha dst ≠ pix_n src - pix_alpha src ∧
  fz_paint_pixmap release_config dst src 255 = Returned [9; 9; 3; 4; 5; 6] ∧
  pix_n msk ≠ 1 ∧
  fz_paint_pixmap_with_mask release_config dst' src' msk = Returned [10; 20].
Proof. split_and!; [by vm_compute|reflexivity|by vm_compute|reflexivity]. Qed.

(** ** Glyphs painted in a color of alpha zero *)

(** C10: on a destination with a colorspace and at least one color channel,
    a color whose alpha byte [colorbv[n]] is 0 makes [fz_paint_glyph] return
    with the samples unchanged, whatever the solid and alpha painters are:
    neither is called. *)
Theorem C10_glyph_zero_alpha_no_write :
  ∀ cfg P colorbv dst dp glyph w h skip_x skip_y,
    pix_colorspace dst = true →
    0 < pix_n dst - pix_alpha dst →
    load colorbv (pix_n dst - pix_alpha dst) = Some 0 →
    fz_paint_glyph cfg P colorbv dst dp glyph w h skip_x skip_y = Returned (pix_samples dst).
Proof.
  intros cfg P colorbv dst dp glyph w h skip_x skip_y Hcs Hn Ha.
  unfold fz_paint_glyph, c_assert. rewrite Hcs, Ha.
  destruct (Z.gtb_spec (pix_n dst - pix_alpha dst) 0); [|lia].
  by rewrite andb_false_r.
Qed.

Lemma C10_glyph_zero_alpha_no_write_witness :
  fz_paint_glyph default_config no_glyph_painters [90; 0]
    (Pixmap 0 0 2 1 1 0 2 true [7; 8]) 0 (Glyph [4; 0; 0; 0; 14]) 2 1 0 0
  = Returned [7; 8].
Proof.
  apply C10_glyph_zero_alpha_no_write; [reflexivity | simpl; lia | reflexivity].
Defined.

(** ** Memory lemmas *)

Lemma load_bounds (m : mem) p d : load m p = Some d → 0 ≤ p < Z.of_nat (length m).
Proof.
  unfold load. destruct (Z.ltb_spec p 0) as [Hneg|Hpos]; [done|].
  intros Hl%lookup_lt_Some. lia.
Qed.

Lemma load_is_Some (m : mem) p : 0 ≤ p < Z.of_nat (length m) → is_Some (load m p).
Proof.
  intros Hp. unfold load. destruct (Z.ltb_spec p 0); [lia|].
  apply lookup_lt_is_Some. lia.
Qed.

Lemma store_Some (m : mem) p v :
  0 ≤ p < Z.of_nat (length m) → store m p v = Some (<[Z.to_nat p := v `mod` 256]> m).
Proof.
  intros Hp. unfold store.
  destruct (Z.leb_spec 0 p); [|lia].
  destruct (Z.ltb_spec p (Z.of_nat (length m))); [done|lia].
Qed.

Lemma store_inv (m m' : mem) p v :
  store m p v = Some m' →
  0 ≤ p < Z.of_nat (length m) ∧ m' = <[Z.to_nat p := v `mod` 256]> m.
Proof.
  unfold store.
  destruct (Z.leb_spec 0 p); [|done].
  destruct (Z.ltb_spec p (Z.of_nat (length m))); [|done].
  simpl. intros [= <-]. done.
Qed.

Lemma store_length (m m' : mem) p v : store m p v = Some m' → length m' = length m.
Proof. intros [_ ->]%store_inv. apply length_insert. Qed.

Lemma load_store (m m' : mem) p v q :
  store m p v = Some m' →
  load m' q = if decide (q = p) then Some (v `mod` 256) else load m q.
Proof.
  intros [Hp ->]%store_inv. unfold load.
  destruct (Z.ltb_spec q 0).
  - case_decide; [lia|done].
  - case_decide as Hq.
    + subst q. apply list_lookup_insert_eq. lia.
    + apply list_lookup_insert_ne. lia.
Qed.


(** ** Loop lemmas *)

Lemma do_while_inv_from {St : Type} (body : St → option St) (P : nat → St → Prop) :
  ∀ (w k : nat) (s : St),
    (0 < w)%nat →
    P k s →
    (∀ i s, (k ≤ i < k + w)%nat → P i s → ∃ s', body s = Some s' ∧ P (S i) s') →
    ∃ s', do_while body w s = Some s' ∧ P (k + w)%nat s'.
Proof.
  induction w as [|w IH]; intros k s Hw HP Hstep; [lia|].
  destruct (Hstep k s ltac:(lia) HP) as (s1 & Hb & HP1).
  simpl. rewrite Hb. simpl.
  destruct w as [|w].
  - exists s1. split; [done|]. by replace (k + 1)%nat with (S k) by lia.
  - destruct (IH (S k) s1 ltac:(lia) HP1) as (s2 & Hd & HP2).
    { intros i s' Hi. apply Hstep. lia. }
    exists s2. split; [done|]. by replace (k + S (S w))%nat with (S k + S w)%nat by lia.
Qed.

Lemma do_while_inv {St : Type} (body : St → option St) (P : nat → St → Prop) (w : nat) (s : St) :
  (0 < w)%nat →
  P 0%nat s →
  (∀ i s, (i < w)%nat → P i s → ∃ s', body s = Some s' ∧ P (S i) s') →
  ∃ s', do_while body w s = Some s' ∧ P w s'.
Proof.
  intros Hw HP Hstep.
  apply (do_while_inv_from body P w 0 s Hw HP).
  intros i s' Hi. apply Hstep. lia.
Qed.

(** A loop whose [i]-th round takes the state [f i] to [f (i + 1)]. *)
Lemma do_while_steps {St : Type} (body : St → option St) (f : nat → St) (w : nat) (s : St) :
  (0 < w)%nat →
  s = f 0%nat →
  (∀ i, (i < w)%nat → body (f i) = Some (f (S i))) →
  do_while body w s = Some (f w).
Proof.
  intros Hw Hs Hstep.
  destruct (do_while_inv body (λ i s, s = f i) w s Hw Hs) as (s' & Hd & ->); [|done].
  intros i ? Hi ->. eauto.
Qed.



(** ** Arithmetic of the primitives *)

Lemma FZ_EXPAND_range a : is_byte a → 0 ≤ FZ_EXPAND a ≤ 256.
Proof.
  unfold is_byte, FZ_EXPAND. intros Ha. rewrite Z.shiftr_div_pow2 by lia.
  change (2 ^ 7) with 128.
  assert (0 ≤ a `div` 128 ≤ 1); [|lia].
  split; [apply Z.div_pos; lia|].
  apply Z.lt_succ_r. apply Z.div_lt_upper_bound; lia.
Qed.

Lemma FZ_COMBINE_zero_r a : FZ_COMBINE a 0 = 0.
Proof. unfold FZ_COMBINE. by rewrite Z.mul_0_r. Qed.


Lemma FZ_COMBINE_256 a : FZ_COMBINE a 256 = a.
Proof.
  unfold FZ_COMBINE. rewrite Z.shiftr_div_pow2 by lia.
  change (2 ^ 8) with 256. apply Z.div_mul. lia.
Qed.

Lemma FZ_BLEND_zero s d : FZ_BLEND s d 0 = d.
Proof. unfold FZ_BLEND. rewrite FZ_COMBINE_zero_r. lia. Qed.

Lemma FZ_BLEND_255_range v e : is_byte v → 0 ≤ e ≤ 256 → v ≤ FZ_BLEND 255 v e ≤ 255.
Proof.
  unfold is_byte, FZ_BLEND, FZ_COMBINE. intros Hv He.
  rewrite Z.shiftr_div_pow2 by lia. change (2 ^ 8) with 256.
  assert (0 ≤ ((255 - v) * e) `div` 256 ≤ 255 - v); [|lia].
  split; [apply Z.div_pos; nia|].
  apply Z.lt_succ_r. apply Z.div_lt_upper_bound; nia.
Qed.

Lemma spec_mask_coverage_byte v a : is_byte v → is_byte a → is_byte (spec_mask_coverage v a).
Proof.
  intros Hv Ha. unfold spec_mask_coverage.
  destruct (Z.eqb_spec v 0); [done|].
  pose proof (FZ_BLEND_255_range v (FZ_EXPAND a) Hv (FZ_EXPAND_range a Ha)).
  unfold is_byte in *. lia.
Qed.

(** ** The runs of the glyph decoder *)

Lemma solid_run_spec (m : mem) ddp ww len :
  0 < len → 0 < ww →
  0 ≤ ddp → ddp + Z.min len ww ≤ Z.of_nat (length m) →
  ∃ m',
    solid_run m ddp ww len = Some (m', ddp + Z.min len ww, ww - Z.min len ww) ∧
    length m' = length m ∧
    same_outside m m' ddp (ddp + Z.min len ww) ∧
    (∀ p, ddp ≤ p < ddp + Z.min len ww → load m' p = Some 255).
Proof.
  intros Hlen Hww Hddp Hfit. unfold solid_run.
  replace (if len >? ww then ww else len) with (Z.min len ww)
    by (destruct (Z.gtb_spec len ww); lia).
  set (L := Z.min len ww) in *.
  lazymatch goal with |- context [do_while ?b _ _] => set (body := b) end.
  destruct (do_while_inv body
    (λ i '(m1, d1),
       d1 = ddp + Z.of_nat i ∧ length m1 = length m ∧
       same_outside m m1 ddp (ddp + Z.of_nat i) ∧
       (∀ p, ddp ≤ p < ddp + Z.of_nat i → load m1 p = Some 255))
    (Z.to_nat L) (m, ddp)) as ([m' d'] & Hrun & Hd & Hlen' & Hout & Hin).
  - lia.
  - split_and!; [lia|done|by intros p Hp|intros p Hp; lia].
  - intros i [m1 d1] Hi (-> & Hl1 & Hout & Hin).
    destruct (store m1 (ddp + Z.of_nat i) 255) as [m2|] eqn:Hst.
    2:{ rewrite store_Some in Hst by lia. done. }
    exists (m2, ddp + Z.of_nat i + 1). unfold body. rewrite Hst. split; [done|].
    split_and!.
    + lia.
    + by rewrite (store_length _ _ _ _ Hst).
    + intros p Hp. rewrite (load_store _ _ _ _ p Hst).
      case_decide; [lia|]. apply Hout. lia.
    + intros p Hp. rewrite (load_store _ _ _ _ p Hst).
      case_decide; [done|]. apply Hin. lia.
  - exists m'. rewrite Hrun. simpl.
    rewrite Z2Nat.id in * by lia. subst d'. done.
Qed.

Lemma intermediate_run_spec (data : list Z) (m : mem) runp ddp ww len :
  0 < len → 0 < ww →
  (∀ i, 0 ≤ i < Z.min len ww → is_Some (load m (ddp + i))) →
  (∀ i, 0 ≤ i < Z.min len ww → is_Some (load data (runp + i))) →
  ∃ m',
    intermediate_run data m runp ddp ww len
      = Some (m', runp + Z.min len ww, ddp + Z.min len ww, ww - Z.min len ww) ∧
    length m' = length m ∧
    same_outside m m' ddp (ddp + Z.min len ww) ∧
    (∀ i v a, 0 ≤ i < Z.min len ww →
       load m (ddp + i) = Some v → load data (runp + i) = Some a →
       load m' (ddp + i) = Some (spec_mask_coverage v a `mod` 256)).
Proof.
  intros Hlen Hww Hdst Hpay. unfold intermediate_run.
  replace (if len >? ww then ww else len) with (Z.min len ww)
    by (destruct (Z.gtb_spec len ww); lia).
  set (L := Z.min len ww) in *.
  lazymatch goal with |- context [do_while ?b _ _] => set (body := b) end.
  destruct (do_while_inv body
    (λ i '(m1, r1, d1),
       r1 = runp + Z.of_nat i ∧ d1 = ddp + Z.of_nat i ∧ length m1 = length m ∧
       same_outside m m1 ddp (ddp + Z.of_nat i) ∧
       (∀ j v a, 0 ≤ j < Z.of_nat i →
          load m (ddp + j) = Some v → load data (runp + j) = Some a →
          load m1 (ddp + j) = Some (spec_mask_coverage v a `mod` 256)))
    (Z.to_nat L) (m, runp, ddp)) as ([[m' r'] d'] & Hrun & Hr & Hd & Hlen' & Hout & Hin).
  - lia.
  - split_and!; [lia|lia|done|by intros p Hp|intros j v a Hj; lia].
  - intros i [[m1 r1] d1] Hi (-> & -> & Hl1 & Hout & Hin).
    destruct (Hdst (Z.of_nat i) ltac:(lia)) as [v Hv].
    destruct (Hpay (Z.of_nat i) ltac:(lia)) as [a Ha].
    assert (load m1 (ddp + Z.of_nat i) = Some v) as Hv1.
    { rewrite Hout by lia. done. }
    pose proof (load_bounds _ _ _ Hv) as Hb.
    assert (∃ m2, store m1 (ddp + Z.of_nat i) (spec_mask_coverage v a) = Some m2) as [m2 Hst].
    { rewrite store_Some by lia. eauto. }
    exists (m2, runp + Z.of_nat i + 1, ddp + Z.of_nat i + 1). split.
    { unfold body. simpl. rewrite Hv1. simpl. rewrite Ha. simpl.
      unfold spec_mask_coverage in Hst.
      destruct (v =? 0); rewrite Hst; done. }
    split_and!.
    + lia.
    + lia.
    + by rewrite (store_length _ _ _ _ Hst).
    + intros p Hp. rewrite (load_store _ _ _ _ p Hst).
      case_decide; [lia|]. apply Hout. lia.
    + intros j v' a' Hj Hv' Ha'. rewrite (load_store _ _ _ _ _ Hst).
      case_decide as Hji.
      * assert (j = Z.of_nat i) as -> by lia. congruence.
      * apply Hin; [lia|done|done].
  - exists m'. rewrite Hrun. simpl.
    rewrite Z2Nat.id in * by lia. subst r' d'. done.
Qed.

Lemma emit_loop_full (fuel : nat) (data : list Z) (m : mem) runp ddp extend eol :
  emit_loop fuel data m runp ddp 0 extend eol = Some m.
Proof. by destruct fuel. Qed.

Lemma run_length_pos v extend : 0 ≤ v → 0 ≤ extend → 0 < run_length v extend.
Proof.
  intros Hv He. unfold run_length.
  pose proof (proj2 (Z.shiftr_nonneg v 3) Hv).
  pose proof (proj2 (Z.shiftl_nonneg extend 5) He). lia.
Qed.

Lemma truthy_true x : x ≠ 0 → truthy x = true.
Proof. intros Hx. unfold truthy. by destruct (Z.eqb_spec x 0). Qed.

(** A Solid or Intermediate run entered with the end-of-line flag set: the
    emission stops after it. *)
Lemma covering_run_then_eol (fuel : nat) (data : list Z) (m : mem) v runp ddp ww len extend :
  covering_header v → Z.land v 4 ≠ 0 →
  0 < len → 0 < ww →
  0 ≤ ddp → ddp + Z.min len ww ≤ Z.of_nat (length m) →
  (Z.land v 3 = 3 → ∀ i, 0 ≤ i < Z.min len ww → is_Some (load data (runp + i))) →
  ∃ m',
    (if Z.land v 3 =? 2
     then '(m, ddp, ww) ← solid_run m ddp ww len;
          after_run fuel data m runp ddp ww extend (Z.land v 4)
     else '(m, runp, ddp, ww) ← intermediate_run data m runp ddp ww len;
          after_run fuel data m runp ddp ww extend (Z.land v 4)) = Some m' ∧
    same_outside m m' ddp (ddp + Z.min len ww).
Proof.
  intros [H2|H3] Heol Hlen Hww Hddp Hfit Hpay.
  - rewrite H2. simpl.
    destruct (solid_run_spec m ddp ww len) as (m' & Hrun & _ & Hout & _); [done..|].
    rewrite Hrun. exists m'. simpl. unfold after_run. by rewrite truthy_true.
  - rewrite H3. simpl.
    destruct (intermediate_run_spec data m runp ddp ww len) as (m' & Hrun & _ & Hout & _);
      [done|done| |by apply Hpay|].
    { intros i Hi. apply load_is_Some. lia. }
    rewrite Hrun. exists m'. simpl. unfold after_run. by rewrite truthy_true.
Qed.

(** ** The Intermediate run in mask mode *)

(** C5: an Intermediate run, entered from the emission loop or from the skip
    loop, emits min(len, ww) positions; at each of them the destination byte
    [v] becomes the payload byte [a] itself when [v] is 0 and
    blend(0xFF, v, expand(a)) otherwise.  The same holds of the [switch] of
    the emission loop on an Intermediate header. *)
Theorem C5_intermediate_run_coverage :
  ∀ (data : list Z) (m : mem) runp ddp ww len,
    0 < len → 0 < ww →
    (∀ i, 0 ≤ i < Z.min len ww → byte_at m (ddp + i)) →
    (∀ i, 0 ≤ i < Z.min len ww → byte_at data (runp + i)) →
    ∃ m',
      intermediate_run data m runp ddp ww len
        = Some (m', runp + Z.min len ww, ddp + Z.min len ww, ww - Z.min len ww) ∧
      (∀ v extend eol, Z.land v 3 = 3 → len = run_length v extend →
         emit_switch data m v runp ddp ww extend eol
           = Some (m', runp + Z.min len ww, ddp + Z.min len ww, ww - Z.min len ww, 0,
                   Z.land v 4)) ∧
      (∀ i v a, 0 ≤ i < Z.min len ww →
         load m (ddp + i) = Some v → load data (runp + i) = Some a →
         load m' (ddp + i)
           = Some (if v =? 0 then a else v + (((255 - v) * FZ_EXPAND a) ≫ 8))).
Proof.
  intros data m runp ddp ww len Hlen Hww Hdst Hpay.
  destruct (intermediate_run_spec data m runp ddp ww len) as (m' & Hrun & _ & _ & Hin);
    [done|done| | |].
  { intros i Hi. destruct (Hdst i Hi) as (d & -> & _). eauto. }
  { intros i Hi. destruct (Hpay i Hi) as (d & -> & _). eauto. }
  exists m'. split_and!; [done| |].
  - intros v extend eol H3 ->. unfold emit_switch. rewrite H3.
    unfold run_length in Hrun. rewrite Hrun. done.
  - intros i v a Hi Hv Ha. rewrite (Hin i v a Hi Hv Ha). f_equal.
    destruct (Hdst i Hi) as (v' & Hv' & Hbv).
    destruct (Hpay i Hi) as (a' & Ha' & Hba).
    assert (v' = v) as -> by congruence. assert (a' = a) as -> by congruence.
    rewrite Z.mod_small by (apply spec_mask_coverage_byte; done).
    done.
Qed.

Lemma C5_intermediate_run_coverage_witness :
  ∃ m',
    intermediate_run [19; 10; 20; 30] [0; 100; 255; 7] 1 0 4 3 = Some (m', 4, 3, 1) ∧
    (∀ v extend eol, Z.land v 3 = 3 → 3 = run_length v extend →
       emit_switch [19; 10; 20; 30] [0; 100; 255; 7] v 1 0 4 extend eol
         = Some (m', 4, 3, 1, 0, Z.land v 4)) ∧
    (∀ i v a, 0 ≤ i < 3 →
       load [0; 100; 255; 7] (0 + i) = Some v → load [19; 10; 20; 30] (1 + i) = Some a →
       load m' (0 + i) = Some (if v =? 0 then a else v + (((255 - v) * FZ_EXPAND a) ≫ 8))).
Proof.
  apply (C5_intermediate_run_coverage [19; 10; 20; 30] [0; 100; 255; 7] 1 0 4 3);
    [lia|lia| |].
  - intros i Hi. change (Z.min 3 4) with 3 in Hi.
    assert (i = 0 ∨ i = 1 ∨ i = 2) as [-> | [-> | ->]] by lia;
      eexists; (split; [reflexivity|unfold is_byte; lia]).
  - intros i Hi. change (Z.min 3 4) with 3 in Hi.
    assert (i = 0 ∨ i = 1 ∨ i = 2) as [-> | [-> | ->]] by lia;
      eexists; (split; [reflexivity|unfold is_byte; lia]).
Defined.

(** ** End of line in the glyph decoder *)

(** C6: (a) when the emission loop meets a Solid or Intermediate header with
    the end-of-line flag, in any state of the row and whatever follows in the
    stream, the row ends with that run: every byte outside the
    min(declared length, remaining width) columns of the run is as before;
    the same when the skip loop enters such a run part-way.  (b) When the
    skip loop consumes such a run entirely the row ends with the destination
    untouched. *)
Theorem C6_end_of_line_stops_row :
  (∀ (fuel : nat) (data : list Z) (m : mem) runp ddp ww extend eol v,
     0 < ww → 0 ≤ extend →
     load data runp = Some v → 0 ≤ v →
     covering_header v → Z.land v 4 ≠ 0 →
     0 ≤ ddp → ddp + Z.min (run_length v extend) ww ≤ Z.of_nat (length m) →
     (Z.land v 3 = 3 →
      ∀ i, 0 ≤ i < Z.min (run_length v extend) ww → is_Some (load data (runp + 1 + i))) →
     ∃ m',
       emit_loop (S fuel) data m runp ddp ww extend eol = Some m' ∧
       same_outside m m' ddp (ddp + Z.min (run_length v extend) ww)) ∧
  (∀ (fuel : nat) (data : list Z) (m : mem) runp ddp ww extend eol skip_xx v,
     0 < ww → 0 ≤ extend → 0 < skip_xx →
     load data runp = Some v → 0 ≤ v →
     covering_header v → Z.land v 4 ≠ 0 →
     skip_xx < run_length v extend →
     0 ≤ ddp → ddp + Z.min (run_length v extend - skip_xx) ww ≤ Z.of_nat (length m) →
     (Z.land v 3 = 3 →
      ∀ i, 0 ≤ i < Z.min (run_length v extend - skip_xx) ww →
           is_Some (load data (runp + 1 + skip_xx + i))) →
     ∃ m',
       skip_loop (S fuel) data m runp ddp ww extend eol skip_xx = Some m' ∧
       same_outside m m' ddp (ddp + Z.min (run_length v extend - skip_xx) ww)) ∧
  (∀ (fuel : nat) (data : list Z) (m : mem) runp ddp ww extend eol skip_xx v,
     skip_xx ≠ 0 →
     load data runp = Some v →
     covering_header v → Z.land v 4 ≠ 0 →
     run_length v extend ≤ skip_xx →
     skip_loop (S fuel) data m runp ddp ww extend eol skip_xx = Some m).
Proof.
  split_and!.
  - intros fuel data m runp ddp ww extend eol v Hww Hext Hv Hv0 Hcov Heol Hddp Hfit Hpay.
    pose proof (run_length_pos v extend Hv0 Hext) as Hlen.
    destruct (covering_run_then_eol fuel data m v (runp + 1) ddp ww (run_length v extend) 0)
      as (m' & Hrun & Hout); [done..| |].
    { intros H3 i Hi. by apply Hpay. }
    exists m'. split; [|done].
    rewrite <- Hrun. simpl.
    destruct (Z.gtb_spec ww 0); [|lia].
    rewrite Hv. simpl. unfold emit_switch, after_run, run_length.
    destruct Hcov as [H2|H3].
    + rewrite H2. simpl.
      destruct (solid_run _ _ _ _) as [[[m1 d1] w1]|]; [|done]. simpl.
      rewrite truthy_true by done. done.
    + rewrite H3. simpl.
      destruct (intermediate_run _ _ _ _ _ _) as [[[[m1 r1] d1] w1]|]; [|done]. simpl.
      rewrite truthy_true by done. done.
  - intros fuel data m runp ddp ww extend eol skip_xx v
      Hww Hext Hskip Hv Hv0 Hcov Heol Hpart Hddp Hfit Hpay.
    destruct (covering_run_then_eol fuel data m v (runp + 1 + skip_xx) ddp ww
                (run_length v extend - skip_xx) 0)
      as (m' & Hrun & Hout); [done|done|lia|done..|].
    exists m'. split; [|done].
    rewrite <- Hrun. simpl.
    destruct (Z.eqb_spec skip_xx 0); [lia|].
    rewrite Hv. simpl. unfold skip_switch. fold (run_length v extend).
    destruct (Z.gtb_spec (run_length v extend) skip_xx); [|lia].
    destruct Hcov as [H2|H3]; [rewrite H2|rewrite H3]; simpl; [|done].
    destruct (solid_run _ _ _ _) as [[[m1 d1] w1]|]; [|done]. simpl.
    unfold after_run. by rewrite truthy_true.
  - intros fuel data m runp ddp ww extend eol skip_xx v Hskip Hv Hcov Heol Hfull.
    simpl.
    destruct (Z.eqb_spec skip_xx 0); [lia|].
    rewrite Hv. simpl. unfold skip_switch. fold (run_length v extend).
    destruct (Z.gtb_spec (run_length v extend) skip_xx); [lia|].
    destruct Hcov as [H2|H3]; [rewrite H2|rewrite H3];
      rewrite truthy_true by done; apply emit_loop_full.
Qed.

Lemma C6_end_of_line_stops_row_witness :
  (∃ m',
     emit_loop 1 [22; 19] [9; 9; 9; 9; 9] 0 1 4 0 0 = Some m' ∧
     same_outside [9; 9; 9; 9; 9] m' 1 (1 + Z.min (run_length 22 0) 4)) ∧
  (∃ m',
     skip_loop 1 [31; 10; 20; 30; 40] [9; 9; 9; 9; 9] 0 1 4 0 0 1 = Some m' ∧
     same_outside [9; 9; 9; 9; 9] m' 1 (1 + Z.min (run_length 31 0 - 1) 4)) ∧
  skip_loop 1 [22; 19] [9; 9; 9; 9; 9] 0 1 4 0 0 3 = Some [9; 9; 9; 9; 9].
Proof.
  split_and!.
  - apply (proj1 C6_end_of_line_stops_row 0%nat [22; 19] [9; 9; 9; 9; 9] 0 1 4 0 0 22);
      try (by vm_compute); try (by left); try (simpl; lia).
  - apply (proj1 (proj2 C6_end_of_line_stops_row)
             0%nat [31; 10; 20; 30; 40] [9; 9; 9; 9; 9] 0 1 4 0 0 1 31);
      try (by vm_compute); try (by right); try (simpl; lia).
    intros _ i Hi. change (Z.min (run_length 31 0 - 1) 4) with 3 in Hi.
    apply load_is_Some. simpl. lia.
  - apply (proj2 (proj2 C6_end_of_line_stops_row) 0%nat [22; 19] [9; 9; 9; 9; 9] 0 1 4 0 0 3 22);
      try (by vm_compute); try (by left); try (simpl; lia).
Defined.

(** ** Painting with weight zero *)

(** Closes the goals that equate two loop states up to pointer arithmetic. *)
Ltac state_eq :=
  repeat match goal with
         | |- Some _ = Some _ => f_equal
         | |- (_, _) = (_, _) => f_equal
         end;
  try done; try lia.


(** The [switch]es of the dispatchers outside their explicit cases. *)
Lemma switch_default {A : Type} (n : Z) (a b c d e : A) :
  n ≠ 0 → n ≠ 1 → n ≠ 3 → n ≠ 4 →
  match n with 0 => a | 1 => b | 3 => c | 4 => d | _ => e end = e.
Proof.
  intros.
  destruct n as [|p|p]; [done| |done].
  destruct p as [p|p|]; [|destruct p as [p|p|]; [done| |done]; by destruct p|done].
  destruct p as [p|p|]; done.
Qed.

(** *** Span painters with a mask: every mask byte is zero *)

Lemma template_span_with_mask_1_general_zero (m : mem) dp da (src : list Z) sp sa
    (msk : list Z) mp w :
  1 ≤ w →
  (∀ i, 0 ≤ i < w → load msk (mp + i) = Some 0) →
  template_span_with_mask_1_general m dp da src sp sa msk mp w = Some m.
Proof.
  intros Hw Hm. unfold template_span_with_mask_1_general.
  erewrite (do_while_steps _
    (λ i, (m, dp + Z.of_nat i * (1 + da), sp + Z.of_nat i * (1 + sa), mp + Z.of_nat i)));
    [done|lia|state_eq|].
  intros i Hi. cbv beta iota. rewrite Hm by lia. simpl. state_eq.
Qed.

Lemma template_span_with_mask_3_general_zero cfg (m : mem) dp da (src : list Z) sp sa
    (msk : list Z) mp w :
  1 ≤ w →
  (∀ i, 0 ≤ i < w → load msk (mp + i) = Some 0) →
  template_span_with_mask_3_general cfg m dp da src sp sa msk mp w = Some m.
Proof.
  intros Hw Hm. unfold template_span_with_mask_3_general.
  erewrite (do_while_steps _
    (λ i, (m, dp + Z.of_nat i * (3 + da), sp + Z.of_nat i * (3 + sa), mp + Z.of_nat i)));
    [done|lia|state_eq|].
  intros i Hi. cbv beta iota. rewrite Hm by lia. simpl. state_eq.
Qed.

Lemma template_span_with_mask_4_general_zero (m : mem) dp da (src : list Z) sp sa
    (msk : list Z) mp w :
  1 ≤ w →
  (∀ i, 0 ≤ i < w → load msk (mp + i) = Some 0) →
  template_span_with_mask_4_general m dp da src sp sa msk mp w = Some m.
Proof.
  intros Hw Hm. unfold template_span_with_mask_4_general.
  erewrite (do_while_steps _
    (λ i, (m, dp + Z.of_nat i * (4 + da), sp + Z.of_nat i * (4 + sa), mp + Z.of_nat i)));
    [done|lia|state_eq|].
  intros i Hi. cbv beta iota. rewrite Hm by lia. simpl. state_eq.
Qed.

Lemma template_span_with_mask_N_general_zero (m : mem) dp da (src : list Z) sp sa
    (msk : list Z) mp n w :
  1 ≤ w →
  (∀ i, 0 ≤ i < w → load msk (mp + i) = Some 0) →
  template_span_with_mask_N_general m dp da src sp sa msk mp n w = Some m.
Proof.
  intros Hw Hm. unfold template_span_with_mask_N_general.
  erewrite (do_while_steps _
    (λ i, (m, dp + Z.of_nat i * (n + da), sp + Z.of_nat i * (n + sa), mp + Z.of_nat i)));
    [done|lia|state_eq|].
  intros i Hi. cbv beta iota. rewrite Hm by lia. simpl. state_eq.
Qed.

Lemma span_mask_painter_zero cfg da sa n fn (m : mem) dp (src : list Z) sp (msk : list Z) mp w :
  fz_get_span_mask_painter cfg da sa n = Some fn →
  1 ≤ w →
  (∀ i, 0 ≤ i < w → load msk (mp + i) = Some 0) →
  fn m dp da src sp sa msk mp n w = Some m.
Proof.
  intros Hfn Hw Hm. unfold fz_get_span_mask_painter, by_alpha in Hfn.
  assert (n = 0 ∨ n = 1 ∨ n = 3 ∨ n = 4 ∨ (n ≠ 0 ∧ n ≠ 1 ∧ n ≠ 3 ∧ n ≠ 4))
    as [-> | [-> | [-> | [-> | (? & ? & ? & ?)]]]] by lia;
    [| | | |rewrite switch_default in Hfn by done];
    repeat match type of Hfn with
           | context [if ?c then _ else _] => destruct c
           end;
    simplify_eq;
    first [ by apply template_span_with_mask_1_general_zero
          | by apply template_span_with_mask_3_general_zero
          | by apply template_span_with_mask_4_general_zero
          | by apply template_span_with_mask_N_general_zero ].
Qed.

(** *** Span painters with a mask: every source pixel is zero

    With a source alpha of 0 the weight left to the destination is 256 and
    the weighted source is added to it: the destination keeps its bytes when
    the color bytes of the source are 0 as well, as they are in a
    premultiplied source. *)











(** *** Span painters with a solid color: every combined weight is zero *)








(** *** Span painters: every effective weight is zero *)

Lemma FZ_EXPAND_zero_inv a : FZ_EXPAND a = 0 → a = 0.
Proof.
  unfold FZ_EXPAND. rewrite Z.shiftr_div_pow2 by lia. change (2 ^ 7) with 128.
  intros Ha. destruct (Z.lt_trichotomy a 0) as [Hneg | [-> | Hpos]]; [|done|].
  - assert (a `div` 128 < 0) by (apply Z.div_lt_upper_bound; lia). lia.
  - assert (0 ≤ a `div` 128) by (apply Z.div_pos; lia). lia.
Qed.

Lemma FZ_EXPAND_ge a : 0 ≤ a → a ≤ FZ_EXPAND a.
Proof.
  intros Ha. unfold FZ_EXPAND.
  pose proof (proj2 (Z.shiftr_nonneg a 7) Ha). lia.
Qed.





















(** ** The overwrite branch of the generic solid color template *)

Lemma for_loop_inv {St : Type} (body : Z → St → option St) (P : nat → St → Prop)
    (lo hi : Z) (s : St) :
  P 0%nat s →
  (∀ (i : nat) s, lo + Z.of_nat i < hi → P i s →
     ∃ s', body (lo + Z.of_nat i) s = Some s' ∧ P (S i) s') →
  ∃ s', for_loop lo hi body s = Some s' ∧ P (Z.to_nat (hi - lo)) s'.
Proof.
  intros HP Hstep. unfold for_loop.
  assert (∀ (fuel k : nat) s,
            Z.of_nat (k + fuel) ≤ Z.max 0 (hi - lo) → P k s →
            ∃ s', for_loop_aux body fuel (lo + Z.of_nat k) s = Some s' ∧
                  P (k + fuel)%nat s') as Haux.
  { induction fuel as [|fuel IH]; intros k s1 Hk HP1; simpl.
    - exists s1. by replace (k + 0)%nat with k by lia.
    - destruct (Hstep k s1 ltac:(lia) HP1) as (s2 & Hb & HP2).
      rewrite Hb. simpl.
      destruct (IH (S k) s2 ltac:(lia) HP2) as (s3 & Hl & HP3).
      exists s3. replace (lo + Z.of_nat k + 1) with (lo + Z.of_nat (S k)) by lia.
      split; [done|]. by replace (k + S fuel)%nat with (S k + fuel)%nat by lia. }
  destruct (Haux (Z.to_nat (hi - lo)) 0%nat s ltac:(lia) HP) as (s' & Hl & HP').
  exists s'. replace (lo + Z.of_nat 0) with lo in Hl by lia. done.
Qed.

Lemma copy_color_colored (m0 m : mem) dp (color : list Z) k :
  colored m0 m dp color k →
  byte_at color k →
  0 ≤ k → 0 ≤ dp → dp + k < Z.of_nat (length m0) →
  ∃ m', copy_color color dp k m = Some m' ∧ colored m0 m' dp color (k + 1).
Proof.
  intros (Hlen & Hout & Hin) (c & Hc & Hbc) Hk Hdp Hfit. unfold copy_color.
  rewrite Hc. simpl.
  destruct (store m (dp + k) c) as [m'|] eqn:Hst.
  2:{ rewrite store_Some in Hst by lia. done. }
  exists m'. split; [done|]. split_and!.
  - by rewrite (store_length _ _ _ _ Hst).
  - intros p Hp. rewrite (load_store _ _ _ _ p Hst).
    case_decide; [lia|]. apply Hout. lia.
  - intros j c' Hj Hc'. rewrite (load_store _ _ _ _ _ Hst).
    case_decide as Hjk.
    + assert (j = k) as -> by lia. rewrite Z.mod_small by done. congruence.
    + apply Hin; [lia|done].
Qed.

Lemma solid_pixel_256_colored (m : mem) dp n1 (color : list Z) :
  1 ≤ n1 →
  (∀ k, 0 ≤ k < n1 → byte_at color k) →
  0 ≤ dp → dp + n1 < Z.of_nat (length m) →
  ∃ m',
    solid_pixel_256 m dp n1 color 1 = Some m' ∧
    length m' = length m ∧
    (∀ j c, 0 ≤ j < n1 → load color j = Some c → load m' (dp + j) = Some c) ∧
    load m' (dp + n1) = Some 255 ∧
    (∀ p, ¬ (dp ≤ p < dp + n1 + 1) → load m' p = load m p).
Proof.
  intros Hn1 Hcol Hdp Hfit. unfold solid_pixel_256.
  assert (colored m m dp color 0) as H0.
  { split_and!; [done|by intros p Hp|intros j c Hj; lia]. }
  destruct (copy_color_colored m m dp color 0 H0) as (m1 & -> & H1);
    [apply Hcol; lia|lia..|]. simpl.
  assert (∃ m2, (if n1 >? 1 then copy_color color dp 1 m1 else Some m1) = Some m2 ∧
                colored m m2 dp color (Z.min 2 n1)) as (m2 & -> & H2).
  { destruct (Z.gtb_spec n1 1).
    - destruct (copy_color_colored m m1 dp color 1 H1) as (m2 & Hc & H2);
        [apply Hcol; lia|lia..|].
      exists m2. by rewrite Z.min_l by lia.
    - exists m1. by rewrite Z.min_r by lia; replace n1 with (0 + 1) by lia. }
  simpl.
  assert (∃ m3, (if n1 >? 2 then copy_color color dp 2 m2 else Some m2) = Some m3 ∧
                colored m m3 dp color (Z.min 3 n1)) as (m3 & -> & H3).
  { destruct (Z.gtb_spec n1 2).
    - rewrite Z.min_l in H2 by lia.
      destruct (copy_color_colored m m2 dp color 2 H2) as (m3 & Hc & H3);
        [apply Hcol; lia|lia..|].
      exists m3. by rewrite Z.min_l by lia.
    - exists m2. by replace (Z.min 3 n1) with (Z.min 2 n1) by lia. }
  simpl.
  destruct (for_loop_inv (copy_color color dp)
              (λ i m', colored m m' dp color (Z.min 3 n1 + Z.of_nat i)) 3 n1 m3)
    as (m4 & -> & H4).
  { by rewrite Z.add_0_r. }
  { intros i m' Hi Hm'. rewrite Z.min_l in Hm' by lia.
    destruct (copy_color_colored m m' dp color (3 + Z.of_nat i) Hm') as (m'' & Hc & Hm'');
      [apply Hcol; lia|lia..|].
    exists m''. split; [done|]. rewrite Z.min_l by lia.
    by replace (3 + Z.of_nat (S i)) with (3 + Z.of_nat i + 1) by lia. }
  simpl.
  replace (Z.min 3 n1 + Z.of_nat (Z.to_nat (n1 - 3))) with n1 in H4 by lia.
  destruct H4 as (Hlen & Hout & Hin).
  destruct (store m4 (dp + n1) 255) as [m5|] eqn:Hst.
  2:{ rewrite store_Some in Hst by lia. done. }
  exists m5. split_and!; [done| | | |].
  - by rewrite (store_length _ _ _ _ Hst).
  - intros j c Hj Hc. rewrite (load_store _ _ _ _ _ Hst).
    case_decide; [lia|]. by apply Hin.
  - rewrite (load_store _ _ _ _ _ Hst). by case_decide.
  - intros p Hp. rewrite (load_store _ _ _ _ p Hst).
    case_decide; [lia|]. apply Hout. lia.
Qed.

(** X7: given the expansion 256 of an alpha byte 255, the generic template does
    overwrite every pixel with the color and the alpha 255: the generic
    painter with destination alpha misses this only by the byte it expands. *)
Lemma template_solid_color_N_general_opaque (m : mem) dp n w (color : list Z) :
  1 ≤ w → 2 ≤ n →
  (∀ k, 0 ≤ k < n - 1 → byte_at color k) →
  0 ≤ dp → dp + w * n ≤ Z.of_nat (length m) →
  ∃ m',
    template_solid_color_N_general m dp n w color 1 256 = Some m' ∧
    ∀ i, 0 ≤ i < w →
      (∀ k c, 0 ≤ k < n - 1 → load color k = Some c → load m' (dp + i * n + k) = Some c) ∧
      load m' (dp + i * n + (n - 1)) = Some 255.
Proof.
  intros Hw Hn Hcol Hdp Hfit. unfold template_solid_color_N_general. simpl.
  lazymatch goal with |- context [do_while ?b _ _] => set (body := b) end.
  destruct (do_while_inv body
    (λ i '(m1, d1),
       d1 = dp + Z.of_nat i * n ∧ length m1 = length m ∧
       ∀ j, 0 ≤ j < Z.of_nat i →
         (∀ k c, 0 ≤ k < n - 1 → load color k = Some c →
                 load m1 (dp + j * n + k) = Some c) ∧
         load m1 (dp + j * n + (n - 1)) = Some 255)
    (Z.to_nat w) (m, dp)) as ([m' d'] & Hrun & _ & _ & Hall).
  - lia.
  - split_and!; [lia|done|intros j Hj; lia].
  - intros i [m1 d1] Hi (-> & Hlen & Hdone).
    destruct (solid_pixel_256_colored m1 (dp + Z.of_nat i * n) (n - 1) color)
      as (m2 & Hpix & Hlen2 & Hin & Halpha & Hout); [lia|done|nia|nia|].
    exists (m2, dp + Z.of_nat i * n + n). unfold body. rewrite Hpix. simpl.
    split; [done|]. split_and!; [lia|congruence|].
    intros j Hj. destruct (decide (j = Z.of_nat i)) as [-> | Hne].
    + split; [|done]. intros k c Hk Hc. by apply Hin.
    + destruct (Hdone j ltac:(lia)) as [Hcolors Ha].
      split.
      * intros k c Hk Hc. rewrite Hout by nia. by apply Hcolors.
      * rewrite Hout by nia. done.
  - exists m'. rewrite Hrun. simpl. split; [done|].
    intros i Hi. apply Hall. lia.
Qed.

(** * Further properties *)

(** ** What the dispatchers support *)

(** Case analysis on the tests of a dispatcher, keeping what each test says. *)
Ltac dispatch_cases :=
  unfold by_alpha, by_plane_alpha, truthy;
  repeat (match goal with
          | |- context [?a =? ?b] => destruct (Z.eqb_spec a b)
          | |- context [?a >? ?b] => destruct (Z.gtb_spec a b)
          | |- context [bool_decide ?P] => destruct (bool_decide P)
          | |- context [if ?c then _ else _] => destruct c
          end; simpl).

Ltac iff_cases :=
  split; [intros ?; first [done | lia] | intros ?; first [done | exfalso; lia]].

Ltac switch_cases n :=
  let H := fresh in
  assert (n = 0 ∨ n = 1 ∨ n = 3 ∨ n = 4 ∨ (n ≠ 0 ∧ n ≠ 1 ∧ n ≠ 3 ∧ n ≠ 4)) as H by lia;
  destruct H as [-> | [-> | [-> | [-> | (? & ? & ? & ?)]]]];
  [| | | |rewrite switch_default by done].

(** X1: with the generic plotters compiled in, a solid color painter exists for
    every shape; the only span shape without a color or mask painter is the
    one with neither color channels nor destination alpha; and a span painter
    is missing exactly when the plane alpha is not positive. *)
Theorem dispatchers_with_generic_plotters cfg :
  FZ_PLOTTERS_N cfg = true →
  (∀ n color da, is_Some (fz_get_solid_color_painter cfg n color da)) ∧
  (∀ n da color, fz_get_span_color_painter cfg n da color = None ↔ n = 0 ∧ da = 0) ∧
  (∀ da sa n, fz_get_span_mask_painter cfg da sa n = None ↔ n = 0 ∧ da = 0) ∧
  (∀ da sa n alpha, fz_get_span_painter cfg da sa n alpha = None ↔ alpha ≤ 0).
Proof.
  intros HN. split_and!.
  - intros n color da. unfold fz_get_solid_color_painter. rewrite HN.
    destruct (n - da) as [|[[[]|[]|]|[[]|[]|]|]|]; dispatch_cases; eauto.
  - intros n da color. unfold fz_get_span_color_painter. rewrite HN.
    remember (n - da) as k eqn:Hk.
    switch_cases k; dispatch_cases; iff_cases.
  - intros da sa n. unfold fz_get_span_mask_painter. rewrite HN.
    switch_cases n; dispatch_cases; iff_cases.
  - intros da sa n alpha. unfold fz_get_span_painter. rewrite HN.
    switch_cases n; dispatch_cases; iff_cases.
Qed.

Lemma dispatchers_with_generic_plotters_witness :
  (∀ n color da, is_Some (fz_get_solid_color_painter default_config n color da)) ∧
  (∀ n da color, fz_get_span_color_painter default_config n da color = None ↔ n = 0 ∧ da = 0) ∧
  (∀ da sa n, fz_get_span_mask_painter default_config da sa n = None ↔ n = 0 ∧ da = 0) ∧
  (∀ da sa n alpha, fz_get_span_painter default_config da sa n alpha = None ↔ alpha ≤ 0).
Proof. apply dispatchers_with_generic_plotters. reflexivity. Defined.

(** X2: without the generic plotters, a count of color channels other than
    0, 1, 3 and 4 has no painter of any kind: every dispatcher returns NULL. *)
Theorem dispatchers_without_generic_plotters cfg n :
  FZ_PLOTTERS_N cfg = false →
  n ≠ 0 → n ≠ 1 → n ≠ 3 → n ≠ 4 →
  (∀ color da, fz_get_solid_color_painter cfg (n + da) color da = None) ∧
  (∀ color da, fz_get_span_color_painter cfg (n + da) da color = None) ∧
  (∀ da sa, fz_get_span_mask_painter cfg da sa n = None) ∧
  (∀ da sa alpha, fz_get_span_painter cfg da sa n alpha = None).
Proof.
  intros HN H0 H1 H3 H4. split_and!.
  - intros color da. unfold fz_get_solid_color_painter. rewrite HN.
    replace (n + da - da) with n by lia.
    destruct n as [|[[[]|[]|]|[[]|[]|]|]|]; try done; dispatch_cases; done.
  - intros color da. unfold fz_get_span_color_painter. rewrite HN.
    replace (n + da - da) with n by lia. by rewrite switch_default.
  - intros da sa. unfold fz_get_span_mask_painter. rewrite HN. by rewrite switch_default.
  - intros da sa alpha. unfold fz_get_span_painter. rewrite HN. by rewrite switch_default.
Qed.

Lemma dispatchers_without_generic_plotters_witness :
  (∀ color da,
     fz_get_solid_color_painter (Config true true true false false false false) (2 + da) color da
     = None) ∧
  (∀ color da,
     fz_get_span_color_painter (Config true true true false false false false) (2 + da) da color
     = None) ∧
  (∀ da sa, fz_get_span_mask_painter (Config true true true false false false false) da sa 2 = None) ∧
  (∀ da sa alpha,
     fz_get_span_painter (Config true true true false false false false) da sa 2 alpha = None).
Proof. apply dispatchers_without_generic_plotters; first [reflexivity | lia]. Defined.

(** ** The runs of the glyph decoder, continued *)

(** X3: a Transparent run writes nothing and moves on by its length, cut to the
    remaining width.  A Solid run writes 0xFF over as many columns and nothing
    else, and hands its end-of-line flag to the loop. *)
Theorem solid_and_transparent_runs :
  (∀ (data : list Z) (m : mem) v runp ddp ww extend eol,
     Z.land v 3 = 1 →
     emit_switch data m v runp ddp ww extend eol
       = Some (m, runp, ddp + Z.min ((v ≫ 2) + 1 + (extend ≪ 6)) ww,
               ww - Z.min ((v ≫ 2) + 1 + (extend ≪ 6)) ww, 0, eol)) ∧
  (∀ (data : list Z) (m : mem) v runp ddp ww extend eol,
     Z.land v 3 = 2 →
     0 ≤ v → 0 ≤ extend → 0 < ww →
     0 ≤ ddp → ddp + Z.min (run_length v extend) ww ≤ Z.of_nat (length m) →
     ∃ m',
       emit_switch data m v runp ddp ww extend eol
         = Some (m', runp, ddp + Z.min (run_length v extend) ww,
                 ww - Z.min (run_length v extend) ww, 0, Z.land v 4) ∧
       length m' = length m ∧
       (∀ p, ddp ≤ p < ddp + Z.min (run_length v extend) ww → load m' p = Some 255) ∧
       same_outside m m' ddp (ddp + Z.min (run_length v extend) ww)).
Proof.
  split.
  - intros data m v runp ddp ww extend eol H1. unfold emit_switch, transparent_run.
    rewrite H1.
    destruct (Z.gtb_spec ((v ≫ 2) + 1 + (extend ≪ 6)) ww).
    + by rewrite Z.min_r by lia.
    + by rewrite Z.min_l by lia.
  - intros data m v runp ddp ww extend eol H2 Hv Hext Hww Hddp Hfit.
    destruct (solid_run_spec m ddp ww (run_length v extend))
      as (m' & Hrun & Hlen & Hout & Hin); [by apply run_length_pos|done..|].
    exists m'. split_and!; [|done..].
    unfold emit_switch. rewrite H2. fold (run_length v extend). by rewrite Hrun.
Qed.

Lemma solid_and_transparent_runs_witness :
  emit_switch [5] [9; 9; 9] 5 1 0 3 0 0 = Some ([9; 9; 9], 1, 2, 1, 0, 0) ∧
  ∃ m',
    emit_switch [18] [9; 9; 9; 9] 18 1 0 4 0 0
      = Some (m', 1, 0 + Z.min (run_length 18 0) 4, 4 - Z.min (run_length 18 0) 4, 0,
              Z.land 18 4) ∧
    length m' = length [9; 9; 9; 9] ∧
    (∀ p, 0 ≤ p < 0 + Z.min (run_length 18 0) 4 → load m' p = Some 255) ∧
    same_outside [9; 9; 9; 9] m' 0 (0 + Z.min (run_length 18 0) 4).
Proof.
  split.
  - apply (proj1 solid_and_transparent_runs [5] [9; 9; 9] 5 1 0 3 0 0). reflexivity.
  - apply (proj2 solid_and_transparent_runs [18] [9; 9; 9; 9] 18 1 0 4 0 0);
      first [reflexivity | lia | by vm_compute].
Defined.

(** X4: an Extend header sets, and does not add to, the multiplier of the next
    run: after Extend [e] a Solid run of header [v] covers
    [(v >> 3) + 1 + 32 * (e >> 2)] columns, whatever multiplier was pending,
    cut to the remaining width; the row then ends or goes on with the
    multiplier back to 0. *)
Theorem extend_then_solid_run (fuel : nat) (data : list Z) (m : mem)
    runp ddp ww extend e v :
  0 < ww →
  load data runp = Some e → Z.land e 3 = 0 → 0 ≤ e →
  load data (runp + 1) = Some v → Z.land v 3 = 2 → 0 ≤ v →
  0 ≤ ddp → ddp + Z.min ((v ≫ 3) + 1 + 32 * (e ≫ 2)) ww ≤ Z.of_nat (length m) →
  ∃ m',
    emit_loop (S (S fuel)) data m runp ddp ww extend 0
      = (if Z.land v 4 =? 0
         then emit_loop fuel data m' (runp + 2)
                (ddp + Z.min ((v ≫ 3) + 1 + 32 * (e ≫ 2)) ww)
                (ww - Z.min ((v ≫ 3) + 1 + 32 * (e ≫ 2)) ww) 0 0
         else Some m') ∧
    length m' = length m ∧
    (∀ p, ddp ≤ p < ddp + Z.min ((v ≫ 3) + 1 + 32 * (e ≫ 2)) ww → load m' p = Some 255) ∧
    same_outside m m' ddp (ddp + Z.min ((v ≫ 3) + 1 + 32 * (e ≫ 2)) ww).
Proof.
  intros Hww He He0 Hepos Hv Hv2 Hvpos Hddp Hfit.
  assert (0 ≤ e ≫ 2) as Hext by (by apply Z.shiftr_nonneg).
  assert (run_length v (e ≫ 2) = (v ≫ 3) + 1 + 32 * (e ≫ 2)) as Hlen.
  { unfold run_length. rewrite Z.shiftl_mul_pow2 by lia. change (2 ^ 5) with 32. lia. }
  rewrite <- Hlen in *.
  destruct (solid_run_spec m ddp ww (run_length v (e ≫ 2)))
    as (m' & Hrun & Hlen' & Hout & Hin); [by apply run_length_pos|done..|].
  exists m'. split_and!; [|done..].
  change (emit_loop (S (S fuel)) data m runp ddp ww extend 0) with
    (if ww >? 0 then
       v ← load data runp;
       '(m, runp, ddp, ww, extend, eol) ← emit_switch data m v (runp + 1) ddp ww extend 0;
       if truthy eol then Some m else emit_loop (S fuel) data m runp ddp ww extend eol
     else Some m).
  destruct (Z.gtb_spec ww 0); [|lia].
  rewrite He. cbn [mbind option_bind]. unfold emit_switch at 1. rewrite He0.
  cbn [mbind option_bind truthy Z.eqb negb].
  change (emit_loop (S fuel) data m (runp + 1) ddp ww (e ≫ 2) 0) with
    (if ww >? 0 then
       v ← load data (runp + 1);
       '(m, runp, ddp, ww, extend, eol) ←
         emit_switch data m v (runp + 1 + 1) ddp ww (e ≫ 2) 0;
       if truthy eol then Some m else emit_loop fuel data m runp ddp ww extend eol
     else Some m).
  destruct (Z.gtb_spec ww 0); [|lia].
  rewrite Hv. cbn [mbind option_bind]. unfold emit_switch. rewrite Hv2.
  fold (run_length v (e ≫ 2)). rewrite Hrun. cbn [mbind option_bind].
  replace (runp + 1 + 1) with (runp + 2) by lia.
  unfold truthy. destruct (Z.eqb_spec (Z.land v 4) 0) as [E|E]; [by rewrite E|done].
Qed.

Lemma extend_then_solid_run_witness :
  ∃ m',
    emit_loop 2 [8; 22] [9; 9; 9; 9; 9] 0 0 4 7 0
      = (if Z.land 22 4 =? 0
         then emit_loop 0 [8; 22] m' (0 + 2)
                (0 + Z.min ((22 ≫ 3) + 1 + 32 * (8 ≫ 2)) 4)
                (4 - Z.min ((22 ≫ 3) + 1 + 32 * (8 ≫ 2)) 4) 0 0
         else Some m') ∧
    length m' = length [9; 9; 9; 9; 9] ∧
    (∀ p, 0 ≤ p < 0 + Z.min ((22 ≫ 3) + 1 + 32 * (8 ≫ 2)) 4 → load m' p = Some 255) ∧
    same_outside [9; 9; 9; 9; 9] m' 0 (0 + Z.min ((22 ≫ 3) + 1 + 32 * (8 ≫ 2)) 4).
Proof.
  apply (extend_then_solid_run 0 [8; 22] [9; 9; 9; 9; 9] 0 0 4 7 8 22);
    first [reflexivity | lia | by vm_compute].
Defined.

(** X5: rows whose table entry is negative have no coverage: a glyph made of such
    rows leaves the destination as it is. *)
Theorem glyph_rows_without_coverage cfg span (m : mem) dp da glyph w h skip_x skip_y :
  0 ≤ h →
  (∀ r, 0 ≤ r < h →
     ∃ offset, load_int (isbigendian cfg) (glyph_data glyph) (skip_y + r) = Some offset ∧
               offset < 0) →
  fz_paint_glyph_mask cfg span m dp da glyph w h skip_x skip_y = Some m.
Proof.
  intros Hh Hrows. unfold fz_paint_glyph_mask.
  destruct (Z.ltb_spec h 0); [lia|].
  assert (∀ (k : nat) dp skip_y',
            (∀ r, 0 ≤ r < Z.of_nat k →
               ∃ offset, load_int (isbigendian cfg) (glyph_data glyph) (skip_y' + r)
                         = Some offset ∧ offset < 0) →
            glyph_mask_rows (isbigendian cfg) (glyph_data glyph) k m span dp w skip_x skip_y'
            = Some m) as Haux.
  { induction k as [|k IH]; intros dp' sy Hk; simpl; [done|].
    destruct (Hk 0) as (offset & Hoff & Hneg); [lia|].
    rewrite Z.add_0_r in Hoff. rewrite Hoff. simpl.
    destruct (Z.geb_spec offset 0); [lia|]. simpl.
    apply IH. intros r Hr. destruct (Hk (r + 1)) as (o & Ho & Hn); [lia|].
    exists o. split; [|done]. rewrite <- Ho. f_equal. lia. }
  apply Haux. intros r Hr. apply Hrows. lia.
Qed.

Lemma glyph_rows_without_coverage_witness :
  fz_paint_glyph_mask default_config 3 [1; 2; 3; 4; 5; 6] 0 1
    (Glyph [255; 255; 255; 255; 255; 255; 255; 255]) 3 2 0 0
  = Some [1; 2; 3; 4; 5; 6].
Proof.
  apply glyph_rows_without_coverage; [lia|].
  intros r Hr. exists (-1). split; [|lia].
  assert (r = 0 ∨ r = 1) as [-> | ->] by lia; reflexivity.
Defined.

(** ** The glyph decoder writes inside its row *)

Lemma do_while_inv_partial {St : Type} (body : St → option St) (P : nat → St → Prop)
    (w : nat) (s s' : St) :
  P 0%nat s →
  (∀ i s1 s2, (i < w)%nat → P i s1 → body s1 = Some s2 → P (S i) s2) →
  do_while body w s = Some s' →
  (0 < w)%nat ∧ P w s'.
Proof.
  intros HP Hstep Hrun.
  assert (∀ (n k : nat) s1,
            (k + n = w)%nat → P k s1 → do_while body n s1 = Some s' →
            (0 < n)%nat ∧ P w s') as Haux.
  { induction n as [|n IH]; intros k s1 Hk HP1 Hd; simpl in Hd; [done|].
    destruct (body s1) as [s2|] eqn:Hb; [|done]. simpl in Hd.
    split; [lia|].
    pose proof (Hstep k s1 s2 ltac:(lia) HP1 Hb) as HP2.
    destruct n as [|n].
    - injection Hd as <-. by replace w with (S k) by lia.
    - by destruct (IH (S k) s2 ltac:(lia) HP2 Hd). }
  by apply (Haux w 0%nat s).
Qed.

Lemma same_outside_refl (m : mem) lo hi : same_outside m m lo hi.
Proof. by intros p Hp. Qed.

Lemma same_outside_weaken (m m' : mem) a b lo hi :
  same_outside m m' a b → lo ≤ a → b ≤ hi → same_outside m m' lo hi.
Proof. intros H Ha Hb p Hp. apply H. lia. Qed.

Lemma same_outside_trans (m m1 m2 : mem) a b c d lo hi :
  same_outside m m1 a b → same_outside m1 m2 c d →
  lo ≤ a → b ≤ hi → lo ≤ c → d ≤ hi →
  same_outside m m2 lo hi.
Proof.
  intros H1 H2 Ha Hb Hc Hd p Hp.
  rewrite H2 by lia. apply H1. lia.
Qed.

Lemma solid_run_frame (m m' : mem) ddp ww len ddp' ww' :
  solid_run m ddp ww len = Some (m', ddp', ww') →
  ddp < ddp' ∧ ddp' + ww' = ddp + ww ∧ 0 ≤ ww' ∧
  length m' = length m ∧ same_outside m m' ddp ddp'.
Proof.
  unfold solid_run. intros Hrun.
  set (L := if len >? ww then ww else len) in *.
  assert (L ≤ ww) by (unfold L; destruct (Z.gtb_spec len ww); lia).
  destruct (do_while _ _ _) as [[m1 d1]|] eqn:Hd; [|done]. simpl in Hrun.
  simplify_eq.
  apply (do_while_inv_partial _
    (λ i '(m1, d1),
       d1 = ddp + Z.of_nat i ∧ length m1 = length m ∧
       same_outside m m1 ddp (ddp + Z.of_nat i))) in Hd.
  - destruct Hd as (Hpos & -> & Hlen & Hout).
    rewrite Z2Nat.id in * by lia. split_and!; [lia|lia|lia|done|done].
  - split_and!; [lia|done|apply same_outside_refl].
  - intros i [m1 d1] [m2 d2] Hi (-> & Hlen & Hout) Hb.
    destruct (store m1 (ddp + Z.of_nat i) 255) as [m3|] eqn:Hst; [|done].
    simpl in Hb. simplify_eq. split_and!; [lia| |].
    + by rewrite (store_length _ _ _ _ Hst).
    + intros p Hp. rewrite (load_store _ _ _ _ p Hst).
      case_decide; [lia|]. apply Hout. lia.
Qed.

Lemma intermediate_run_frame (data : list Z) (m m' : mem) runp ddp ww len runp' ddp' ww' :
  intermediate_run data m runp ddp ww len = Some (m', runp', ddp', ww') →
  ddp < ddp' ∧ ddp' + ww' = ddp + ww ∧ 0 ≤ ww' ∧
  length m' = length m ∧ same_outside m m' ddp ddp'.
Proof.
  unfold intermediate_run. intros Hrun.
  set (L := if len >? ww then ww else len) in *.
  assert (L ≤ ww) by (unfold L; destruct (Z.gtb_spec len ww); lia).
  destruct (do_while _ _ _) as [[[m1 r1] d1]|] eqn:Hd; [|done]. simpl in Hrun.
  simplify_eq.
  apply (do_while_inv_partial _
    (λ i '(m1, r1, d1),
       d1 = ddp + Z.of_nat i ∧ length m1 = length m ∧
       same_outside m m1 ddp (ddp + Z.of_nat i))) in Hd.
  - destruct Hd as (Hpos & -> & Hlen & Hout).
    rewrite Z2Nat.id in * by lia. split_and!; [lia|lia|lia|done|done].
  - split_and!; [lia|done|apply same_outside_refl].
  - intros i [[m1 r1] d1] [[m2 r2] d2] Hi (-> & Hlen & Hout) Hb.
    destruct (load m1 (ddp + Z.of_nat i)) as [v|]; [|done]. simpl in Hb.
    destruct (load data r1) as [a|]; [|done]. simpl in Hb.
    assert (∃ x m3, store m1 (ddp + Z.of_nat i) x = Some m3 ∧
                    (m2, r2, d2) = (m3, r1 + 1, ddp + Z.of_nat i + 1)) as (x & m3 & Hst & Heq).
    { destruct (v =? 0).
      - destruct (store m1 (ddp + Z.of_nat i) a) as [m3|] eqn:Hst; [|done].
        simpl in Hb. simplify_eq. eauto.
      - destruct (store m1 (ddp + Z.of_nat i) (FZ_BLEND 255 v (FZ_EXPAND a)))
          as [m3|] eqn:Hst; [|done].
        simpl in Hb. simplify_eq. eauto. }
    simplify_eq. split_and!; [lia| |].
    + by rewrite (store_length _ _ _ _ Hst).
    + intros p Hp. rewrite (load_store _ _ _ _ p Hst).
      case_decide; [lia|]. apply Hout. lia.
Qed.

Lemma switch_run_default {A : Type} (n : Z) (a b c d : A) :
  n ≠ 0 → n ≠ 1 → n ≠ 2 →
  match n with 0 => a | 1 => b | 2 => c | _ => d end = d.
Proof.
  intros. destruct n as [|p|p]; [done| |done].
  destruct p as [p|p|]; [done| |done]. by destruct p.
Qed.

(** Case analysis on the tag of a run header. *)
Ltac run_cases v :=
  let H := fresh "Htag" in
  assert (Z.land v 3 = 0 ∨ Z.land v 3 = 1 ∨ Z.land v 3 = 2 ∨
          (Z.land v 3 ≠ 0 ∧ Z.land v 3 ≠ 1 ∧ Z.land v 3 ≠ 2)) as H by lia;
  destruct H as [H | [H | [H | (? & ? & ?)]]];
  [rewrite H | rewrite H | rewrite H | rewrite switch_run_default by done];
  cbv beta iota.

Lemma run_lengths_pos v extend :
  0 ≤ v → 0 ≤ extend →
  0 ≤ v ≫ 2 ∧ 0 < (v ≫ 2) + 1 + (extend ≪ 6) ∧ 0 < (v ≫ 3) + 1 + (extend ≪ 5).
Proof.
  intros Hv He.
  pose proof (proj2 (Z.shiftr_nonneg v 2) Hv).
  pose proof (proj2 (Z.shiftr_nonneg v 3) Hv).
  pose proof (proj2 (Z.shiftl_nonneg extend 6) He).
  pose proof (proj2 (Z.shiftl_nonneg extend 5) He). lia.
Qed.

Lemma emit_switch_frame (data : list Z) (m m' : mem) v runp ddp ww extend eol
    runp' ddp' ww' extend' eol' :
  0 ≤ v → 0 ≤ extend → 0 < ww →
  emit_switch data m v runp ddp ww extend eol = Some (m', runp', ddp', ww', extend', eol') →
  0 ≤ extend' ∧ ddp ≤ ddp' ∧ ddp' + ww' = ddp + ww ∧ 0 ≤ ww' ∧
  length m' = length m ∧ same_outside m m' ddp ddp'.
Proof.
  intros Hv Hext Hww. unfold emit_switch.
  destruct (run_lengths_pos v extend Hv Hext) as (Hv2 & Hlt & Hls).
  run_cases v; intros Hsw.
  - simplify_eq. split_and!; [done|lia|lia|lia|done|apply same_outside_refl].
  - unfold transparent_run in Hsw.
    destruct (Z.gtb_spec ((v ≫ 2) + 1 + (extend ≪ 6)) ww); simplify_eq;
      (split_and!; [done|lia|lia|lia|done|apply same_outside_refl]).
  - destruct (solid_run _ _ _ _) as [[[m1 d1] w1]|] eqn:Hrun; [|done].
    simpl in Hsw. simplify_eq.
    destruct (solid_run_frame _ _ _ _ _ _ _ Hrun) as (? & ? & ? & ? & ?).
    split_and!; [done|lia|lia|lia|done|done].
  - destruct (intermediate_run _ _ _ _ _ _) as [[[[m1 r1] d1] w1]|] eqn:Hrun; [|done].
    simpl in Hsw. simplify_eq.
    destruct (intermediate_run_frame _ _ _ _ _ _ _ _ _ _ Hrun) as (? & ? & ? & ? & ?).
    split_and!; [done|lia|lia|lia|done|done].
Qed.

Lemma emit_loop_frame (data : list Z) :
  (∀ p v, load data p = Some v → 0 ≤ v) →
  ∀ (fuel : nat) (m m' : mem) runp ddp ww extend eol,
    0 ≤ extend →
    emit_loop fuel data m runp ddp ww extend eol = Some m' →
    length m' = length m ∧ ∀ lo hi, lo ≤ ddp → ddp + ww ≤ hi → same_outside m m' lo hi.
Proof.
  intros Hdata. induction fuel as [|fuel IH]; intros m m' runp ddp ww extend eol Hext Hrun.
  - simpl in Hrun. destruct (ww >? 0); [done|]. simplify_eq.
    split; [done|]. intros. apply same_outside_refl.
  - simpl in Hrun. destruct (Z.gtb_spec ww 0).
    2:{ simplify_eq. split; [done|]. intros. apply same_outside_refl. }
    destruct (load data runp) as [v|] eqn:Hv; [|done]. simpl in Hrun.
    destruct (emit_switch _ _ _ _ _ _ _ _) as [[[[[[m1 r1] d1] w1] e1] l1]|] eqn:Hsw; [|done].
    simpl in Hrun.
    destruct (emit_switch_frame data m m1 v (runp + 1) ddp ww extend eol r1 d1 w1 e1 l1
                (Hdata _ _ Hv) Hext ltac:(lia) Hsw) as (He1 & Hd1 & Hsum & Hw1 & Hlen & Hout).
    destruct (truthy l1).
    + simplify_eq. split; [done|]. intros lo hi Hlo Hhi.
      eapply same_outside_weaken; [done|lia..].
    + destruct (IH _ _ _ _ _ _ _ He1 Hrun) as [Hlen' Hout'].
      split; [congruence|]. intros lo hi Hlo Hhi.
      eapply same_outside_trans; [done|apply (Hout' lo hi); lia|lia..].
Qed.

Lemma skip_loop_frame (data : list Z) dp w :
  (∀ p v, load data p = Some v → 0 ≤ v) →
  0 ≤ w →
  ∀ (fuel : nat) (m m' : mem) runp extend eol skip_xx,
    0 ≤ extend →
    skip_loop fuel data m runp dp w extend eol skip_xx = Some m' →
    length m' = length m ∧ same_outside m m' dp (dp + w).
Proof.
  intros Hdata Hw.
  induction fuel as [|fuel IH]; intros m m' runp extend eol skip_xx Hext Hrun.
  - simpl in Hrun. destruct (skip_xx =? 0); [|done].
    destruct (emit_loop_frame data Hdata 0%nat m m' runp dp w extend eol Hext Hrun)
      as [Hlen Hout].
    split; [done|]. apply Hout; lia.
  - simpl in Hrun. destruct (skip_xx =? 0).
    { destruct (emit_loop_frame data Hdata (S fuel) m m' runp dp w extend eol Hext Hrun)
        as [Hlen Hout].
      split; [done|]. apply Hout; lia. }
    destruct (load data runp) as [v|] eqn:Hv; [|done]. simpl in Hrun.
    pose proof (Hdata _ _ Hv) as Hv0.
    destruct (run_lengths_pos v extend Hv0 Hext) as (Hv2 & Hlt & Hls).
    unfold skip_switch, after_run in Hrun. revert Hrun.
    run_cases v; intros Hrun.
    + destruct (truthy eol).
      * rewrite emit_loop_full in Hrun. simplify_eq.
        split; [done|apply same_outside_refl].
      * by apply IH in Hrun.
    + destruct (Z.gtb_spec ((v ≫ 2) + 1 + (extend ≪ 6)) skip_xx).
      * unfold transparent_run in Hrun.
        destruct (Z.gtb_spec ((v ≫ 2) + 1 + (extend ≪ 6) - skip_xx) w);
          (destruct (truthy eol);
           [simplify_eq; split; [done|apply same_outside_refl]|]);
          (eapply (emit_loop_frame _ Hdata) in Hrun; [|lia];
           destruct Hrun as [Hlen Hout]; split; [done|apply Hout; lia]).
      * destruct (truthy eol).
        -- rewrite emit_loop_full in Hrun. simplify_eq.
           split; [done|apply same_outside_refl].
        -- apply IH in Hrun; [done|lia].
    + destruct (Z.gtb_spec ((v ≫ 3) + 1 + (extend ≪ 5)) skip_xx).
      * destruct (solid_run _ _ _ _) as [[[m1 d1] w1]|] eqn:Hsr; [|done].
        simpl in Hrun.
        destruct (solid_run_frame _ _ _ _ _ _ _ Hsr) as (? & ? & ? & Hlen1 & Hout1).
        destruct (truthy (Z.land v 4)).
        -- simplify_eq. split; [done|].
           eapply same_outside_weaken; [done|lia..].
        -- eapply (emit_loop_frame _ Hdata) in Hrun; [|lia].
           destruct Hrun as [Hlen Hout].
           split; [congruence|].
           eapply same_outside_trans; [done|apply (Hout dp (dp + w)); lia|lia..].
      * destruct (truthy (Z.land v 4)).
        -- rewrite emit_loop_full in Hrun. simplify_eq.
           split; [done|apply same_outside_refl].
        -- apply IH in Hrun; [done|lia].
    + destruct (Z.gtb_spec ((v ≫ 3) + 1 + (extend ≪ 5)) skip_xx).
      * destruct (intermediate_run _ _ _ _ _ _) as [[[[m1 r1] d1] w1]|] eqn:Hsr; [|done].
        simpl in Hrun.
        destruct (intermediate_run_frame _ _ _ _ _ _ _ _ _ _ Hsr)
          as (? & ? & ? & Hlen1 & Hout1).
        destruct (truthy (Z.land v 4)).
        -- simplify_eq. split; [done|].
           eapply same_outside_weaken; [done|lia..].
        -- eapply (emit_loop_frame _ Hdata) in Hrun; [|lia].
           destruct Hrun as [Hlen Hout].
           split; [congruence|].
           eapply same_outside_trans; [done|apply (Hout dp (dp + w)); lia|lia..].
      * destruct (truthy (Z.land v 4)).
        -- rewrite emit_loop_full in Hrun. simplify_eq.
           split; [done|apply same_outside_refl].
        -- apply IH in Hrun; [done|lia].
Qed.

(** Whatever the run stream, as long as its bytes are not negative, a decoded
    row leaves the buffer its length and every byte outside the [w] columns
    from [dp] on. *)
Theorem glyph_mask_row_frame (data : list Z) (m m' : mem) offset dp w skip_x :
  (∀ p v, load data p = Some v → 0 ≤ v) →
  0 ≤ w →
  glyph_mask_row data m offset dp w skip_x = Some m' →
  length m' = length m ∧ same_outside m m' dp (dp + w).
Proof.
  intros Hdata Hw Hrun. unfold glyph_mask_row in Hrun.
  by apply (skip_loop_frame data dp w Hdata Hw) in Hrun.
Qed.

Lemma load_Forall (P : Z → Prop) (l : list Z) p v : Forall P l → load l p = Some v → P v.
Proof.
  intros Hall. unfold load. destruct (p <? 0); [done|].
  intros Hl. by eapply Forall_lookup_1.
Qed.

(** X6: whatever the run stream, as long as its bytes are not negative,
    [fz_paint_glyph_mask] leaves the buffer its length and every byte that
    lies in none of the [h] rows of [w] columns, [span] bytes apart, that
    start at [dp]. *)
Theorem fz_paint_glyph_mask_frame cfg span (m m' : mem) dp da glyph w h skip_x skip_y :
  (∀ p v, load (glyph_data glyph) p = Some v → 0 ≤ v) →
  0 ≤ w →
  fz_paint_glyph_mask cfg span m dp da glyph w h skip_x skip_y = Some m' →
  length m' = length m ∧
  ∀ p, (∀ r, 0 ≤ r < h → ¬ (dp + r * span ≤ p < dp + r * span + w)) →
       load m' p = load m p.
Proof.
  intros Hdata Hw. unfold fz_paint_glyph_mask.
  destruct (Z.ltb_spec h 0); [done|].
  assert (∀ (k : nat) (m m' : mem) dp skip_y,
            glyph_mask_rows (isbigendian cfg) (glyph_data glyph) k m span dp w skip_x skip_y
              = Some m' →
            length m' = length m ∧
            ∀ p, (∀ r, 0 ≤ r < Z.of_nat k → ¬ (dp + r * span ≤ p < dp + r * span + w)) →
                 load m' p = load m p) as Haux.
  { induction k as [|k IH]; intros m0 m1 dp0 sy Hrows; simpl in Hrows.
    - by simplify_eq.
    - destruct (load_int _ _ _) as [offset|]; [|done]. simpl in Hrows.
      destruct (if offset >=? 0 then glyph_mask_row (glyph_data glyph) m0 offset dp0 w skip_x
                else Some m0) as [m2|] eqn:Hrow; [|done].
      simpl in Hrows.
      assert (length m2 = length m0 ∧ same_outside m0 m2 dp0 (dp0 + w)) as [Hlen2 Hout2].
      { destruct (offset >=? 0).
        - by apply glyph_mask_row_frame in Hrow.
        - simplify_eq. split; [done|apply same_outside_refl]. }
      destruct (IH _ _ _ _ Hrows) as [Hlen1 Hout1].
      split; [congruence|]. intros p Hp.
      rewrite Hout1.
      + apply Hout2. specialize (Hp 0 ltac:(lia)). lia.
      + intros r Hr. specialize (Hp (r + 1) ltac:(lia)). lia. }
  intros Hrows. destruct (Haux _ _ _ _ _ Hrows) as [Hlen Hout].
  split; [done|]. intros p Hp. apply Hout. intros r Hr. apply Hp. lia.
Qed.

Lemma fz_paint_glyph_mask_frame_witness :
  length [0; 0; 255; 255; 255; 0; 7] = length [0; 0; 0; 0; 0; 0; 7] ∧
  ∀ p, (∀ r, 0 ≤ r < 1 → ¬ (0 + r * 7 ≤ p < 0 + r * 7 + 6)) →
       load [0; 0; 255; 255; 255; 0; 7] p = load [0; 0; 0; 0; 0; 0; 7] p.
Proof.
  apply (fz_paint_glyph_mask_frame default_config 7 [0; 0; 0; 0; 0; 0; 7]
           [0; 0; 255; 255; 255; 0; 7] 0 1 (Glyph [4; 0; 0; 0; 5; 22]) 6 1 0 0).
  - intros p v. apply load_Forall. repeat constructor; lia.
  - lia.
  - reflexivity.
Defined.

(** ** Solid colors *)

Lemma byte_at_Forall (l : list Z) p :
  Forall is_byte l → 0 ≤ p < Z.of_nat (length l) → byte_at l p.
Proof.
  intros Hall Hp. destruct (load_is_Some l p Hp) as [v Hv].
  exists v. split; [done|]. by eapply load_Forall.
Qed.

(** Closes [Forall is_byte] on a list of literals. *)
Ltac all_bytes := simpl; repeat constructor; unfold is_byte; lia.

(** Case analysis on the flags of the build and on the channel count of a
    dispatcher, for a hypothesis [H] on what it returns. *)
Ltac flag_cases cfg :=
  destruct (FZ_PLOTTERS_N cfg), (FZ_PLOTTERS_G cfg), (FZ_PLOTTERS_RGB cfg),
    (FZ_PLOTTERS_CMYK cfg).

Ltac count_cases n H :=
  let Hc := fresh in
  assert (n = 1 ∨ n = 3 ∨ n = 4 ∨ (n ≠ 0 ∧ n ≠ 1 ∧ n ≠ 3 ∧ n ≠ 4)) as Hc by lia;
  destruct Hc as [-> | [-> | [-> | (? & ? & ? & ?)]]];
  [| | |rewrite switch_default in H by done].

Lemma template_solid_color_N_general_opaque_witness :
  ∃ m',
    template_solid_color_N_general [0; 0; 0; 0; 0; 0] 0 3 2 [10; 20; 255] 1 256 = Some m' ∧
    ∀ i, 0 ≤ i < 2 →
      (∀ k c, 0 ≤ k < 3 - 1 → load [10; 20; 255] k = Some c →
              load m' (0 + i * 3 + k) = Some c) ∧
      load m' (0 + i * 3 + (3 - 1)) = Some 255.
Proof.
  apply template_solid_color_N_general_opaque; [lia|lia| |lia|simpl; lia].
  intros k Hk. assert (k = 0 ∨ k = 1) as [-> | ->] by lia;
    eexists; (split; [reflexivity|unfold is_byte; lia]).
Defined.

(** ** Solid fill without destination alpha *)

Lemma solid_pixel_256_plain (m : mem) dp n1 (color : list Z) :
  1 ≤ n1 →
  (∀ k, 0 ≤ k < n1 → byte_at color k) →
  0 ≤ dp → dp + n1 ≤ Z.of_nat (length m) →
  ∃ m', solid_pixel_256 m dp n1 color 0 = Some m' ∧ colored m m' dp color n1.
Proof.
  intros Hn1 Hcol Hdp Hfit. unfold solid_pixel_256.
  assert (colored m m dp color 0) as H0.
  { split_and!; [done|by intros p Hp|intros j c Hj; lia]. }
  destruct (copy_color_colored m m dp color 0 H0) as (m1 & -> & H1);
    [apply Hcol; lia|lia..|]. simpl.
  assert (∃ m2, (if n1 >? 1 then copy_color color dp 1 m1 else Some m1) = Some m2 ∧
                colored m m2 dp color (Z.min 2 n1)) as (m2 & -> & H2).
  { destruct (Z.gtb_spec n1 1).
    - destruct (copy_color_colored m m1 dp color 1 H1) as (m2 & Hc & H2);
        [apply Hcol; lia|lia..|].
      exists m2. by rewrite Z.min_l by lia.
    - exists m1. by rewrite Z.min_r by lia; replace n1 with (0 + 1) by lia. }
  simpl.
  assert (∃ m3, (if n1 >? 2 then copy_color color dp 2 m2 else Some m2) = Some m3 ∧
                colored m m3 dp color (Z.min 3 n1)) as (m3 & -> & H3).
  { destruct (Z.gtb_spec n1 2).
    - rewrite Z.min_l in H2 by lia.
      destruct (copy_color_colored m m2 dp color 2 H2) as (m3 & Hc & H3);
        [apply Hcol; lia|lia..|].
      exists m3. by rewrite Z.min_l by lia.
    - exists m2. by replace (Z.min 3 n1) with (Z.min 2 n1) by lia. }
  simpl.
  destruct (for_loop_inv (copy_color color dp)
              (λ i m', colored m m' dp color (Z.min 3 n1 + Z.of_nat i)) 3 n1 m3)
    as (m4 & -> & H4).
  { by rewrite Z.add_0_r. }
  { intros i m' Hi Hm'. rewrite Z.min_l in Hm' by lia.
    destruct (copy_color_colored m m' dp color (3 + Z.of_nat i) Hm') as (m'' & Hc & Hm'');
      [apply Hcol; lia|lia..|].
    exists m''. split; [done|]. rewrite Z.min_l by lia.
    by replace (3 + Z.of_nat (S i)) with (3 + Z.of_nat i + 1) by lia. }
  simpl.
  replace (Z.min 3 n1 + Z.of_nat (Z.to_nat (n1 - 3))) with n1 in H4 by lia.
  by exists m4.
Qed.

Lemma solid_bytewise_loop (m : mem) dp n w (color : list Z) :
  1 ≤ n → 1 ≤ w →
  (∀ k, 0 ≤ k < n → byte_at color k) →
  0 ≤ dp → dp + w * n ≤ Z.of_nat (length m) →
  ∃ m',
    do_while (λ '(m, dp), m ← solid_pixel_256 m dp n color 0; Some (m, dp + n))
      (Z.to_nat w) (m, dp) = Some (m', dp + w * n) ∧
    length m' = length m ∧
    same_outside m m' dp (dp + w * n) ∧
    pixels_colored m' dp n color 0 w.
Proof.
  intros Hn Hw Hcol Hdp Hfit.
  lazymatch goal with |- context [do_while ?b _ _] => set (body := b) end.
  destruct (do_while_inv body
    (λ i '(m1, d1),
       d1 = dp + Z.of_nat i * n ∧ length m1 = length m ∧
       same_outside m m1 dp (dp + Z.of_nat i * n) ∧
       pixels_colored m1 dp n color 0 (Z.of_nat i))
    (Z.to_nat w) (m, dp)) as ([m' d'] & Hrun & Hd & Hlen & Hout & Hall).
  - lia.
  - split_and!; [lia|done|apply same_outside_refl|intros i k c Hi; lia].
  - intros i [m1 d1] Hi (-> & Hlen & Hout & Hdone).
    destruct (solid_pixel_256_plain m1 (dp + Z.of_nat i * n) n color)
      as (m2 & Hpix & Hlen2 & Hout2 & Hin2); [lia|done|nia|nia|].
    exists (m2, dp + Z.of_nat i * n + n). unfold body. rewrite Hpix. simpl.
    split; [done|]. split_and!; [lia|congruence| |].
    + intros p Hp. rewrite Hout2 by nia. apply Hout. nia.
    + intros j k c Hj Hk Hc. destruct (decide (j = Z.of_nat i)) as [-> | Hne].
      * by apply Hin2.
      * rewrite Hout2 by nia. apply Hdone; [lia|done..].
  - exists m'. rewrite Hrun. rewrite Z2Nat.id in * by lia. subst d'. done.
Qed.

Lemma do_while_cond_inv {St : Type} (body : St → option St) (cond : St → bool)
    (P : St → Prop) (μ : St → Z) (fuel : nat) (s : St) :
  P s → 0 < μ s ≤ Z.of_nat fuel →
  (∀ s, P s → 0 < μ s →
        ∃ s', body s = Some s' ∧ P s' ∧ μ s' < μ s ∧ (cond s' = true → 0 < μ s')) →
  ∃ s', do_while_cond body cond fuel s = Some s' ∧ P s' ∧ cond s' = false.
Proof.
  intros HP Hμ Hstep. revert s HP Hμ.
  induction fuel as [|fuel IH]; intros s HP Hμ; [lia|].
  destruct (Hstep s HP) as (s' & Hb & HP' & Hlt & Hc); [lia|].
  simpl. rewrite Hb. simpl. destruct (cond s') eqn:Hcond.
  - apply IH; [done|]. specialize (Hc eq_refl). lia.
  - by exists s'.
Qed.

Lemma store_filled (m0 m : mem) dp (color : list Z) n b p c :
  filled m0 m dp color n b →
  p = dp + b → 0 ≤ b → 0 ≤ dp → dp + b < Z.of_nat (length m0) →
  load color (b `mod` n) = Some c → is_byte c →
  ∃ m', store m p c = Some m' ∧ filled m0 m' dp color n (b + 1).
Proof.
  intros (Hlen & Hout & Hin) -> Hb Hdp Hfit Hc Hbc.
  destruct (store m (dp + b) c) as [m'|] eqn:Hst.
  2:{ rewrite store_Some in Hst by lia. done. }
  exists m'. split; [done|]. split_and!.
  - by rewrite (store_length _ _ _ _ Hst).
  - intros p Hp. rewrite (load_store _ _ _ _ p Hst).
    case_decide; [lia|]. apply Hout. lia.
  - intros q c' Hq Hc'. rewrite (load_store _ _ _ _ _ Hst).
    case_decide as Hqb.
    + assert (q = b) as -> by lia. rewrite Z.mod_small by done. congruence.
    + apply Hin; [lia|done].
Qed.

Lemma store_union_word_filled (m0 m : mem) dp (color : list Z) b p r b0 b1 b2 b3 :
  filled m0 m dp color 3 b →
  (∀ k, 0 ≤ k < 3 → byte_at color k) →
  p = dp + b → 0 ≤ b → 0 ≤ dp → dp + b + 4 ≤ Z.of_nat (length m0) →
  b `mod` 3 = r →
  load color r = Some b0 → load color ((r + 1) `mod` 3) = Some b1 →
  load color ((r + 2) `mod` 3) = Some b2 → load color ((r + 3) `mod` 3) = Some b3 →
  ∃ m', store_union_word m p b0 b1 b2 b3 = Some m' ∧ filled m0 m' dp color 3 (b + 4).
Proof.
  intros Hm Hcol -> Hb Hdp Hfit Hr H0 H1 H2 H3. unfold store_union_word.
  assert (∀ k c, load color (k `mod` 3) = Some c → is_byte c) as Hbyte.
  { intros k c Hc. destruct (Hcol (k `mod` 3)) as (c' & Hc' & Hbc).
    - apply Z.mod_pos_bound. lia.
    - congruence. }
  destruct (store_filled m0 m dp color 3 b (dp + b) b0 Hm) as (m1 & -> & Hm1);
    [lia..|by rewrite Hr| |].
  { apply (Hbyte b). by rewrite Hr. }
  simpl.
  destruct (store_filled m0 m1 dp color 3 (b + 1) (dp + b + 1) b1 Hm1) as (m2 & -> & Hm2);
    [lia..| | |].
  { by rewrite <- Z.add_mod_idemp_l, Hr by lia. }
  { apply (Hbyte (r + 1)). done. }
  simpl.
  destruct (store_filled m0 m2 dp color 3 (b + 1 + 1) (dp + b + 2) b2 Hm2)
    as (m3 & -> & Hm3); [lia..| | |].
  { replace (b + 1 + 1) with (b + 2) by lia.
    by rewrite <- Z.add_mod_idemp_l, Hr by lia. }
  { apply (Hbyte (r + 2)). done. }
  simpl.
  destruct (store_filled m0 m3 dp color 3 (b + 1 + 1 + 1) (dp + b + 3) b3 Hm3)
    as (m4 & -> & Hm4); [lia..| | |].
  { replace (b + 1 + 1 + 1) with (b + 3) by lia.
    by rewrite <- Z.add_mod_idemp_l, Hr by lia. }
  { apply (Hbyte (r + 3)). done. }
  exists m4. split; [done|]. by replace (b + 4) with (b + 1 + 1 + 1 + 1) by lia.
Qed.

Section word_path.
Variables (m : mem) (dp w : Z) (color : list Z) (c0 c1 c2 : Z).
Hypothesis Hcol : ∀ k, 0 ≤ k < 3 → byte_at color k.
Hypothesis H0 : load color 0 = Some c0.
Hypothesis H1 : load color 1 = Some c1.
Hypothesis H2 : load color 2 = Some c2.
Hypothesis Hdp : 0 ≤ dp.
Hypothesis Hw : 8 ≤ w.
Hypothesis Hfit : dp + w * 3 ≤ Z.of_nat (length m).

Lemma filled_start : filled m m dp color 3 0.
Proof. split_and!; [done|by intros p Hp|intros q c Hq; lia]. Qed.

Lemma align_switch :
  ∃ j m1, 0 ≤ j ≤ 3 ∧
    match Z.land dp 3 with
    | 3 =>
        m ← store m dp c0;
        m ← store_union_word m (dp + 1) c1 c2 c0 c1;
        m ← store_union_word m (dp + 5) c2 c0 c1 c2;
        Some (m, dp + 9, w - 3)
    | 2 =>
        m ← store m dp c0;
        m ← store m (dp + 1) c1;
        m ← store_union_word m (dp + 2) c2 c0 c1 c2;
        Some (m, dp + 6, w - 2)
    | 1 =>
        m ← store m dp c0;
        m ← store m (dp + 1) c1;
        m ← store m (dp + 2) c2;
        Some (m, dp + 3, w - 1)
    | _ => Some (m, dp, w)
    end = Some (m1, dp + 3 * j, w - j) ∧
    filled m m1 dp color 3 (3 * j).
Proof.
  pose proof filled_start as Hm.
  assert (is_byte c0 ∧ is_byte c1 ∧ is_byte c2) as (Hb0 & Hb1 & Hb2).
  { split_and!; [destruct (Hcol 0) as (c & Hc & Hbc)|destruct (Hcol 1) as (c & Hc & Hbc)
                |destruct (Hcol 2) as (c & Hc & Hbc)]; first [lia|congruence]. }
  assert (∃ m1, Some (m, dp, w) = Some (m1, dp + 3 * 0, w - 0) ∧
                filled m m1 dp color 3 (3 * 0)) as Hdefault.
  { exists m. by rewrite Z.add_0_r, Z.sub_0_r. }
  destruct (Z.land dp 3) as [|[[p|p|]|[p|p|]|]|p];
    try (exists 0; destruct Hdefault as (m1 & ? & ?); exists m1; split; [lia|done]).
  - (* 3 *)
    exists 3.
    destruct (store_filled m m dp color 3 0 dp c0 Hm) as (m1 & -> & Hm1);
      [lia..|done|done|]. simpl.
    destruct (store_union_word_filled m m1 dp color 1 (dp + 1) 1 c1 c2 c0 c1 Hm1 Hcol)
      as (m2 & -> & Hm2); [lia..|done|done|done|done|done|]. simpl.
    destruct (store_union_word_filled m m2 dp color 5 (dp + 5) 2 c2 c0 c1 c2 Hm2 Hcol)
      as (m3 & -> & Hm3); [lia..|done|done|done|done|done|]. simpl.
    exists m3. split; [lia|]. done.
  - (* 2 *)
    exists 2.
    destruct (store_filled m m dp color 3 0 dp c0 Hm) as (m1 & -> & Hm1);
      [lia..|done|done|]. simpl.
    destruct (store_filled m m1 dp color 3 1 (dp + 1) c1 Hm1) as (m2 & -> & Hm2);
      [lia..|done|done|]. simpl.
    destruct (store_union_word_filled m m2 dp color 2 (dp + 2) 2 c2 c0 c1 c2 Hm2 Hcol)
      as (m3 & -> & Hm3); [lia..|done|done|done|done|done|]. simpl.
    exists m3. split; [lia|]. done.
  - (* 1 *)
    exists 1.
    destruct (store_filled m m dp color 3 0 dp c0 Hm) as (m1 & -> & Hm1);
      [lia..|done|done|]. simpl.
    destruct (store_filled m m1 dp color 3 1 (dp + 1) c1 Hm1) as (m2 & -> & Hm2);
      [lia..|done|done|]. simpl.
    destruct (store_filled m m2 dp color 3 2 (dp + 2) c2 Hm2) as (m3 & -> & Hm3);
      [lia..|done|done|]. simpl.
    exists m3. split; [lia|]. done.
Qed.

Lemma word_loop (m1 : mem) j :
  0 ≤ j ≤ 3 → filled m m1 dp color 3 (3 * j) →
  ∃ m2 t, 1 ≤ w - t ≤ 4 ∧ 0 ≤ t ∧
    do_while_cond (λ '(m, dp, w),
      m ← store_union_word m dp c0 c1 c2 c0;
      m ← store_union_word m (dp + 4) c1 c2 c0 c1;
      m ← store_union_word m (dp + 8) c2 c0 c1 c2;
      Some (m, dp + 12, w - 4)) (λ '(_, _, w), w >? 0) (Z.to_nat (w - j - 4))
      (m1, dp + 3 * j, w - j - 4) = Some (m2, dp + 3 * t, w - t - 4) ∧
    filled m m2 dp color 3 (3 * t).
Proof.
  intros Hj Hm1.
  lazymatch goal with |- context [do_while_cond ?b ?c _ _] => set (body := b); set (cond := c) end.
  destruct (do_while_cond_inv body cond
    (λ '(m', d', w'), ∃ t, 0 ≤ t ∧ -3 ≤ w' ∧ d' = dp + 3 * t ∧ w' = w - t - 4 ∧
                           filled m m' dp color 3 (3 * t))
    (λ '(_, _, w'), w') (Z.to_nat (w - j - 4)) (m1, dp + 3 * j, w - j - 4))
    as ([[m2 d2] w2] & Hrun & (t & Ht & Hw2 & -> & -> & Hm2) & Hc).
  - exists j. split_and!; [lia|lia|done|done|done].
  - lia.
  - intros [[m' d'] w'] (t & Ht & Hw' & -> & -> & Hm') Hpos.
    destruct (store_union_word_filled m m' dp color (3 * t) (dp + 3 * t) 0 c0 c1 c2 c0 Hm' Hcol)
      as (ma & Ea & Hma); [lia..| |done|done|done|done|].
    { by rewrite Z.mul_comm, Z.mod_mul. }
    destruct (store_union_word_filled m ma dp color (3 * t + 4) (dp + 3 * t + 4) 1 c1 c2 c0 c1 Hma Hcol)
      as (mb & Eb & Hmb); [lia..| |done|done|done|done|].
    { replace (3 * t + 4) with (1 + (t + 1) * 3) by lia. by rewrite Z.mod_add. }
    destruct (store_union_word_filled m mb dp color (3 * t + 4 + 4) (dp + 3 * t + 8) 2 c2 c0 c1 c2 Hmb Hcol)
      as (mc & Ec & Hmc); [lia..| |done|done|done|done|].
    { replace (3 * t + 4 + 4) with (2 + (t + 2) * 3) by lia. by rewrite Z.mod_add. }
    exists (mc, dp + 3 * t + 12, w - t - 4 - 4). unfold body. rewrite Ea. simpl.
    rewrite Eb. simpl. rewrite Ec. simpl. split; [done|]. split_and!.
    + exists (t + 4). split_and!; [lia..|].
      by replace (3 * (t + 4)) with (3 * t + 4 + 4 + 4) by lia.
    + lia.
    + unfold cond. lia.
  - exists m2, t. unfold cond in Hc. split_and!; [lia|lia|lia|done|done].
Qed.
End word_path.

Lemma filled_pixels (m0 m : mem) dp (color : list Z) n t :
  0 < n → filled m0 m dp color n (t * n) → pixels_colored m dp n color 0 t.
Proof.
  intros Hn (_ & _ & Hin) i k c Hi Hk Hc.
  replace (dp + i * n + k) with (dp + (k + i * n)) by lia.
  apply Hin; [nia|]. by rewrite Z.mod_add, Z.mod_small by lia.
Qed.

(** Without destination alpha the opaque template sets every byte of the [w]
    pixels to the color, on the word-wise path for three channels and at
    least eight pixels as on the byte-wise one, and nothing outside them. *)
Lemma template_solid_color_N_256_fill (m : mem) dp n w (color : list Z) :
  1 ≤ n → 1 ≤ w →
  (∀ k, 0 ≤ k < n → byte_at color k) →
  0 ≤ dp → dp + w * n ≤ Z.of_nat (length m) →
  ∃ m',
    template_solid_color_N_256 m dp n w color 0 = Some m' ∧
    length m' = length m ∧
    same_outside m m' dp (dp + w * n) ∧
    pixels_colored m' dp n color 0 w.
Proof.
  intros Hn Hw Hcol Hdp Hfit. unfold template_solid_color_N_256.
  rewrite Z.sub_0_r.
  destruct ((n =? 3) && (0 =? 0) && (w >=? 8)) eqn:Hfast.
  - apply andb_prop in Hfast as [Hfast Hw8]. apply andb_prop in Hfast as [Hn3 _].
    apply Z.eqb_eq in Hn3. subst n. apply Z.geb_le in Hw8.
    destruct (Hcol 0) as (c0 & H0 & _); [lia|].
    destruct (Hcol 1) as (c1 & H1 & _); [lia|].
    destruct (Hcol 2) as (c2 & H2 & _); [lia|].
    rewrite H0, H1, H2. simpl.
    destruct (align_switch m dp w color c0 c1 c2 Hcol H0 H1 H2 Hdp Hw8 Hfit)
      as (j & m1 & Hj & -> & Hm1). simpl.
    destruct (word_loop m dp w color c0 c1 c2 Hcol H0 H1 H2 Hdp Hw8 Hfit m1 j Hj Hm1)
      as (m2 & t & Hwt & Ht & -> & Hm2). simpl.
    destruct (Z.eqb_spec (w - t - 4 + 4) 0); [lia|].
    pose proof Hm2 as (Hlen2 & Hout2 & _).
    destruct (solid_bytewise_loop m2 (dp + 3 * t) 3 (w - t - 4 + 4) color)
      as (m3 & -> & Hlen3 & Hout3 & Hin3); [lia|lia|done|lia|lia|].
    simpl. exists m3. split_and!; [done|congruence| |].
    + intros p Hp. rewrite Hout3 by lia. apply Hout2. lia.
    + intros i k c Hi Hk Hc. destruct (Z.lt_ge_cases i t) as [Hlt|Hge].
      * rewrite Hout3 by lia. apply (filled_pixels m m2 dp color 3 t); [lia| |lia|done|done].
        by rewrite Z.mul_comm.
      * replace (dp + i * 3 + k) with (dp + 3 * t + (i - t) * 3 + k) by lia.
        apply Hin3; [lia|done|done].
  - destruct (solid_bytewise_loop m dp n w color) as (m' & -> & Hlen & Hout & Hin);
      [done..|].
    simpl. by exists m'.
Qed.

Lemma solid_switch_default {A : Type} (n : Z) (b c d e : A) :
  n ≠ 1 → n ≠ 3 → n ≠ 4 →
  match n with 1 => b | 3 => c | 4 => d | _ => e end = e.
Proof.
  intros.
  destruct n as [|p|p]; [done| |done].
  destruct p as [p|p|]; [|destruct p as [p|p|]; [done| |done]; by destruct p|done].
  destruct p as [p|p|]; done.
Qed.

(** X8: for a destination without alpha and an opaque color, the painter handed
    out fills the [w] pixels with the color and writes nothing else. *)
Theorem opaque_solid_color_fills cfg n (color : list Z) f (m : mem) dp w :
  fz_get_solid_color_painter cfg n color 0 = Some f →
  load color n = Some 255 →
  1 ≤ n → 1 ≤ w →
  (∀ k, 0 ≤ k < n → byte_at color k) →
  0 ≤ dp → dp + w * n ≤ Z.of_nat (length m) →
  ∃ m',
    f m dp n w color 0 = Some m' ∧
    length m' = length m ∧
    same_outside m m' dp (dp + w * n) ∧
    pixels_colored m' dp n color 0 w.
Proof.
  intros Hf Halpha Hn Hw Hcol Hdp Hfit.
  pose proof (template_solid_color_N_256_fill m dp n w color Hn Hw Hcol Hdp Hfit) as Hfill.
  unfold fz_get_solid_color_painter in Hf. rewrite Z.sub_0_r in Hf.
  assert (∀ k, k = n → bool_decide (load color k = Some 255) = true) as Hdec.
  { intros k ->. by apply bool_decide_eq_true. }
  assert (n = 1 ∨ n = 3 ∨ n = 4 ∨ (n ≠ 1 ∧ n ≠ 3 ∧ n ≠ 4)) as Hcases by lia.
  destruct Hcases as [-> | [-> | [-> | (? & ? & ?)]]];
    [| | |rewrite solid_switch_default in Hf by done];
    simpl in Hf; rewrite !Hdec in Hf by done;
    destruct (FZ_PLOTTERS_N cfg), (FZ_PLOTTERS_G cfg), (FZ_PLOTTERS_RGB cfg),
      (FZ_PLOTTERS_CMYK cfg); simplify_eq; exact Hfill.
Qed.

Lemma opaque_solid_color_fills_witness :
  ∃ m',
    paint_solid_color_3 (replicate 30%nat 0) 1 3 9 [10; 20; 30; 255] 0 = Some m' ∧
    length m' = length (replicate 30%nat 0) ∧
    same_outside (replicate 30%nat 0) m' 1 (1 + 9 * 3) ∧
    pixels_colored m' 1 3 [10; 20; 30; 255] 0 9.
Proof.
  apply (opaque_solid_color_fills default_config 3 [10; 20; 30; 255] paint_solid_color_3
           (replicate 30%nat 0) 1 9); [reflexivity|reflexivity|lia|lia| |lia|simpl; lia].
  intros k Hk. apply byte_at_Forall; [all_bytes|simpl; lia].
Defined.

Lemma FZ_BLEND_between s d a :
  0 ≤ a ≤ 256 → Z.min s d ≤ FZ_BLEND s d a ≤ Z.max s d.
Proof.
  intros Ha. unfold FZ_BLEND, FZ_COMBINE.
  rewrite Z.shiftr_div_pow2 by lia. change (2 ^ 8) with 256.
  pose proof (Z.div_mod ((s - d) * a) 256 ltac:(lia)) as Hdm.
  pose proof (Z.mod_pos_bound ((s - d) * a) 256 ltac:(lia)) as Hr.
  destruct (Z.le_ge_cases s d); nia.
Qed.

Lemma FZ_BLEND_byte s d a : is_byte s → is_byte d → 0 ≤ a ≤ 256 → is_byte (FZ_BLEND s d a).
Proof.
  unfold is_byte. intros Hs Hd Ha. pose proof (FZ_BLEND_between s d a Ha). lia.
Qed.

Lemma FZ_BLEND_256 s d : FZ_BLEND s d 256 = s.
Proof. unfold FZ_BLEND. rewrite FZ_COMBINE_256. lia. Qed.

Lemma FZ_COMBINE_range a b : 0 ≤ a ≤ 256 → 0 ≤ b ≤ 256 → 0 ≤ FZ_COMBINE a b ≤ 256.
Proof.
  intros Ha Hb. unfold FZ_COMBINE. rewrite Z.shiftr_div_pow2 by lia. change (2 ^ 8) with 256.
  split; [apply Z.div_pos; nia|].
  apply Z.lt_succ_r. apply Z.div_lt_upper_bound; nia.
Qed.

Lemma byte_of_load (l : list Z) p v : load l p = Some v → byte_of l p = v.
Proof. unfold byte_of. by intros ->. Qed.

Lemma byte_at_load (l : list Z) p :
  byte_at l p → load l p = Some (byte_of l p) ∧ is_byte (byte_of l p).
Proof. intros (v & Hv & Hb). by rewrite (byte_of_load _ _ _ Hv). Qed.

Lemma painted_nil (m : mem) dp n G : painted m m dp n 0 G.
Proof. split_and!; [done|by intros p Hp|intros i k d Hi; lia]. Qed.

Lemma painted_snoc (m0 m1 m2 : mem) dp n i G :
  0 ≤ i → 0 ≤ n →
  painted m0 m1 dp n i G →
  painted m1 m2 (dp + i * n) n 1 (λ _, G i) →
  painted m0 m2 dp n (i + 1) G.
Proof.
  intros Hi Hn (Hlen1 & Hout1 & Hin1) (Hlen2 & Hout2 & Hin2). split_and!.
  - congruence.
  - intros p Hp. rewrite Hout2 by nia. apply Hout1. nia.
  - intros j k d Hj Hk Hd. destruct (decide (j = i)) as [-> | Hne].
    + specialize (Hin2 0 k d). rewrite Z.mul_0_l, Z.add_0_r in Hin2.
      apply Hin2; [lia|done|]. rewrite Hout1 by nia. done.
    + rewrite Hout2 by nia. apply Hin1; [lia|done|done].
Qed.

Lemma painted_ext (m0 m : mem) dp n w G G' :
  (∀ i k d, 0 ≤ i < w → 0 ≤ k < n → load m0 (dp + i * n + k) = Some d → G i k d = G' i k d) →
  painted m0 m dp n w G → painted m0 m dp n w G'.
Proof.
  intros Heq (Hlen & Hout & Hin). split_and!; [done..|].
  intros i k d Hi Hk Hd. rewrite <- Heq by done. by apply Hin.
Qed.

Lemma painted_skip (m : mem) dp n w G :
  (∀ i k d, 0 ≤ i < w → 0 ≤ k < n → load m (dp + i * n + k) = Some d → G i k d = d) →
  painted m m dp n w G.
Proof.
  intros Heq. split_and!; [done|by intros p Hp|].
  intros i k d Hi Hk Hd. by rewrite Heq.
Qed.

Lemma painted_bytes (m0 m : mem) p n (g : Z → Z → Z) :
  painted m0 m p 1 n (λ k _, g k) → painted m0 m p n 1 (λ _, g).
Proof.
  intros (Hlen & Hout & Hin). split_and!; [done| |].
  - intros q Hq. apply Hout. lia.
  - intros i k d Hi Hk Hd. assert (i = 0) as -> by lia.
    rewrite Z.mul_0_l, Z.add_0_r in *.
    specialize (Hin k 0 d). rewrite Z.mul_1_r, Z.add_0_r in Hin. apply Hin; [lia|lia|done].
Qed.

(** Storing the next byte of a pixel. *)
Lemma store_painted (m0 m : mem) p k (g : Z → Z → Z) q d v :
  painted m0 m p 1 k (λ k _, g k) →
  0 ≤ k → q = p + k → load m0 q = Some d → v `mod` 256 = g k d →
  load m q = Some d ∧
  ∃ m', store m q v = Some m' ∧ painted m0 m' p 1 (k + 1) (λ k _, g k).
Proof.
  intros (Hlen & Hout & Hin) Hk -> Hd Hv.
  pose proof (load_bounds _ _ _ Hd) as Hfit.
  split; [rewrite Hout by lia; done|].
  destruct (store m (p + k) v) as [m'|] eqn:Hst.
  2:{ rewrite store_Some in Hst by lia. done. }
  exists m'. split; [done|]. split_and!.
  - by rewrite (store_length _ _ _ _ Hst).
  - intros q Hq. rewrite (load_store _ _ _ _ q Hst).
    case_decide; [lia|]. apply Hout. lia.
  - intros i j d' Hi Hj Hd'. assert (j = 0) as -> by lia.
    rewrite Z.mul_1_r, Z.add_0_r in *.
    rewrite (load_store _ _ _ _ _ Hst). case_decide as Hik.
    + assert (i = k) as -> by lia. congruence.
    + specialize (Hin i 0 d'). rewrite Z.mul_1_r, Z.add_0_r in Hin.
      apply Hin; [lia|lia|done].
Qed.

(** *** Solid color, translucent *)

Lemma blend_color_painted (m0 m : mem) (color : list Z) p sa k :
  painted m0 m p 1 k (λ k _ d, FZ_BLEND (byte_of color k) d sa) →
  0 ≤ k → 0 ≤ sa ≤ 256 → byte_at color k → byte_at m0 (p + k) →
  ∃ m', blend_color color p sa k m = Some m' ∧
        painted m0 m' p 1 (k + 1) (λ k _ d, FZ_BLEND (byte_of color k) d sa).
Proof.
  intros Hm Hk Hsa [Hc Hbc]%byte_at_load (d & Hd & Hbd).
  destruct (store_painted m0 m p k (λ k d, FZ_BLEND (byte_of color k) d sa) (p + k) d
              (FZ_BLEND (byte_of color k) d sa) Hm) as (Hl & m' & Hst & Hm');
    [done..|by apply Z.mod_small, FZ_BLEND_byte|].
  exists m'. unfold blend_color. rewrite Hc. simpl. rewrite Hl. simpl. done.
Qed.

Lemma blend_pixel_painted (m : mem) (color : list Z) p n sa :
  0 ≤ n → 0 ≤ sa ≤ 256 →
  (∀ k, 0 ≤ k < n → byte_at color k) → (∀ k, 0 ≤ k < n → byte_at m (p + k)) →
  ∃ m', for_loop 0 n (blend_color color p sa) m = Some m' ∧
        painted m m' p n 1 (λ _ k d, FZ_BLEND (byte_of color k) d sa).
Proof.
  intros Hn Hsa Hcol Hdst.
  destruct (for_loop_inv (blend_color color p sa)
              (λ k m', painted m m' p 1 (Z.of_nat k) (λ k _ d, FZ_BLEND (byte_of color k) d sa))
              0 n m) as (m' & Hrun & Hm').
  - apply painted_nil.
  - intros k m1 Hk Hm1. rewrite Z.add_0_l in *.
    destruct (blend_color_painted m m1 color p sa (Z.of_nat k) Hm1) as (m2 & Hb & Hm2);
      [lia|done|apply Hcol; lia|apply Hdst; lia|].
    exists m2. split; [done|]. by replace (Z.of_nat (S k)) with (Z.of_nat k + 1) by lia.
  - exists m'. split; [done|]. apply painted_bytes.
    by rewrite Z.sub_0_r, Z2Nat.id in Hm' by lia.
Qed.

(** Without destination alpha the translucent template blends the color into
    every byte of the [w] pixels and writes nothing outside them. *)
Lemma template_solid_color_N_sa_painted (m : mem) dp n w (color : list Z) sa :
  1 ≤ n → 1 ≤ w → 0 ≤ sa ≤ 256 →
  (∀ k, 0 ≤ k < n → byte_at color k) →
  (∀ p, dp ≤ p < dp + w * n → byte_at m p) →
  ∃ m',
    template_solid_color_N_sa m dp n w color 0 sa = Some m' ∧
    painted m m' dp n w (λ _ k d, FZ_BLEND (byte_of color k) d sa).
Proof.
  intros Hn Hw Hsa Hcol Hdst. unfold template_solid_color_N_sa.
  rewrite Z.sub_0_r.
  lazymatch goal with |- context [do_while ?b _ _] => set (body := b) end.
  destruct (do_while_inv body
    (λ i '(m1, d1), d1 = dp + Z.of_nat i * n ∧
       painted m m1 dp n (Z.of_nat i) (λ _ k d, FZ_BLEND (byte_of color k) d sa))
    (Z.to_nat w) (m, dp)) as ([m' d'] & Hrun & _ & Hall).
  - lia.
  - split; [lia|]. apply painted_nil.
  - intros i [m1 d1] Hi (-> & Hm1).
    unfold body, solid_pixel_sa.
    destruct (blend_pixel_painted m1 color (dp + Z.of_nat i * n) n sa) as (m2 & -> & Hm2);
      [lia|done|done| |].
    { intros k Hk. destruct Hm1 as (_ & Hout & _).
      destruct (Hdst (dp + Z.of_nat i * n + k)) as (d & Hd & Hbd); [nia|].
      exists d. split; [|done]. rewrite Hout by nia. done. }
    simpl. eexists. split; [done|]. split; [lia|].
    replace (Z.of_nat (S i)) with (Z.of_nat i + 1) by lia.
    apply (painted_snoc m m1 m2); [lia|lia|done|done].
  - exists m'. rewrite Hrun. simpl. split; [done|].
    by rewrite Z2Nat.id in Hall by lia.
Qed.

(** X9: for a destination without alpha and a color that is not opaque, the
    painter handed out blends the color into every byte of the [w] pixels,
    weighted by the expanded alpha of the color, and writes nothing else. *)
Theorem translucent_solid_color_blends cfg n (color : list Z) f (m : mem) dp w a :
  fz_get_solid_color_painter cfg n color 0 = Some f →
  load color n = Some a → is_byte a → a ≠ 255 →
  1 ≤ n → 1 ≤ w →
  (∀ k, 0 ≤ k < n → byte_at color k) →
  (∀ p, dp ≤ p < dp + w * n → byte_at m p) →
  ∃ m',
    f m dp n w color 0 = Some m' ∧
    length m' = length m ∧
    same_outside m m' dp (dp + w * n) ∧
    ∀ i k c d, 0 ≤ i < w → 0 ≤ k < n →
      load color k = Some c → load m (dp + i * n + k) = Some d →
      load m' (dp + i * n + k) = Some (FZ_BLEND c d (FZ_EXPAND a)).
Proof.
  intros Hf Halpha Hba Ha Hn Hw Hcol Hdst.
  destruct (template_solid_color_N_sa_painted m dp n w color (FZ_EXPAND a) Hn Hw
              (FZ_EXPAND_range a Hba) Hcol Hdst) as (m' & Hrun & Hlen & Hout & Hin).
  assert (∃ m', (c ← load color n; template_solid_color_N_sa m dp n w color 0 (FZ_EXPAND c))
                = Some m' ∧ length m' = length m ∧ same_outside m m' dp (dp + w * n) ∧
            ∀ i k c d, 0 ≤ i < w → 0 ≤ k < n →
              load color k = Some c → load m (dp + i * n + k) = Some d →
              load m' (dp + i * n + k) = Some (FZ_BLEND c d (FZ_EXPAND a))) as Hfill.
  { exists m'. rewrite Halpha. simpl. split_and!; [done..|].
    intros i k c d Hi Hk Hc Hd. rewrite (Hin i k d) by done.
    by rewrite (byte_of_load _ _ _ Hc). }
  unfold fz_get_solid_color_painter in Hf. rewrite Z.sub_0_r in Hf.
  assert (∀ k, k = n → bool_decide (load color k = Some 255) = false) as Hdec.
  { intros k ->. apply bool_decide_eq_false. congruence. }
  assert (n = 1 ∨ n = 3 ∨ n = 4 ∨ (n ≠ 1 ∧ n ≠ 3 ∧ n ≠ 4)) as Hcases by lia.
  destruct Hcases as [-> | [-> | [-> | (? & ? & ?)]]];
    [| | |rewrite solid_switch_default in Hf by done];
    simpl in Hf; rewrite !Hdec in Hf by done;
    destruct (FZ_PLOTTERS_N cfg), (FZ_PLOTTERS_G cfg), (FZ_PLOTTERS_RGB cfg),
      (FZ_PLOTTERS_CMYK cfg); simplify_eq; exact Hfill.
Qed.

Lemma translucent_solid_color_blends_witness :
  ∃ m',
    paint_solid_color_1_alpha [10; 20] 0 1 2 [200; 128] 0 = Some m' ∧
    length m' = length [10; 20] ∧
    same_outside [10; 20] m' 0 (0 + 2 * 1) ∧
    ∀ i k c d, 0 ≤ i < 2 → 0 ≤ k < 1 →
      load [200; 128] k = Some c → load [10; 20] (0 + i * 1 + k) = Some d →
      load m' (0 + i * 1 + k) = Some (FZ_BLEND c d (FZ_EXPAND 128)).
Proof.
  apply (translucent_solid_color_blends default_config 1 [200; 128] paint_solid_color_1_alpha
           [10; 20] 0 2 128); [reflexivity|reflexivity|unfold is_byte; lia|lia|lia|lia| |].
  - intros k Hk. apply byte_at_Forall; [all_bytes|simpl; lia].
  - intros p Hp. apply byte_at_Forall; [all_bytes|simpl; lia].
Defined.

(** ** Span painters with a color and a mask *)

Lemma for_loop_unrolled {St : Type} (body : Z → St → option St) (n : Z) (s : St) :
  (s ← (if n >? 0 then body 0 s else Some s);
   s ← (if n >? 1 then body 1 s else Some s);
   s ← (if n >? 2 then body 2 s else Some s);
   for_loop 3 n body s) = for_loop 0 n body s.
Proof.
  unfold for_loop.
  destruct (Z.gtb_spec n 0) as [H0|H0].
  2:{ destruct (Z.gtb_spec n 1); [lia|]. destruct (Z.gtb_spec n 2); [lia|].
      by rewrite !Z2Nat.nonpos by lia. }
  destruct (Z.gtb_spec n 1) as [H1|H1].
  2:{ destruct (Z.gtb_spec n 2); [lia|]. assert (n = 1) as -> by lia. simpl.
      by destruct (body 0 s). }
  destruct (Z.gtb_spec n 2) as [H2|H2].
  2:{ assert (n = 2) as -> by lia. simpl.
      destruct (body 0 s) as [s1|]; [|done]. simpl. change (0 + 1) with 1.
      by destruct (body 1 s1). }
  replace (Z.to_nat (n - 0)) with (S (S (S (Z.to_nat (n - 3))))) by lia.
  simpl. change (0 + 1 + 1 + 1) with 3. change (0 + 1 + 1) with 2. change (0 + 1) with 1.
  destruct (body 0 s) as [s1|]; [|done]. simpl.
  destruct (body 1 s1) as [s2|]; [|done]. simpl.
  destruct (body 2 s2) as [s3|]; done.
Qed.

Lemma copy_color_painted (m0 m : mem) (color : list Z) p k :
  painted m0 m p 1 k (λ k _ _, byte_of color k) →
  0 ≤ k → byte_at color k → byte_at m0 (p + k) →
  ∃ m', copy_color color p k m = Some m' ∧
        painted m0 m' p 1 (k + 1) (λ k _ _, byte_of color k).
Proof.
  intros Hm Hk [Hc Hbc]%byte_at_load (d & Hd & Hbd).
  destruct (store_painted m0 m p k (λ k _, byte_of color k) (p + k) d (byte_of color k) Hm)
    as (Hl & m' & Hst & Hm'); [done..|by apply Z.mod_small|].
  exists m'. unfold copy_color. rewrite Hc. simpl. done.
Qed.

Lemma copy_pixel_painted (m : mem) (color : list Z) p n :
  0 ≤ n →
  (∀ k, 0 ≤ k < n → byte_at color k) → (∀ k, 0 ≤ k < n → byte_at m (p + k)) →
  ∃ m', for_loop 0 n (copy_color color p) m = Some m' ∧
        painted m m' p n 1 (λ _ k _, byte_of color k).
Proof.
  intros Hn Hcol Hdst.
  destruct (for_loop_inv (copy_color color p)
              (λ k m', painted m m' p 1 (Z.of_nat k) (λ k _ _, byte_of color k)) 0 n m)
    as (m' & Hrun & Hm').
  - apply painted_nil.
  - intros k m1 Hk Hm1. rewrite Z.add_0_l in *.
    destruct (copy_color_painted m m1 color p (Z.of_nat k) Hm1) as (m2 & Hb & Hm2);
      [lia|apply Hcol; lia|apply Hdst; lia|].
    exists m2. split; [done|]. by replace (Z.of_nat (S k)) with (Z.of_nat k + 1) by lia.
  - exists m'. split; [done|]. apply (painted_bytes m m' p n (λ k _, byte_of color k)).
    by rewrite Z.sub_0_r, Z2Nat.id in Hm' by lia.
Qed.

(** A span loop that steps through a coverage mask paints the span when each
    round paints its pixel. *)
Lemma mask_loop_painted (step : mem → Z → Z → option mem) (msk : list Z) (G : Z → Z → Z → Z)
    (m : mem) dp mp n w :
  1 ≤ w → 0 ≤ n →
  (∀ p, dp ≤ p < dp + w * n → byte_at m p) →
  (∀ i, 0 ≤ i < w → byte_at msk (mp + i)) →
  (∀ m1 p a, (∀ k, 0 ≤ k < n → byte_at m1 (p + k)) → is_byte a →
     ∃ m2, step m1 p a = Some m2 ∧ painted m1 m2 p n 1 (λ _ k d, G a k d)) →
  ∃ m',
    (λ s, s.1.1) <$> do_while (λ '(m, dp, mp),
      ma ← load msk mp; m ← step m dp ma; Some (m, dp + n, mp + 1))
      (Z.to_nat w) (m, dp, mp) = Some m' ∧
    painted m m' dp n w (λ i, G (byte_of msk (mp + i))).
Proof.
  intros Hw Hn Hdst Hmsk Hstep.
  lazymatch goal with |- context [do_while ?b _ _] => set (body := b) end.
  destruct (do_while_inv body
    (λ i '(m1, d1, p1), d1 = dp + Z.of_nat i * n ∧ p1 = mp + Z.of_nat i ∧
       painted m m1 dp n (Z.of_nat i) (λ i, G (byte_of msk (mp + i))))
    (Z.to_nat w) (m, dp, mp)) as ([[m' d'] p'] & Hrun & _ & _ & Hall).
  - lia.
  - split_and!; [lia|lia|apply painted_nil].
  - intros i [[m1 d1] p1] Hi (-> & -> & Hm1). unfold body.
    destruct (byte_at_load msk (mp + Z.of_nat i)) as [Ha Hba]; [apply Hmsk; lia|].
    rewrite Ha. simpl.
    destruct (Hstep m1 (dp + Z.of_nat i * n) (byte_of msk (mp + Z.of_nat i)))
      as (m2 & -> & Hm2); [|done|].
    { intros k Hk. destruct Hm1 as (_ & Hout & _).
      destruct (Hdst (dp + Z.of_nat i * n + k)) as (d & Hd & Hbd); [nia|].
      exists d. split; [|done]. rewrite Hout by nia. done. }
    simpl. eexists. split; [done|]. split_and!; [lia|lia|].
    replace (Z.of_nat (S i)) with (Z.of_nat i + 1) by lia.
    apply (painted_snoc m m1 m2); [lia|lia|done|done].
  - exists m'. rewrite Hrun. simpl. split; [done|].
    by rewrite Z2Nat.id in Hall by lia.
Qed.

Lemma template_span_with_color_N_general_painted (m : mem) dp (msk : list Z) mp n w
    (color : list Z) ca :
  1 ≤ n → 1 ≤ w →
  load color n = Some ca → is_byte ca →
  (∀ k, 0 ≤ k < n → byte_at color k) →
  (∀ p, dp ≤ p < dp + w * n → byte_at m p) →
  (∀ i, 0 ≤ i < w → byte_at msk (mp + i)) →
  ∃ m',
    template_span_with_color_N_general m dp msk mp n w color 0 = Some m' ∧
    painted m m' dp n w
      (λ i k d, FZ_BLEND (byte_of color k) d
                  (FZ_COMBINE (FZ_EXPAND (byte_of msk (mp + i))) (FZ_EXPAND ca))).
Proof.
  intros Hn Hw Hca Hbca Hcol Hdst Hmsk. unfold template_span_with_color_N_general.
  rewrite Z.sub_0_r, Hca. simpl.
  pose proof (FZ_EXPAND_range ca Hbca) as Hsa.
  destruct (Z.eqb_spec (FZ_EXPAND ca) 0) as [E0|N0].
  { exists m. split; [done|]. apply painted_skip. intros i k d _ _ _.
    by rewrite E0, FZ_COMBINE_zero_r, FZ_BLEND_zero. }
  destruct (Z.eqb_spec (FZ_EXPAND ca) 256) as [E256|N256].
  - rewrite E256.
    apply (mask_loop_painted
             (λ m dp ma,
                if FZ_EXPAND ma =? 0 then Some m
                else if FZ_EXPAND ma =? 256 then span_color_pixel_256 m dp n color 0
                else span_color_pixel_blend m dp n color 0 (FZ_EXPAND ma))
             msk (λ a k d, FZ_BLEND (byte_of color k) d (FZ_COMBINE (FZ_EXPAND a) 256)));
      [done|lia|done|done|].
    intros m1 p a Hm1 Hba. pose proof (FZ_EXPAND_range a Hba) as He.
    rewrite FZ_COMBINE_256.
    destruct (Z.eqb_spec (FZ_EXPAND a) 0) as [Ea0|Na0].
    { exists m1. split; [done|]. apply painted_skip. intros i k d _ _ _.
      by rewrite Ea0, FZ_BLEND_zero. }
    destruct (Z.eqb_spec (FZ_EXPAND a) 256) as [Ea256|Na256].
    + unfold span_color_pixel_256.
      pose proof (for_loop_unrolled (copy_color color p) n m1) as Hun. simpl in Hun.
      destruct (copy_pixel_painted m1 color p n) as (m2 & Hrun & Hm2); [lia|done|done|].
      rewrite <- Hun in Hrun. exists m2. split.
      * revert Hrun. clear.
        destruct (if n >? 0 then copy_color color p 0 m1 else Some m1) as [ma|]; [|done].
        simpl.
        destruct (if n >? 1 then copy_color color p 1 ma else Some ma) as [mb|]; [|done].
        simpl.
        destruct (if n >? 2 then copy_color color p 2 mb else Some mb) as [mc|]; [|done].
        simpl. by destruct (for_loop 3 n (copy_color color p) mc).
      * eapply painted_ext; [|exact Hm2]. intros i k d _ _ _. simpl.
        by rewrite Ea256, FZ_BLEND_256.
    + unfold span_color_pixel_blend.
      destruct (blend_pixel_painted m1 color p n (FZ_EXPAND a)) as (m2 & -> & Hm2);
        [lia|lia|done|done|].
      exists m2. done.
  - apply (mask_loop_painted
             (λ m dp ma, solid_pixel_sa m dp n color 0 (FZ_COMBINE (FZ_EXPAND ma) (FZ_EXPAND ca)))
             msk (λ a k d, FZ_BLEND (byte_of color k) d
                             (FZ_COMBINE (FZ_EXPAND a) (FZ_EXPAND ca))));
      [done|lia|done|done|].
    intros m1 p a Hm1 Hba. pose proof (FZ_EXPAND_range a Hba) as He.
    unfold solid_pixel_sa.
    destruct (blend_pixel_painted m1 color p n (FZ_COMBINE (FZ_EXPAND a) (FZ_EXPAND ca)))
      as (m2 & -> & Hm2); [lia|by apply FZ_COMBINE_range|done|done|].
    exists m2. done.
Qed.

(** X10: for a destination without alpha, the painter handed out for a color and
    a coverage mask blends the color into every byte of the [w] pixels,
    weighted by the expanded mask byte of the pixel combined with the
    expanded alpha of the color, and writes nothing else. *)
Theorem span_color_painter_blends cfg n (color : list Z) f (m : mem) dp (msk : list Z) mp w ca :
  fz_get_span_color_painter cfg n 0 color = Some f →
  load color n = Some ca → is_byte ca →
  1 ≤ n → 1 ≤ w →
  (∀ k, 0 ≤ k < n → byte_at color k) →
  (∀ p, dp ≤ p < dp + w * n → byte_at m p) →
  (∀ i, 0 ≤ i < w → byte_at msk (mp + i)) →
  ∃ m',
    f m dp msk mp n w color 0 = Some m' ∧
    length m' = length m ∧
    same_outside m m' dp (dp + w * n) ∧
    ∀ i k c a d, 0 ≤ i < w → 0 ≤ k < n →
      load color k = Some c → load msk (mp + i) = Some a →
      load m (dp + i * n + k) = Some d →
      load m' (dp + i * n + k)
      = Some (FZ_BLEND c d (FZ_COMBINE (FZ_EXPAND a) (FZ_EXPAND ca))).
Proof.
  intros Hf Hca Hbca Hn Hw Hcol Hdst Hmsk.
  destruct (template_span_with_color_N_general_painted m dp msk mp n w color ca
              Hn Hw Hca Hbca Hcol Hdst Hmsk) as (m' & Hrun & Hlen & Hout & Hin).
  exists m'. split_and!; [|done|done|].
  - unfold fz_get_span_color_painter in Hf. rewrite Z.sub_0_r in Hf.
    count_cases n Hf; simpl in Hf; flag_cases cfg; simplify_eq; done.
  - intros i k c a d Hi Hk Hc Ha Hd. rewrite (Hin i k d) by done.
    by rewrite (byte_of_load _ _ _ Hc), (byte_of_load _ _ _ Ha).
Qed.

Lemma span_color_painter_blends_witness :
  ∃ m',
    paint_span_with_color_1 [10; 20] 0 [0; 128] 0 1 2 [200; 255] 0 = Some m' ∧
    length m' = length [10; 20] ∧
    same_outside [10; 20] m' 0 (0 + 2 * 1) ∧
    ∀ i k c a d, 0 ≤ i < 2 → 0 ≤ k < 1 →
      load [200; 255] k = Some c → load [0; 128] (0 + i) = Some a →
      load [10; 20] (0 + i * 1 + k) = Some d →
      load m' (0 + i * 1 + k)
      = Some (FZ_BLEND c d (FZ_COMBINE (FZ_EXPAND a) (FZ_EXPAND 255))).
Proof.
  apply (span_color_painter_blends default_config 1 [200; 255] paint_span_with_color_1
           [10; 20] 0 [0; 128] 0 2 255);
    [reflexivity|reflexivity|unfold is_byte; lia|lia|lia| | |].
  - intros k Hk. apply byte_at_Forall; [all_bytes|simpl; lia].
  - intros p Hp. apply byte_at_Forall; [all_bytes|simpl; lia].
  - intros i Hi. apply byte_at_Forall; [all_bytes|simpl; lia].
Defined.

(** ** The specialised templates and the generic one *)

Lemma do_while_ext {St : Type} (body body' : St → option St) (w : nat) (s : St) :
  (∀ s, body s = body' s) → do_while body w s = do_while body' w s.
Proof.
  intros Hext. revert s. induction w as [|w IH]; intros s; [done|].
  simpl. rewrite Hext. destruct (body' s) as [s'|]; [|done]. simpl.
  destruct w; [done|]. apply IH.
Qed.

(** Runs the straight-line statements of the two sides in step. *)
Ltac in_step_with norm :=
  repeat (simpl; norm;
          first
            [ reflexivity
            | match goal with H : ?t = _ |- context [?t] => rewrite H end
            | match goal with
              | |- context [?a =? ?b] => destruct (a =? b) eqn:?
              | |- context [load ?l ?p] => destruct (load l p) eqn:?
              | |- context [put_src ?s ?m ?d ?p] => destruct (put_src s m d p) eqn:?
              | |- context [put_over ?s ?t ?m ?d ?p] => destruct (put_over s t m d p) eqn:?
              | |- context [put_combine2 ?s ?a ?b ?m ?d ?p] =>
                  destruct (put_combine2 s a b m d p) eqn:?
              | |- context [put_blend ?s ?a ?m ?d ?p] => destruct (put_blend s a m d p) eqn:?
              | |- context [put_blend_const ?v ?a ?m ?d] =>
                  destruct (put_blend_const v a m d) eqn:?
              | |- context [put_alpha_over ?s ?sa ?t ?m ?d ?p] =>
                  destruct (put_alpha_over s sa t m d p) eqn:?
              | |- context [put_blend_alpha ?s ?sa ?t ?m ?d ?p] =>
                  destruct (put_blend_alpha s sa t m d p) eqn:?
              | |- context [put_over_or_255 ?s ?sa ?t ?m ?d ?p] =>
                  destruct (put_over_or_255 s sa t m d p) eqn:?
              | |- context [store ?m ?p ?v] => destruct (store m p v) eqn:?
              end ]).

Ltac in_step := in_step_with idtac.

(** Pointer sums as an offset from the pixel. *)
Ltac offsets :=
  rewrite <- ?Z.add_assoc;
  repeat match goal with
         | |- context [Z.pos ?a + Z.pos ?b] =>
             let v := eval compute in (Z.pos a + Z.pos b) in
             change (Z.pos a + Z.pos b) with v
         | |- context [Z.pos ?a + 0] => change (Z.pos a + 0) with (Z.pos a)
         end.

Ltac open_templates :=
  unfold each_channel, for_loop, src_alpha, plane_weight, source_weight, truthy.

Ltac agree := f_equal; apply do_while_ext; intros [[[? ?] ?] ?]; in_step.

Ltac agree3 := f_equal; apply do_while_ext; intros [[? ?] ?]; in_step_with offsets.

Lemma template_span_with_mask_1_agrees (m : mem) dp da (src : list Z) sp sa
    (msk : list Z) mp w :
  sa = 0 ∨ da ≠ 0 →
  template_span_with_mask_1_general m dp da src sp sa msk mp w =
  template_span_with_mask_N_general m dp da src sp sa msk mp 1 w.
Proof.
  intros Hflags.
  unfold template_span_with_mask_1_general, template_span_with_mask_N_general.
  open_templates.
  destruct (Z.eqb_spec sa 0), (Z.eqb_spec da 0); try lia; agree.
Qed.

Lemma template_span_with_mask_3_agrees cfg (m : mem) dp da (src : list Z) sp sa
    (msk : list Z) mp w :
  sa = 0 ∨ da = 0 →
  template_span_with_mask_3_general cfg m dp da src sp sa msk mp w =
  template_span_with_mask_N_general m dp da src sp sa msk mp 3 w.
Proof.
  intros Hflags.
  unfold template_span_with_mask_3_general, template_span_with_mask_N_general.
  open_templates.
  destruct (Z.eqb_spec sa 0), (Z.eqb_spec da 0); try lia; agree.
Qed.

Lemma template_span_with_mask_4_agrees (m : mem) dp da (src : list Z) sp sa
    (msk : list Z) mp w :
  template_span_with_mask_4_general m dp da src sp sa msk mp w =
  template_span_with_mask_N_general m dp da src sp sa msk mp 4 w.
Proof.
  unfold template_span_with_mask_4_general, template_span_with_mask_N_general.
  open_templates.
  destruct (Z.eqb_spec sa 0), (Z.eqb_spec da 0); agree.
Qed.

Lemma template_span_1_with_alpha_agrees (m : mem) dp da (src : list Z) sp sa w alpha :
  template_span_1_with_alpha_general m dp da src sp sa w alpha =
  template_span_N_with_alpha_general m dp da src sp sa 1 w alpha.
Proof.
  unfold template_span_1_with_alpha_general, template_span_N_with_alpha_general.
  open_templates.
  destruct (Z.eqb_spec sa 0), (Z.eqb_spec da 0); agree3.
Qed.

Lemma template_span_3_with_alpha_agrees (m : mem) dp da (src : list Z) sp sa w alpha :
  template_span_3_with_alpha_general m dp da src sp sa w alpha =
  template_span_N_with_alpha_general m dp da src sp sa 3 w alpha.
Proof.
  unfold template_span_3_with_alpha_general, template_span_N_with_alpha_general.
  open_templates.
  destruct (Z.eqb_spec sa 0), (Z.eqb_spec da 0); agree3.
Qed.

Lemma template_span_4_with_alpha_agrees (m : mem) dp da (src : list Z) sp sa w alpha :
  template_span_4_with_alpha_general m dp da src sp sa w alpha =
  template_span_N_with_alpha_general m dp da src sp sa 4 w alpha.
Proof.
  unfold template_span_4_with_alpha_general, template_span_N_with_alpha_general.
  open_templates.
  destruct (Z.eqb_spec sa 0), (Z.eqb_spec da 0); agree3.
Qed.

Lemma template_span_1_agrees (m : mem) dp da (src : list Z) sp sa w :
  template_span_1_general m dp da src sp sa w =
  template_span_N_general m dp da src sp sa 1 w.
Proof.
  unfold template_span_1_general, template_span_N_general.
  open_templates.
  destruct (Z.eqb_spec sa 0), (Z.eqb_spec da 0); agree3.
Qed.

Lemma template_span_3_agrees cfg (m : mem) dp da (src : list Z) sp sa w :
  (da = 0 ∨ da = 1) → (sa = 0 ∨ sa = 1) → sa = 0 ∨ da = 0 →
  template_span_3_general cfg m dp da src sp sa w =
  template_span_N_general m dp da src sp sa 3 w.
Proof.
  intros Hda Hsa Hflags.
  unfold template_span_3_general, template_span_N_general.
  open_templates.
  destruct Hda as [-> | ->], Hsa as [-> | ->]; try lia; agree3.
Qed.

Lemma template_span_4_agrees (m : mem) dp da (src : list Z) sp sa w :
  (da = 0 ∨ da = 1) → (sa = 0 ∨ sa = 1) →
  template_span_4_general m dp da src sp sa w =
  template_span_N_general m dp da src sp sa 4 w.
Proof.
  intros Hda Hsa.
  unfold template_span_4_general, template_span_N_general.
  open_templates.
  destruct Hda as [-> | ->], Hsa as [-> | ->]; agree3.
Qed.

Lemma byte_testbit_high b j : is_byte b → 8 ≤ j → Z.testbit b j = false.
Proof.
  intros Hb Hj. destruct (decide (b = 0)) as [-> | Hnz]; [apply Z.bits_0|].
  apply Z.bits_above_log2; [unfold is_byte in Hb; lia|].
  assert (Z.log2 b < 8); [|lia].
  apply Z.log2_lt_pow2; unfold is_byte in Hb; lia.
Qed.

(** The byte at bit [8 * k] of a word made of four bytes. *)
Ltac word_byte :=
  apply Z.bits_inj'; intros i Hi;
  rewrite Z.land_spec, Z.shiftr_spec, !Z.lor_spec, ?Z.shiftl_spec by lia;
  destruct (Z.lt_ge_cases i 8);
  [ change 255 with (Z.ones 8); rewrite Z.ones_spec_low, andb_true_r by lia
  | change 255 with (Z.ones 8); rewrite Z.ones_spec_high, andb_false_r by lia ];
  repeat match goal with
         | |- context [Z.testbit ?b ?j] =>
             lazymatch j with
             | i => fail
             | _ => first [ replace j with i by lia
                          | rewrite (Z.testbit_neg_r b j) by lia
                          | rewrite (byte_testbit_high b j) by (done || lia) ]
             end
         end;
  rewrite ?orb_false_r, ?orb_false_l;
  first [done | symmetry; apply byte_testbit_high; done || lia].

Section word_copy.
Variables a b c d : Z.
Hypothesis (Ha : is_byte a) (Hb : is_byte b) (Hc : is_byte c) (Hd : is_byte d).

Lemma word_le_0 : Z.land (Z.lor (Z.lor a (b ≪ 8)) (Z.lor (c ≪ 16) (d ≪ 24)) ≫ 0) 255 = a.
Proof. word_byte. Qed.
Lemma word_le_8 : Z.land (Z.lor (Z.lor a (b ≪ 8)) (Z.lor (c ≪ 16) (d ≪ 24)) ≫ 8) 255 = b.
Proof. word_byte. Qed.
Lemma word_le_16 : Z.land (Z.lor (Z.lor a (b ≪ 8)) (Z.lor (c ≪ 16) (d ≪ 24)) ≫ 16) 255 = c.
Proof. word_byte. Qed.
Lemma word_le_24 : Z.land (Z.lor (Z.lor a (b ≪ 8)) (Z.lor (c ≪ 16) (d ≪ 24)) ≫ 24) 255 = d.
Proof. word_byte. Qed.
Lemma word_be_24 : Z.land (Z.lor (Z.lor (a ≪ 24) (b ≪ 16)) (Z.lor (c ≪ 8) d) ≫ 24) 255 = a.
Proof. word_byte. Qed.
Lemma word_be_16 : Z.land (Z.lor (Z.lor (a ≪ 24) (b ≪ 16)) (Z.lor (c ≪ 8) d) ≫ 16) 255 = b.
Proof. word_byte. Qed.
Lemma word_be_8 : Z.land (Z.lor (Z.lor (a ≪ 24) (b ≪ 16)) (Z.lor (c ≪ 8) d) ≫ 8) 255 = c.
Proof. word_byte. Qed.
Lemma word_be_0 : Z.land (Z.lor (Z.lor (a ≪ 24) (b ≪ 16)) (Z.lor (c ≪ 8) d) ≫ 0) 255 = d.
Proof. word_byte. Qed.
End word_copy.

(** Copying a word copies its four bytes. *)
Lemma word_copy (be : bool) (src : list Z) (m : mem) dp sp :
  (∀ p v, load src p = Some v → is_byte v) →
  (v ← load32 be src sp; store32 be m dp v) =
  (m ← put_src src m dp sp;
   m ← put_src src m (dp + 1) (sp + 1);
   m ← put_src src m (dp + 2) (sp + 2);
   put_src src m (dp + 3) (sp + 3)).
Proof.
  intros Hsrc. unfold load32, store32, put_src.
  destruct (load src sp) as [b0|] eqn:H0; simpl; [|done].
  destruct (load src (sp + 1)) as [b1|] eqn:H1; simpl.
  2:{ by destruct (store m dp b0). }
  destruct (load src (sp + 2)) as [b2|] eqn:H2; simpl.
  2:{ destruct (store m dp b0) as [m1|]; [|done]. simpl. by destruct (store m1 (dp + 1) b1). }
  destruct (load src (sp + 3)) as [b3|] eqn:H3; simpl.
  2:{ destruct (store m dp b0) as [m1|]; [|done]. simpl.
      destruct (store m1 (dp + 1) b1) as [m2|]; [|done]. simpl.
      by destruct (store m2 (dp + 2) b2). }
  apply Hsrc in H0, H1, H2, H3.
  destruct be.
  - by rewrite word_be_24, word_be_16, word_be_8, word_be_0.
  - by rewrite word_le_0, word_le_8, word_le_16, word_le_24.
Qed.

Lemma word_copy_then {A : Type} (be : bool) (src : list Z) (m : mem) dp sp
    (k : mem → option A) :
  (∀ p v, load src p = Some v → is_byte v) →
  (v ← load32 be src sp; m ← store32 be m dp v; k m) =
  (m ← put_src src m dp sp;
   m ← put_src src m (dp + 1) (sp + 1);
   m ← put_src src m (dp + 2) (sp + 2);
   m ← put_src src m (dp + 3) (sp + 3);
   k m).
Proof.
  intros Hsrc.
  transitivity ((v ← load32 be src sp; store32 be m dp v) ≫= k).
  { by destruct (load32 be src sp). }
  rewrite word_copy by done.
  destruct (put_src src m dp sp) as [m1|]; simpl; [|done].
  destruct (put_src src m1 (dp + 1) (sp + 1)) as [m2|]; simpl; [|done].
  by destruct (put_src src m2 (dp + 2) (sp + 2)).
Qed.

Lemma template_span_with_mask_3_word_agrees cfg (m : mem) dp da (src : list Z) sp sa
    (msk : list Z) mp w :
  (∀ p v, load src p = Some v → is_byte v) →
  da ≠ 0 → sa ≠ 0 →
  template_span_with_mask_3_general cfg m dp da src sp sa msk mp w =
  template_span_with_mask_N_general m dp da src sp sa msk mp 3 w.
Proof.
  intros Hsrc Hda Hsa.
  unfold template_span_with_mask_3_general, template_span_with_mask_N_general.
  open_templates.
  destruct (Z.eqb_spec sa 0), (Z.eqb_spec da 0); try lia.
  f_equal. apply do_while_ext. intros [[[? ?] ?] ?].
  in_step_with ltac:(rewrite ?word_copy_then by done; unfold put_src; offsets).
Qed.

Lemma template_span_3_word_agrees cfg (m : mem) dp (src : list Z) sp w :
  (∀ p v, load src p = Some v → is_byte v) →
  template_span_3_general cfg m dp 1 src sp 1 w =
  template_span_N_general m dp 1 src sp 1 3 w.
Proof.
  intros Hsrc.
  unfold template_span_3_general, template_span_N_general.
  open_templates.
  f_equal. apply do_while_ext. intros [[? ?] ?].
  in_step_with ltac:(rewrite ?word_copy, ?word_copy_then by done; unfold put_src; offsets).
Qed.

(** X11: the span-with-mask templates for one, three and four color channels
    compute what the generic template computes at these channel counts, for
    every combination of the alpha flags but one: the one-channel template
    with source alpha and without destination alpha. *)
Theorem span_mask_templates_agree cfg (m : mem) dp da (src : list Z) sp sa
    (msk : list Z) mp w :
  (∀ p v, load src p = Some v → is_byte v) →
  (sa = 0 ∨ da ≠ 0 →
   template_span_with_mask_1_general m dp da src sp sa msk mp w =
   template_span_with_mask_N_general m dp da src sp sa msk mp 1 w) ∧
  template_span_with_mask_3_general cfg m dp da src sp sa msk mp w =
  template_span_with_mask_N_general m dp da src sp sa msk mp 3 w ∧
  template_span_with_mask_4_general m dp da src sp sa msk mp w =
  template_span_with_mask_N_general m dp da src sp sa msk mp 4 w.
Proof.
  intros Hsrc. split_and!.
  - apply template_span_with_mask_1_agrees.
  - destruct (decide (sa = 0)); [apply template_span_with_mask_3_agrees; lia|].
    destruct (decide (da = 0)); [apply template_span_with_mask_3_agrees; lia|].
    by apply template_span_with_mask_3_word_agrees.
  - apply template_span_with_mask_4_agrees.
Qed.

Lemma span_mask_templates_agree_witness :
  template_span_with_mask_1_general [1; 2] 0 1 [9; 255] 0 1 [255] 0 1 =
  template_span_with_mask_N_general [1; 2] 0 1 [9; 255] 0 1 [255] 0 1 1 ∧
  template_span_with_mask_3_general default_config [1; 2; 3; 4] 0 1 [7; 8; 9; 255] 0 1 [255] 0 1 =
  template_span_with_mask_N_general [1; 2; 3; 4] 0 1 [7; 8; 9; 255] 0 1 [255] 0 3 1 ∧
  template_span_with_mask_4_general [1; 2; 3; 4] 0 0 [6; 7; 8; 9] 0 0 [128] 0 1 =
  template_span_with_mask_N_general [1; 2; 3; 4] 0 0 [6; 7; 8; 9] 0 0 [128] 0 4 1.
Proof.
  split; [|split].
  - apply (span_mask_templates_agree default_config [1; 2] 0 1 [9; 255] 0 1 [255] 0 1).
    + intros p v. apply load_Forall. all_bytes.
    + right. lia.
  - apply (span_mask_templates_agree default_config [1; 2; 3; 4] 0 1 [7; 8; 9; 255] 0 1
             [255] 0 1).
    intros p v. apply load_Forall. all_bytes.
  - apply (span_mask_templates_agree default_config [1; 2; 3; 4] 0 0 [6; 7; 8; 9] 0 0
             [128] 0 1).
    intros p v. apply load_Forall. all_bytes.
Defined.

(** X12: the span templates with a plane alpha for one, three and four color
    channels compute what the generic template computes at these channel
    counts. *)
Theorem span_alpha_templates_agree (m : mem) dp da (src : list Z) sp sa w alpha :
  template_span_1_with_alpha_general m dp da src sp sa w alpha =
  template_span_N_with_alpha_general m dp da src sp sa 1 w alpha ∧
  template_span_3_with_alpha_general m dp da src sp sa w alpha =
  template_span_N_with_alpha_general m dp da src sp sa 3 w alpha ∧
  template_span_4_with_alpha_general m dp da src sp sa w alpha =
  template_span_N_with_alpha_general m dp da src sp sa 4 w alpha.
Proof.
  split_and!; [apply template_span_1_with_alpha_agrees|
               apply template_span_3_with_alpha_agrees|
               apply template_span_4_with_alpha_agrees].
Qed.

(** X13: the span templates for one, three and four color channels compute what
    the generic template computes at these channel counts, the word copy of
    the three-channel one included. *)
Theorem span_templates_agree cfg (m : mem) dp da (src : list Z) sp sa w :
  (∀ p v, load src p = Some v → is_byte v) →
  da = 0 ∨ da = 1 → sa = 0 ∨ sa = 1 →
  template_span_1_general m dp da src sp sa w =
  template_span_N_general m dp da src sp sa 1 w ∧
  template_span_3_general cfg m dp da src sp sa w =
  template_span_N_general m dp da src sp sa 3 w ∧
  template_span_4_general m dp da src sp sa w =
  template_span_N_general m dp da src sp sa 4 w.
Proof.
  intros Hsrc Hda Hsa. split_and!.
  - apply template_span_1_agrees.
  - destruct Hda as [-> | ->], Hsa as [-> | ->];
      first [by apply template_span_3_word_agrees
            |apply template_span_3_agrees; lia].
  - by apply template_span_4_agrees.
Qed.

Lemma span_templates_agree_witness :
  template_span_1_general [1; 2] 0 1 [9; 255] 0 1 1 =
  template_span_N_general [1; 2] 0 1 [9; 255] 0 1 1 1 ∧
  template_span_3_general default_config [1; 2; 3; 4] 0 1 [7; 8; 9; 255] 0 1 1 =
  template_span_N_general [1; 2; 3; 4] 0 1 [7; 8; 9; 255] 0 1 3 1 ∧
  template_span_4_general [1; 2; 3; 4; 5] 0 1 [6; 7; 8; 9; 255] 0 1 1 =
  template_span_N_general [1; 2; 3; 4; 5] 0 1 [6; 7; 8; 9; 255] 0 1 4 1.
Proof.
  split; [|split].
  - apply (span_templates_agree default_config [1; 2] 0 1 [9; 255] 0 1 1);
      [intros p v; apply load_Forall; all_bytes|right; lia|right; lia].
  - apply (span_templates_agree default_config [1; 2; 3; 4] 0 1 [7; 8; 9; 255] 0 1 1);
      [intros p v; apply load_Forall; all_bytes|right; lia|right; lia].
  - apply (span_templates_agree default_config [1; 2; 3; 4; 5] 0 1 [6; 7; 8; 9; 255] 0 1 1);
      [intros p v; apply load_Forall; all_bytes|right; lia|right; lia].
Defined.

(** ** Span painters with a source *)

(** [each_channel] paints the bytes of a pixel when its statement stores, at
    channel [k], a value that is [g k d] once cut to a byte. *)
Lemma each_channel_bytes (stmt : mem → Z → Z → option mem) (g : Z → Z → Z)
    (m : mem) p q n :
  0 ≤ n →
  (∀ k, 0 ≤ k < n → byte_at m (p + k)) →
  (∀ m1 k d, 0 ≤ k < n → load m1 (p + k) = Some d → is_byte d →
     ∃ v, stmt m1 (p + k) (q + k) = store m1 (p + k) v ∧ v `mod` 256 = g k d) →
  ∃ m', each_channel n stmt m p q = Some (m', p + n, q + n) ∧
        painted m m' p 1 n (λ k _, g k).
Proof.
  intros Hn Hdst Hstmt. unfold each_channel.
  destruct (for_loop_inv
              (λ (_ : Z) '(m, dp, sp), m ← stmt m dp sp; Some (m, dp + 1, sp + 1))
              (λ k '(m', dp', sp'), dp' = p + Z.of_nat k ∧ sp' = q + Z.of_nat k ∧
                 painted m m' p 1 (Z.of_nat k) (λ k _, g k)) 0 n (m, p, q))
    as ([[m' dp'] sp'] & Hrun & Hdp & Hsp & Hm').
  - split_and!; [lia|lia|apply painted_nil].
  - intros k [[m1 d1] s1] Hk (-> & -> & Hm1). rewrite Z.add_0_l in Hk.
    destruct (Hdst (Z.of_nat k)) as (d & Hd & Hbd); [lia|].
    assert (load m1 (p + Z.of_nat k) = Some d) as Hd1.
    { destruct Hm1 as (_ & Hout & _). rewrite Hout by lia. done. }
    destruct (Hstmt m1 (Z.of_nat k) d) as (v & Hs & Hv); [lia|done|done|].
    destruct (store_painted m m1 p (Z.of_nat k) g (p + Z.of_nat k) d v Hm1)
      as (_ & m2 & Hst & Hm2); [lia|done|done|done|].
    exists (m2, p + Z.of_nat k + 1, q + Z.of_nat k + 1). rewrite Hs, Hst. simpl.
    split; [done|]. split_and!; [lia|lia|].
    by replace (Z.of_nat (S k)) with (Z.of_nat k + 1) by lia.
  - rewrite Z.sub_0_r, Z2Nat.id in * by lia. subst.
    exists m'. done.
Qed.

Lemma each_channel_painted (stmt : mem → Z → Z → option mem) (g : Z → Z → Z)
    (m : mem) p q n :
  0 ≤ n →
  (∀ k, 0 ≤ k < n → byte_at m (p + k)) →
  (∀ m1 k d, 0 ≤ k < n → load m1 (p + k) = Some d → is_byte d →
     ∃ v, stmt m1 (p + k) (q + k) = store m1 (p + k) v ∧ v `mod` 256 = g k d) →
  ∃ m', each_channel n stmt m p q = Some (m', p + n, q + n) ∧
        painted m m' p n 1 (λ _, g).
Proof.
  intros Hn Hdst Hstmt.
  destruct (each_channel_bytes stmt g m p q n Hn Hdst Hstmt) as (m' & Hrun & Hm').
  exists m'. split; [done|]. by apply painted_bytes.
Qed.

Lemma put_src_stores (src : list Z) (m : mem) dp sp :
  byte_at src sp →
  ∃ v, put_src src m dp sp = store m dp v ∧ v `mod` 256 = byte_of src sp.
Proof.
  intros [Hs Hb]%byte_at_load. exists (byte_of src sp). unfold put_src. rewrite Hs.
  split; [done|]. by apply Z.mod_small.
Qed.

Lemma put_blend_stores (src : list Z) e (m : mem) dp sp d :
  byte_at src sp → load m dp = Some d → is_byte d → 0 ≤ e ≤ 256 →
  ∃ v, put_blend src e m dp sp = store m dp v ∧ v `mod` 256 = FZ_BLEND (byte_of src sp) d e.
Proof.
  intros [Hs Hb]%byte_at_load Hd Hbd He. exists (FZ_BLEND (byte_of src sp) d e).
  unfold put_blend. rewrite Hs. simpl. rewrite Hd. simpl.
  split; [done|]. by apply Z.mod_small, FZ_BLEND_byte.
Qed.

(** A span loop that steps through a source of [ns] bytes a pixel paints the
    span when each round paints its pixel and advances by one pixel. *)
Lemma src_loop_painted (step : mem → Z → Z → option (mem * Z * Z)) (src : list Z)
    (G : Z → Z → Z → Z) (m : mem) dp sp n ns w :
  1 ≤ w → 0 ≤ n → 0 ≤ ns →
  (∀ p, dp ≤ p < dp + w * n → byte_at m p) →
  (∀ p, sp ≤ p < sp + w * ns → byte_at src p) →
  (∀ m1 p i, 0 ≤ i < w →
     (∀ k, 0 ≤ k < n → byte_at m1 (p + k)) →
     ∃ m2, step m1 p (sp + i * ns) = Some (m2, p + n, sp + i * ns + ns) ∧
           painted m1 m2 p n 1 (λ _, G i)) →
  ∃ m',
    (λ s, s.1.1) <$> do_while (λ '(m, dp, sp), step m dp sp) (Z.to_nat w) (m, dp, sp)
      = Some m' ∧
    painted m m' dp n w G.
Proof.
  intros Hw Hn Hns Hdst Hsrc Hstep.
  lazymatch goal with |- context [do_while ?b _ _] => set (body := b) end.
  destruct (do_while_inv body
    (λ i '(m1, d1, s1), d1 = dp + Z.of_nat i * n ∧ s1 = sp + Z.of_nat i * ns ∧
       painted m m1 dp n (Z.of_nat i) G)
    (Z.to_nat w) (m, dp, sp)) as ([[m' d'] s'] & Hrun & _ & _ & Hall).
  - lia.
  - split_and!; [lia|lia|apply painted_nil].
  - intros i [[m1 d1] s1] Hi (-> & -> & Hm1). unfold body.
    destruct (Hstep m1 (dp + Z.of_nat i * n) (Z.of_nat i)) as (m2 & -> & Hm2); [lia| |].
    { intros k Hk. destruct Hm1 as (_ & Hout & _).
      destruct (Hdst (dp + Z.of_nat i * n + k)) as (d & Hd & Hbd); [nia|].
      exists d. split; [|done]. rewrite Hout by nia. done. }
    eexists. split; [done|]. split_and!; [lia|lia|].
    replace (Z.of_nat (S i)) with (Z.of_nat i + 1) by lia.
    apply (painted_snoc m m1 m2); [lia|lia|done|done].
  - exists m'. rewrite Hrun. simpl. split; [done|].
    by rewrite Z2Nat.id in Hall by lia.
Qed.

(** The same with a coverage mask stepped through alongside. *)
Lemma src_mask_loop_painted (step : mem → Z → Z → Z → option (mem * Z * Z)) (src msk : list Z)
    (G : Z → Z → Z → Z → Z) (m : mem) dp sp mp n w :
  1 ≤ w → 0 ≤ n →
  (∀ p, dp ≤ p < dp + w * n → byte_at m p) →
  (∀ p, sp ≤ p < sp + w * n → byte_at src p) →
  (∀ i, 0 ≤ i < w → byte_at msk (mp + i)) →
  (∀ m1 p q a, (∀ k, 0 ≤ k < n → byte_at m1 (p + k)) →
     (∀ k, 0 ≤ k < n → byte_at src (q + k)) → is_byte a →
     ∃ m2, step m1 p q a = Some (m2, p + n, q + n) ∧ painted m1 m2 p n 1 (λ _, G a q)) →
  ∃ m',
    (λ s, s.1.1.1) <$> do_while (λ '(m, dp, sp, mp),
      ma ← load msk mp; '(m, dp, sp) ← step m dp sp ma; Some (m, dp, sp, mp + 1))
      (Z.to_nat w) (m, dp, sp, mp) = Some m' ∧
    painted m m' dp n w (λ i, G (byte_of msk (mp + i)) (sp + i * n)).
Proof.
  intros Hw Hn Hdst Hsrc Hmsk Hstep.
  lazymatch goal with |- context [do_while ?b _ _] => set (body := b) end.
  destruct (do_while_inv body
    (λ i '(m1, d1, s1, p1), d1 = dp + Z.of_nat i * n ∧ s1 = sp + Z.of_nat i * n ∧
       p1 = mp + Z.of_nat i ∧
       painted m m1 dp n (Z.of_nat i) (λ i, G (byte_of msk (mp + i)) (sp + i * n)))
    (Z.to_nat w) (m, dp, sp, mp)) as ([[[m' d'] s'] p'] & Hrun & _ & _ & _ & Hall).
  - lia.
  - split_and!; [lia|lia|lia|apply painted_nil].
  - intros i [[[m1 d1] s1] p1] Hi (-> & -> & -> & Hm1). unfold body.
    destruct (byte_at_load msk (mp + Z.of_nat i)) as [Ha Hba]; [apply Hmsk; lia|].
    rewrite Ha. simpl.
    destruct (Hstep m1 (dp + Z.of_nat i * n) (sp + Z.of_nat i * n)
                (byte_of msk (mp + Z.of_nat i))) as (m2 & -> & Hm2); [| |done|].
    { intros k Hk. destruct Hm1 as (_ & Hout & _).
      destruct (Hdst (dp + Z.of_nat i * n + k)) as (d & Hd & Hbd); [nia|].
      exists d. split; [|done]. rewrite Hout by nia. done. }
    { intros k Hk. apply Hsrc. nia. }
    simpl. eexists. split; [done|]. split_and!; [lia|lia|lia|].
    replace (Z.of_nat (S i)) with (Z.of_nat i + 1) by lia.
    apply (painted_snoc m m1 m2); [lia|lia|done|done].
  - exists m'. rewrite Hrun. simpl. split; [done|].
    by rewrite Z2Nat.id in Hall by lia.
Qed.

Lemma copy_channels (src : list Z) (m : mem) p q n :
  0 ≤ n →
  (∀ k, 0 ≤ k < n → byte_at m (p + k)) → (∀ k, 0 ≤ k < n → byte_at src (q + k)) →
  ∃ m', each_channel n (put_src src) m p q = Some (m', p + n, q + n) ∧
        painted m m' p n 1 (λ _ k _, byte_of src (q + k)).
Proof.
  intros Hn Hdst Hsrc.
  apply (each_channel_painted (put_src src) (λ k _, byte_of src (q + k))); [done..|].
  intros m1 k d Hk _ _. apply put_src_stores, Hsrc, Hk.
Qed.

Lemma blend_channels (src : list Z) e (m : mem) p q n :
  0 ≤ n → 0 ≤ e ≤ 256 →
  (∀ k, 0 ≤ k < n → byte_at m (p + k)) → (∀ k, 0 ≤ k < n → byte_at src (q + k)) →
  ∃ m', each_channel n (put_blend src e) m p q = Some (m', p + n, q + n) ∧
        painted m m' p n 1 (λ _ k d, FZ_BLEND (byte_of src (q + k)) d e).
Proof.
  intros Hn He Hdst Hsrc.
  apply (each_channel_painted (put_blend src e) (λ k d, FZ_BLEND (byte_of src (q + k)) d e));
    [done..|].
  intros m1 k d Hk Hd Hbd. apply put_blend_stores; [apply Hsrc, Hk|done..].
Qed.

(** *** Source through a mask, neither with alpha *)

Lemma template_span_with_mask_N_general_painted (m : mem) dp (src : list Z) sp
    (msk : list Z) mp n w :
  1 ≤ n → 1 ≤ w →
  (∀ p, dp ≤ p < dp + w * n → byte_at m p) →
  (∀ p, sp ≤ p < sp + w * n → byte_at src p) →
  (∀ i, 0 ≤ i < w → byte_at msk (mp + i)) →
  ∃ m',
    template_span_with_mask_N_general m dp 0 src sp 0 msk mp n w = Some m' ∧
    painted m m' dp n w
      (λ i k d, FZ_BLEND (byte_of src (sp + i * n + k)) d (FZ_EXPAND (byte_of msk (mp + i)))).
Proof.
  intros Hn Hw Hdst Hsrc Hmsk. unfold template_span_with_mask_N_general.
  apply (src_mask_loop_painted
           (λ m dp sp ma,
              if FZ_EXPAND ma =? 0 then Some (m, dp + (n + 0), sp + (n + 0))
              else if FZ_EXPAND ma =? 256 then
                '(m, dp, sp) ← each_channel n (put_src src) m dp sp; Some (m, dp, sp)
              else
                '(m, dp, sp) ← each_channel n (put_blend src (FZ_EXPAND ma)) m dp sp;
                Some (m, dp, sp))
           src msk (λ a q k d, FZ_BLEND (byte_of src (q + k)) d (FZ_EXPAND a)));
    [done|lia|done..|].
  intros m1 p q a Hm1 Hq Hba. pose proof (FZ_EXPAND_range a Hba) as He.
  destruct (Z.eqb_spec (FZ_EXPAND a) 0) as [E0|N0].
  { exists m1. rewrite !Z.add_0_r. split; [done|]. apply painted_skip.
    intros i k d _ _ _. by rewrite E0, FZ_BLEND_zero. }
  destruct (Z.eqb_spec (FZ_EXPAND a) 256) as [E256|N256].
  - destruct (copy_channels src m1 p q n) as (m2 & -> & Hm2); [lia|done..|].
    exists m2. split; [done|]. eapply painted_ext; [|exact Hm2].
    intros i k d _ _ _. simpl. by rewrite E256, FZ_BLEND_256.
  - destruct (blend_channels src (FZ_EXPAND a) m1 p q n) as (m2 & -> & Hm2); [lia|lia|done..|].
    exists m2. done.
Qed.

(** *** Source at a constant alpha, neither with alpha *)

Lemma template_span_N_with_alpha_general_painted (m : mem) dp (src : list Z) sp n w alpha :
  1 ≤ n → 1 ≤ w → 0 ≤ alpha ≤ 256 →
  (∀ p, dp ≤ p < dp + w * n → byte_at m p) →
  (∀ p, sp ≤ p < sp + w * n → byte_at src p) →
  ∃ m',
    template_span_N_with_alpha_general m dp 0 src sp 0 n w alpha = Some m' ∧
    painted m m' dp n w (λ i k d, FZ_BLEND (byte_of src (sp + i * n + k)) d alpha).
Proof.
  intros Hn Hw Ha Hdst Hsrc. unfold template_span_N_with_alpha_general.
  apply (src_loop_painted
           (λ m dp sp,
              '(m, dp, sp) ← each_channel n (put_blend src alpha) m dp sp; Some (m, dp, sp))
           src (λ i k d, FZ_BLEND (byte_of src (sp + i * n + k)) d alpha) m dp sp n n w);
    [done|lia|lia|done..|].
  intros m1 p i Hi Hm1.
  destruct (blend_channels src alpha m1 p (sp + i * n) n) as (m2 & -> & Hm2);
    [lia|lia|done| |].
  { intros k Hk. apply Hsrc. nia. }
  exists m2. done.
Qed.

(** *** Source over destination, neither with alpha *)

Lemma template_span_N_general_painted (m : mem) dp (src : list Z) sp n w :
  1 ≤ n → 1 ≤ w →
  (∀ p, dp ≤ p < dp + w * n → byte_at m p) →
  (∀ p, sp ≤ p < sp + w * n → byte_at src p) →
  ∃ m',
    template_span_N_general m dp 0 src sp 0 n w = Some m' ∧
    painted m m' dp n w (λ i k _, byte_of src (sp + i * n + k)).
Proof.
  intros Hn Hw Hdst Hsrc. unfold template_span_N_general.
  apply (src_loop_painted
           (λ m dp sp,
              '(m, dp, sp) ← each_channel n (put_src src) m dp sp; Some (m, dp, sp))
           src (λ i k _, byte_of src (sp + i * n + k)) m dp sp n n w);
    [done|lia|lia|done..|].
  intros m1 p i Hi Hm1.
  destruct (copy_channels src m1 p (sp + i * n) n) as (m2 & -> & Hm2); [lia|done| |].
  { intros k Hk. apply Hsrc. nia. }
  exists m2. done.
Qed.

(** *** Source with alpha over a destination without *)

Lemma over_byte s d a :
  is_byte s → is_byte d → is_byte a → s ≤ a →
  is_byte (s + FZ_COMBINE d (256 - FZ_EXPAND a)).
Proof.
  unfold is_byte. intros Hs Hd Ha Hsa.
  pose proof (FZ_EXPAND_ge a ltac:(lia)) as Hge.
  pose proof (FZ_EXPAND_range a Ha) as He.
  unfold FZ_COMBINE. rewrite Z.shiftr_div_pow2 by lia. change (2 ^ 8) with 256.
  assert (0 ≤ (d * (256 - FZ_EXPAND a)) `div` 256 ≤ 255 - a); [|lia].
  split; [apply Z.div_pos; nia|].
  apply Z.lt_succ_r. apply Z.div_lt_upper_bound; nia.
Qed.

Lemma put_over_stores (src : list Z) t (m : mem) dp sp d :
  byte_at src sp → load m dp = Some d →
  ∃ v, put_over src t m dp sp = store m dp v ∧ v = byte_of src sp + FZ_COMBINE d t.
Proof.
  intros [Hs Hb]%byte_at_load Hd. eexists.
  unfold put_over. rewrite Hs. simpl. rewrite Hd. simpl. done.
Qed.

(** The destination alpha is composed like a color channel, from the source
    alpha as its source byte. *)
Lemma template_span_N_general_over (m : mem) dp da (src : list Z) sp n w :
  da = 0 ∨ da = 1 →
  1 ≤ n → 1 ≤ w →
  (∀ p, dp ≤ p < dp + w * (n + da) → byte_at m p) →
  (∀ p, sp ≤ p < sp + w * (n + 1) → byte_at src p) →
  (∀ i k, 0 ≤ i < w → 0 ≤ k < n →
     byte_of src (sp + i * (n + 1) + k) ≤ byte_of src (sp + i * (n + 1) + n)) →
  ∃ m',
    template_span_N_general m dp da src sp 1 n w = Some m' ∧
    painted m m' dp (n + da) w
      (λ i k d, byte_of src (sp + i * (n + 1) + k)
                + FZ_COMBINE d (256 - FZ_EXPAND (byte_of src (sp + i * (n + 1) + n)))).
Proof.
  intros Hda Hn Hw Hdst Hsrc Hpre. unfold template_span_N_general.
  apply (src_loop_painted
           (λ m dp sp,
              t ← source_weight src 1 sp n;
              if t =? 0 then Some (m, dp + (n + da), sp + (n + 1))
              else
                let t := 256 - t in
                if t =? 0 then
                  '(m, dp, sp) ← each_channel n (put_src src) m dp sp;
                  '(m, dp) ← (if truthy da
                              then a ← src_alpha src 1 sp; m ← store m dp a; Some (m, dp + 1)
                              else Some (m, dp));
                  Some (m, dp, sp + 1)
                else
                  '(m, dp, sp) ← each_channel n (put_over src t) m dp sp;
                  '(m, dp) ← (if truthy da
                              then m ← put_over_or_255 src 1 t m dp sp; Some (m, dp + 1)
                              else Some (m, dp));
                  Some (m, dp, sp + 1))
           src _ m dp sp (n + da) (n + 1) w);
    [done|lia|lia|done..|].
  intros m1 p i Hi Hm1. cbv beta.
  set (q := sp + i * (n + 1)).
  assert (∀ k, 0 ≤ k ≤ n → byte_at src (q + k)) as Hq.
  { intros k Hk. apply Hsrc. unfold q. nia. }
  destruct (byte_at_load src (q + n)) as [Ha Hba]; [apply Hq; lia|].
  unfold source_weight. simpl. rewrite Ha. simpl.
  set (a := byte_of src (q + n)) in *.
  pose proof (FZ_EXPAND_range _ Hba) as He.
  assert (∀ k, 0 ≤ k ≤ n → is_byte (byte_of src (q + k)) ∧ byte_of src (q + k) ≤ a) as Hs.
  { intros k Hk. split; [apply byte_at_load, Hq; lia|].
    destruct (decide (k = n)) as [-> | Hne]; [done|]. apply Hpre; lia. }
  set (g := λ k d, byte_of src (q + k) + FZ_COMBINE d (256 - FZ_EXPAND a)).
  assert (∀ k d, 0 ≤ k ≤ n → is_byte d → is_byte (g k d)) as Hg.
  { intros k d Hk Hd. destruct (Hs k Hk). by apply over_byte. }
  destruct (Z.eqb_spec (FZ_EXPAND a) 0) as [E0|N0].
  { exists m1. split; [unfold q; state_eq|]. apply painted_skip.
    intros j k d _ Hk _. unfold g. rewrite E0. apply FZ_EXPAND_zero_inv in E0.
    destruct (Hs k ltac:(lia)) as [Hbs Hle]. rewrite E0 in Hle. unfold is_byte in Hbs.
    replace (byte_of src (q + k)) with 0 by lia. rewrite Z.sub_0_r, FZ_COMBINE_256. lia. }
  assert (∃ m2, each_channel n
                  (if 256 - FZ_EXPAND a =? 0 then put_src src
                   else put_over src (256 - FZ_EXPAND a)) m1 p q
                = Some (m2, p + n, q + n) ∧
                painted m1 m2 p 1 n (λ k _, g k)) as (m2 & Hrun & Hm2).
  { apply each_channel_bytes; [lia|intros k Hk; apply Hm1; lia|].
    intros m3 k d Hk Hd Hbd. destruct (Z.eqb_spec (256 - FZ_EXPAND a) 0) as [E|N].
    - destruct (put_src_stores src m3 (p + k) (q + k)) as (v & Hv & Hmod); [apply Hq; lia|].
      exists v. split; [done|]. rewrite Hmod. unfold g. rewrite E, FZ_COMBINE_zero_r. lia.
    - destruct (put_over_stores src (256 - FZ_EXPAND a) m3 (p + k) (q + k) d)
        as (v & Hv & ->); [apply Hq; lia|done|].
      eexists. split; [done|]. apply Z.mod_small. apply Hg; [lia|done]. }
  assert (∃ m3, (if truthy da
                 then (if 256 - FZ_EXPAND a =? 0
                       then a' ← src_alpha src 1 (q + n); m ← store m2 (p + n) a';
                            Some (m, p + n + 1)
                       else m ← put_over_or_255 src 1 (256 - FZ_EXPAND a) m2 (p + n) (q + n);
                            Some (m, p + n + 1))
                 else Some (m2, p + n)) = Some (m3, p + (n + da)) ∧
                painted m1 m3 p (n + da) 1 (λ _, g)) as (m3 & Halpha & Hm3).
  { destruct Hda as [-> | ->]; simpl.
    - exists m2. rewrite Z.add_0_r. split; [done|]. by apply painted_bytes.
    - destruct (Hm1 n) as (d & Hd & Hbd); [lia|].
      destruct (store_painted m1 m2 p n g (p + n) d (g n d) Hm2) as (Hl & m3 & Hst & Hm3);
        [lia|done|done|apply Z.mod_small, Hg; [lia|done]|].
      exists m3. split; [|by apply painted_bytes].
      unfold put_over_or_255. simpl. rewrite Ha. simpl. rewrite Hl. simpl.
      destruct (Z.eqb_spec (256 - FZ_EXPAND a) 0) as [E|N].
      + replace (g n d) with a in Hst.
        * unfold src_alpha. simpl. rewrite Ha. simpl. rewrite Hst. simpl. state_eq.
        * unfold g. fold a. rewrite E, FZ_COMBINE_zero_r. lia.
      + unfold g in Hst. fold a in Hst. rewrite Hst. simpl. state_eq. }
  exists m3. split; [|done].
  destruct (Z.eqb_spec (256 - FZ_EXPAND a) 0) as [E|N]; rewrite Hrun; simpl;
    destruct (truthy da); simpl in *.
  - destruct (src_alpha src 1 (q + n)) as [a'|]; simpl in *; [|done].
    destruct (store m2 (p + n) a') as [m4|]; simpl in *; [|done].
    simplify_eq. unfold q. state_eq.
  - simplify_eq. unfold q. state_eq.
  - destruct (put_over_or_255 src 1 (256 - FZ_EXPAND a) m2 (p + n) (q + n)) as [m4|];
      simpl in *; [|done].
    simplify_eq. unfold q. state_eq.
  - simplify_eq. unfold q. state_eq.
Qed.

(** X14: through a mask, with neither source nor destination alpha, the painter
    handed out blends every source byte into its destination byte, weighted
    by the expanded mask byte of the pixel, and writes nothing else. *)
Theorem span_mask_painter_blends cfg n f (m : mem) dp (src : list Z) sp (msk : list Z) mp w :
  fz_get_span_mask_painter cfg 0 0 n = Some f →
  1 ≤ n → 1 ≤ w →
  (∀ p, dp ≤ p < dp + w * n → byte_at m p) →
  (∀ p, sp ≤ p < sp + w * n → byte_at src p) →
  (∀ i, 0 ≤ i < w → byte_at msk (mp + i)) →
  ∃ m',
    f m dp 0 src sp 0 msk mp n w = Some m' ∧
    length m' = length m ∧
    same_outside m m' dp (dp + w * n) ∧
    ∀ i k s a d, 0 ≤ i < w → 0 ≤ k < n →
      load src (sp + i * n + k) = Some s → load msk (mp + i) = Some a →
      load m (dp + i * n + k) = Some d →
      load m' (dp + i * n + k) = Some (FZ_BLEND s d (FZ_EXPAND a)).
Proof.
  intros Hf Hn Hw Hdst Hsrc Hmsk.
  destruct (template_span_with_mask_N_general_painted m dp src sp msk mp n w Hn Hw Hdst Hsrc Hmsk)
    as (m' & Hrun & Hlen & Hout & Hin).
  exists m'. split_and!; [|done|done|].
  - unfold fz_get_span_mask_painter, by_alpha in Hf.
    count_cases n Hf; simpl in Hf; flag_cases cfg; simplify_eq; try done;
      cbv beta delta [paint_span_with_mask_1 paint_span_with_mask_3 paint_span_with_mask_4];
      by rewrite ?template_span_with_mask_1_agrees, ?template_span_with_mask_3_agrees,
           ?template_span_with_mask_4_agrees by (left; done).
  - intros i k s a d Hi Hk Hs Ha Hd. rewrite (Hin i k d) by done.
    by rewrite (byte_of_load _ _ _ Hs), (byte_of_load _ _ _ Ha).
Qed.

Lemma span_mask_painter_blends_witness :
  ∃ m',
    paint_span_with_mask_3 default_config [1; 2; 3; 4; 5; 6] 0 0 [10; 20; 30; 40; 50; 60] 0 0
      [255; 128] 0 3 2 = Some m' ∧
    length m' = length [1; 2; 3; 4; 5; 6] ∧
    same_outside [1; 2; 3; 4; 5; 6] m' 0 (0 + 2 * 3) ∧
    ∀ i k s a d, 0 ≤ i < 2 → 0 ≤ k < 3 →
      load [10; 20; 30; 40; 50; 60] (0 + i * 3 + k) = Some s → load [255; 128] (0 + i) = Some a →
      load [1; 2; 3; 4; 5; 6] (0 + i * 3 + k) = Some d →
      load m' (0 + i * 3 + k) = Some (FZ_BLEND s d (FZ_EXPAND a)).
Proof.
  apply (span_mask_painter_blends default_config 3 (paint_span_with_mask_3 default_config)
           [1; 2; 3; 4; 5; 6] 0 [10; 20; 30; 40; 50; 60] 0 [255; 128] 0 2);
    [reflexivity|lia|lia| | |].
  - intros p Hp. apply byte_at_Forall; [all_bytes|simpl; lia].
  - intros p Hp. apply byte_at_Forall; [all_bytes|simpl; lia].
  - intros i Hi. apply byte_at_Forall; [all_bytes|simpl; lia].
Defined.

(** X15: at a plane alpha strictly between 0 and 255, with neither source nor
    destination alpha, the painter handed out blends every source byte into
    its destination byte with the alpha itself as weight, out of 256. *)
Theorem span_painter_blends_by_alpha cfg n alpha f (m : mem) dp (src : list Z) sp w :
  fz_get_span_painter cfg 0 0 n alpha = Some f →
  0 < alpha < 255 →
  1 ≤ n → 1 ≤ w →
  (∀ p, dp ≤ p < dp + w * n → byte_at m p) →
  (∀ p, sp ≤ p < sp + w * n → byte_at src p) →
  ∃ m',
    f m dp 0 src sp 0 n w alpha = Some m' ∧
    length m' = length m ∧
    same_outside m m' dp (dp + w * n) ∧
    ∀ i k s d, 0 ≤ i < w → 0 ≤ k < n →
      load src (sp + i * n + k) = Some s → load m (dp + i * n + k) = Some d →
      load m' (dp + i * n + k) = Some (FZ_BLEND s d alpha).
Proof.
  intros Hf Ha Hn Hw Hdst Hsrc.
  destruct (template_span_N_with_alpha_general_painted m dp src sp n w alpha Hn Hw
              ltac:(lia) Hdst Hsrc) as (m' & Hrun & Hlen & Hout & Hin).
  exists m'. split_and!; [|done|done|].
  - unfold fz_get_span_painter, by_alpha, by_plane_alpha in Hf.
    destruct (Z.eqb_spec alpha 255); [lia|]. destruct (Z.gtb_spec alpha 0); [|lia].
    count_cases n Hf; simpl in Hf; flag_cases cfg; simplify_eq; try done;
      cbv beta delta [paint_span_1_alpha paint_span_3_alpha paint_span_4_alpha];
      by rewrite ?template_span_1_with_alpha_agrees, ?template_span_3_with_alpha_agrees,
           ?template_span_4_with_alpha_agrees.
  - intros i k s d Hi Hk Hs Hd. rewrite (Hin i k d) by done.
    by rewrite (byte_of_load _ _ _ Hs).
Qed.

Lemma span_painter_blends_by_alpha_witness :
  ∃ m',
    paint_span_4_alpha [1; 2; 3; 4; 5; 6; 7; 8] 0 0 [10; 20; 30; 40; 50; 60; 70; 80] 0 0 4 2 128
    = Some m' ∧
    length m' = length [1; 2; 3; 4; 5; 6; 7; 8] ∧
    same_outside [1; 2; 3; 4; 5; 6; 7; 8] m' 0 (0 + 2 * 4) ∧
    ∀ i k s d, 0 ≤ i < 2 → 0 ≤ k < 4 →
      load [10; 20; 30; 40; 50; 60; 70; 80] (0 + i * 4 + k) = Some s →
      load [1; 2; 3; 4; 5; 6; 7; 8] (0 + i * 4 + k) = Some d →
      load m' (0 + i * 4 + k) = Some (FZ_BLEND s d 128).
Proof.
  apply (span_painter_blends_by_alpha default_config 4 128 paint_span_4_alpha
           [1; 2; 3; 4; 5; 6; 7; 8] 0 [10; 20; 30; 40; 50; 60; 70; 80] 0 2);
    [reflexivity|lia|lia|lia| |].
  - intros p Hp. apply byte_at_Forall; [all_bytes|simpl; lia].
  - intros p Hp. apply byte_at_Forall; [all_bytes|simpl; lia].
Defined.

Lemma span_painter_copies_painted cfg n f (m : mem) dp (src : list Z) sp w :
  fz_get_span_painter cfg 0 0 n 255 = Some f →
  1 ≤ n → 1 ≤ w →
  (∀ p, dp ≤ p < dp + w * n → byte_at m p) →
  (∀ p, sp ≤ p < sp + w * n → byte_at src p) →
  ∃ m',
    f m dp 0 src sp 0 n w 255 = Some m' ∧
    painted m m' dp n w (λ i k _, byte_of src (sp + i * n + k)).
Proof.
  intros Hf Hn Hw Hdst Hsrc.
  destruct (template_span_N_general_painted m dp src sp n w Hn Hw Hdst Hsrc)
    as (m' & Hrun & Hm').
  exists m'. split; [|done].
  unfold fz_get_span_painter, by_alpha, by_plane_alpha in Hf.
  count_cases n Hf; simpl in Hf; flag_cases cfg; simplify_eq; try done;
    cbv beta delta [paint_span_1 paint_span_3 paint_span_4];
    by rewrite ?template_span_1_agrees, ?template_span_3_agrees,
         ?template_span_4_agrees by (left; done).
Qed.

(** X16: at plane alpha 255, with neither source nor destination alpha, the
    painter handed out copies the source span over the destination span and
    writes nothing else. *)
Theorem span_painter_copies cfg n f (m : mem) dp (src : list Z) sp w :
  fz_get_span_painter cfg 0 0 n 255 = Some f →
  1 ≤ n → 1 ≤ w →
  (∀ p, dp ≤ p < dp + w * n → byte_at m p) →
  (∀ p, sp ≤ p < sp + w * n → byte_at src p) →
  ∃ m',
    f m dp 0 src sp 0 n w 255 = Some m' ∧
    length m' = length m ∧
    same_outside m m' dp (dp + w * n) ∧
    ∀ i k s, 0 ≤ i < w → 0 ≤ k < n →
      load src (sp + i * n + k) = Some s → load m' (dp + i * n + k) = Some s.
Proof.
  intros Hf Hn Hw Hdst Hsrc.
  destruct (span_painter_copies_painted cfg n f m dp src sp w Hf Hn Hw Hdst Hsrc)
    as (m' & Hrun & Hlen & Hout & Hin).
  exists m'. split_and!; [done..|].
  intros i k s Hi Hk Hs.
  destruct (Hdst (dp + i * n + k)) as (d & Hd & _); [nia|].
  rewrite (Hin i k d) by done. by rewrite (byte_of_load _ _ _ Hs).
Qed.

Lemma span_painter_copies_witness :
  ∃ m',
    paint_span_3 default_config [1; 2; 3; 4; 5; 6] 0 0 [10; 20; 30; 40; 50; 60] 0 0 3 2 255
    = Some m' ∧
    length m' = length [1; 2; 3; 4; 5; 6] ∧
    same_outside [1; 2; 3; 4; 5; 6] m' 0 (0 + 2 * 3) ∧
    ∀ i k s, 0 ≤ i < 2 → 0 ≤ k < 3 →
      load [10; 20; 30; 40; 50; 60] (0 + i * 3 + k) = Some s →
      load m' (0 + i * 3 + k) = Some s.
Proof.
  apply (span_painter_copies default_config 3 (paint_span_3 default_config)
           [1; 2; 3; 4; 5; 6] 0 [10; 20; 30; 40; 50; 60] 0 2);
    [reflexivity|lia|lia| |].
  - intros p Hp. apply byte_at_Forall; [all_bytes|simpl; lia].
  - intros p Hp. apply byte_at_Forall; [all_bytes|simpl; lia].
Defined.

(** X17: at plane alpha 255, a source with alpha whose color bytes do not exceed
    the alpha of their pixel is composed over the destination: every
    destination byte [d], the destination alpha included, becomes
    [s + combine(d, 256 - expand(a))] for the source byte [s] of its channel
    and the source alpha [a] of its pixel, without loss in the store; and
    nothing else is written. *)
Theorem span_painter_composes_over cfg da n f (m : mem) dp (src : list Z) sp w :
  fz_get_span_painter cfg da 1 n 255 = Some f →
  da = 0 ∨ da = 1 →
  1 ≤ n → 1 ≤ w →
  (∀ p, dp ≤ p < dp + w * (n + da) → byte_at m p) →
  (∀ p v, load src p = Some v → is_byte v) →
  (∀ p, sp ≤ p < sp + w * (n + 1) → is_Some (load src p)) →
  (∀ i k s a, 0 ≤ i < w → 0 ≤ k < n →
     load src (sp + i * (n + 1) + k) = Some s → load src (sp + i * (n + 1) + n) = Some a →
     s ≤ a) →
  ∃ m',
    f m dp da src sp 1 n w 255 = Some m' ∧
    length m' = length m ∧
    same_outside m m' dp (dp + w * (n + da)) ∧
    ∀ i k s a d, 0 ≤ i < w → 0 ≤ k < n + da →
      load src (sp + i * (n + 1) + k) = Some s → load src (sp + i * (n + 1) + n) = Some a →
      load m (dp + i * (n + da) + k) = Some d →
      load m' (dp + i * (n + da) + k) = Some (s + FZ_COMBINE d (256 - FZ_EXPAND a)) ∧
      is_byte (s + FZ_COMBINE d (256 - FZ_EXPAND a)).
Proof.
  intros Hf Hda Hn Hw Hdst Hbytes Hsrc Hpre.
  assert (∀ p, sp ≤ p < sp + w * (n + 1) → byte_at src p) as Hsrc'.
  { intros p Hp. destruct (Hsrc p Hp) as [v Hv]. exists v. eauto. }
  assert (∀ i k, 0 ≤ i < w → 0 ≤ k < n →
            byte_of src (sp + i * (n + 1) + k) ≤ byte_of src (sp + i * (n + 1) + n)) as Hpre'.
  { intros i k Hi Hk.
    destruct (byte_at_load src (sp + i * (n + 1) + k)) as [Hs _]; [apply Hsrc'; nia|].
    destruct (byte_at_load src (sp + i * (n + 1) + n)) as [Ha _]; [apply Hsrc'; nia|].
    by apply (Hpre i k). }
  destruct (template_span_N_general_over m dp da src sp n w Hda Hn Hw Hdst Hsrc' Hpre')
    as (m' & Hrun & Hlen & Hout & Hin).
  exists m'. split_and!; [|done|done|].
  - unfold fz_get_span_painter, by_alpha, by_plane_alpha in Hf.
    destruct Hda as [-> | ->];
      count_cases n Hf; simpl in Hf; flag_cases cfg; simplify_eq; try done;
      cbv beta delta [paint_span_1_sa paint_span_3_sa paint_span_4_sa
                      paint_span_1_da_sa paint_span_3_da_sa paint_span_4_da_sa];
      by rewrite ?template_span_1_agrees, ?template_span_3_word_agrees,
           ?template_span_3_agrees, ?template_span_4_agrees by (done || lia).
  - intros i k s a d Hi Hk Hs Ha Hd. rewrite (Hin i k d) by done.
    rewrite (byte_of_load _ _ _ Hs), (byte_of_load _ _ _ Ha). split; [done|].
    destruct (Hdst (dp + i * (n + da) + k)) as (d' & Hd' & Hbd); [nia|].
    apply over_byte; [by eapply Hbytes|congruence|by eapply Hbytes|].
    destruct (decide (k = n)) as [-> | Hne]; [assert (s = a) by congruence; lia|].
    apply (Hpre i k); [done|lia|done|done].
Qed.

Lemma span_painter_composes_over_witness :
  ∃ m',
    paint_span_3_da_sa default_config [1; 2; 3; 4; 5; 6; 7; 8] 0 1
      [10; 20; 30; 128; 0; 0; 0; 0] 0 1 3 2 255 = Some m' ∧
    length m' = length [1; 2; 3; 4; 5; 6; 7; 8] ∧
    same_outside [1; 2; 3; 4; 5; 6; 7; 8] m' 0 (0 + 2 * (3 + 1)) ∧
    ∀ i k s a d, 0 ≤ i < 2 → 0 ≤ k < 3 + 1 →
      load [10; 20; 30; 128; 0; 0; 0; 0] (0 + i * (3 + 1) + k) = Some s →
      load [10; 20; 30; 128; 0; 0; 0; 0] (0 + i * (3 + 1) + 3) = Some a →
      load [1; 2; 3; 4; 5; 6; 7; 8] (0 + i * (3 + 1) + k) = Some d →
      load m' (0 + i * (3 + 1) + k) = Some (s + FZ_COMBINE d (256 - FZ_EXPAND a)) ∧
      is_byte (s + FZ_COMBINE d (256 - FZ_EXPAND a)).
Proof.
  apply (span_painter_composes_over default_config 1 3 (paint_span_3_da_sa default_config)
           [1; 2; 3; 4; 5; 6; 7; 8] 0 [10; 20; 30; 128; 0; 0; 0; 0] 0 2);
    [reflexivity|right; lia|lia|lia| | | |].
  - intros p Hp. apply byte_at_Forall; [all_bytes|simpl; lia].
  - intros p v. apply load_Forall. all_bytes.
  - intros p Hp. apply load_is_Some. simpl. lia.
  - intros i k s a Hi Hk Hs Ha.
    assert (i = 0 ∨ i = 1) as [-> | ->] by lia;
      assert (k = 0 ∨ k = 1 ∨ k = 2) as [-> | [-> | ->]] by lia;
      vm_compute in Hs, Ha; simplify_eq; lia.
Defined.

(** ** Pixmaps *)

Lemma paint_rows_inv (row : mem → Z → Z → Z → option mem) (P : nat → mem → Prop) (h : nat)
    (m : mem) dp sp mp ds ss ms :
  P 0%nat m →
  (∀ (r : nat) m1, (r < h)%nat → P r m1 →
     ∃ m2, row m1 (dp + Z.of_nat r * ds) (sp + Z.of_nat r * ss) (mp + Z.of_nat r * ms) = Some m2 ∧
           P (S r) m2) →
  ∃ m', paint_rows row h m dp sp mp ds ss ms = Some m' ∧ P h m'.
Proof.
  intros HP Hstep.
  assert (∀ (k r : nat) m1, (r + k = h)%nat → P r m1 →
            ∃ m', paint_rows row k m1 (dp + Z.of_nat r * ds) (sp + Z.of_nat r * ss)
                    (mp + Z.of_nat r * ms) ds ss ms = Some m' ∧ P h m') as Haux.
  { induction k as [|k IH]; intros r m1 Hr HP1; simpl.
    - exists m1. by replace h with r by lia.
    - destruct (Hstep r m1 ltac:(lia) HP1) as (m2 & -> & HP2). simpl.
      destruct (IH (S r) m2 ltac:(lia) HP2) as (m' & Hrun & HP').
      exists m'. split; [|done]. rewrite <- Hrun. f_equal; lia. }
  destruct (Haux h 0%nat m ltac:(lia) HP) as (m' & Hrun & HP').
  exists m'. split; [|done]. rewrite <- Hrun. f_equal; lia.
Qed.

Lemma fz_intersect_irect_ordered (a b : fz_irect) :
  x0 (fz_intersect_irect a b) ≤ x1 (fz_intersect_irect a b) ∧
  y0 (fz_intersect_irect a b) ≤ y1 (fz_intersect_irect a b).
Proof.
  unfold fz_intersect_irect. simpl.
  destruct (Z.ltb_spec (Z.min (x1 a) (x1 b)) (Z.max (x0 a) (x0 b)));
    destruct (Z.ltb_spec (Z.min (y1 a) (y1 b)) (Z.max (y0 a) (y0 b))); simpl; lia.
Qed.

Lemma span_painter_needs_alpha cfg da sa n alpha :
  alpha ≤ 0 → fz_get_span_painter cfg da sa n alpha = None.
Proof.
  intros Ha. unfold fz_get_span_painter.
  assert (∀ a b : fz_span_painter_t, by_plane_alpha alpha a b = None) as Hnone.
  { intros a b. unfold by_plane_alpha.
    destruct (Z.eqb_spec alpha 255); [lia|]. by destruct (Z.gtb_spec alpha 0); [lia|]. }
  assert (n = 0 ∨ n = 1 ∨ n = 3 ∨ n = 4 ∨ (n ≠ 0 ∧ n ≠ 1 ∧ n ≠ 3 ∧ n ≠ 4)) as Hc by lia.
  destruct Hc as [-> | [-> | [-> | [-> | (? & ? & ? & ?)]]]];
    [| | | |rewrite switch_default by done];
    unfold by_alpha; rewrite ?Hnone;
    repeat match goal with
           | |- context [if ?c then _ else _] => destruct c; rewrite ?Hnone
           end; done.
Qed.

(** X18: at a plane alpha of zero or less no pixmap is painted, in either
    build: with matching color-channel counts, [fz_paint_pixmap] and
    [fz_paint_pixmap_with_bbox] return at once when the rectangle to paint is
    empty; otherwise no painter exists, and they stop at [assert(fn)] in a
    build with assertions and return through [if (fn == NULL) return;] in a
    build with [NDEBUG]; the destination is untouched in every case. *)
Theorem paint_pixmap_needs_alpha cfg dst src alpha bbox :
  alpha ≤ 0 →
  pix_n dst - pix_alpha dst = pix_n src - pix_alpha src →
  let paint r :=
    if (x1 r - x0 r =? 0) || (y1 r - y0 r =? 0) then Returned (pix_samples dst)
    else if NDEBUG cfg then Returned (pix_samples dst)
    else AssertionFailed (pix_samples dst) in
  fz_paint_pixmap cfg dst src alpha
  = paint (fz_intersect_irect (fz_pixmap_bbox_no_ctx dst) (fz_pixmap_bbox_no_ctx src)) ∧
  fz_paint_pixmap_with_bbox cfg dst src alpha bbox
  = paint (fz_intersect_irect (fz_intersect_irect bbox (fz_pixmap_bbox_no_ctx dst))
             (fz_pixmap_bbox_no_ctx src)).
Proof.
  intros Ha Hn paint.
  assert (∀ r, paint_pixmap_in cfg dst src alpha r = paint r) as Hin.
  { intros r. unfold paint_pixmap_in, paint, c_assert.
    destruct ((x1 r - x0 r =? 0) || (y1 r - y0 r =? 0)); [done|].
    rewrite span_painter_needs_alpha by done. by destruct (NDEBUG cfg). }
  unfold fz_paint_pixmap, fz_paint_pixmap_with_bbox, c_assert.
  rewrite Hn, Z.eqb_refl, andb_false_r. by rewrite !Hin.
Qed.

Lemma paint_pixmap_needs_alpha_witness :
  (fz_paint_pixmap default_config
     (Pixmap 0 0 2 1 1 0 2 true [1; 2]) (Pixmap 0 0 2 1 1 0 2 true [9; 9]) 0
   = AssertionFailed [1; 2] ∧
   fz_paint_pixmap_with_bbox default_config
     (Pixmap 0 0 2 1 1 0 2 true [1; 2]) (Pixmap 0 0 2 1 1 0 2 true [9; 9]) 0 (Irect 5 5 6 6)
   = Returned [1; 2]) ∧
  (fz_paint_pixmap release_config
     (Pixmap 0 0 2 1 1 0 2 true [1; 2]) (Pixmap 0 0 2 1 1 0 2 true [9; 9]) 0
   = Returned [1; 2] ∧
   fz_paint_pixmap_with_bbox release_config
     (Pixmap 0 0 2 1 1 0 2 true [1; 2]) (Pixmap 0 0 2 1 1 0 2 true [9; 9]) 0 (Irect 0 0 2 1)
   = Returned [1; 2]).
Proof.
  split.
  - apply (paint_pixmap_needs_alpha default_config
             (Pixmap 0 0 2 1 1 0 2 true [1; 2]) (Pixmap 0 0 2 1 1 0 2 true [9; 9]) 0
             (Irect 5 5 6 6)); [lia|reflexivity].
  - apply (paint_pixmap_needs_alpha release_config
             (Pixmap 0 0 2 1 1 0 2 true [1; 2]) (Pixmap 0 0 2 1 1 0 2 true [9; 9]) 0
             (Irect 0 0 2 1)); [lia|reflexivity].
Defined.

(** X19: under a mask whose bytes in the rectangle to paint are all zero,
    [fz_paint_pixmap_with_mask] returns with the destination untouched. *)
Theorem paint_pixmap_with_zero_mask cfg dst src msk r :
  pix_n dst = pix_n src → pix_n msk = 1 →
  r = fz_intersect_irect
        (fz_intersect_irect (fz_pixmap_bbox_no_ctx dst) (fz_pixmap_bbox_no_ctx src))
        (fz_pixmap_bbox_no_ctx msk) →
  (∀ j i, 0 ≤ j < y1 r - y0 r → 0 ≤ i < x1 r - x0 r →
     load (pix_samples msk) (pixel_offset msk (x0 r) (y0 r) + j * pix_stride msk + i) = Some 0) →
  fz_paint_pixmap_with_mask cfg dst src msk = Returned (pix_samples dst).
Proof.
  intros Hn Hm Hr Hzero. unfold fz_paint_pixmap_with_mask, c_assert.
  rewrite Hn, Hm, !Z.eqb_refl, !andb_false_r. simpl. rewrite <- Hr.
  destruct (Z.eqb_spec (x1 r - x0 r) 0) as [|Hw]; [done|].
  destruct (Z.eqb_spec (y1 r - y0 r) 0) as [|Hh]; [done|]. simpl.
  destruct (fz_get_span_mask_painter cfg (pix_alpha dst) (pix_alpha src)
              (pix_n src - pix_alpha src)) as [fn|] eqn:Hfn; [|done].
  pose proof (fz_intersect_irect_ordered
                (fz_intersect_irect (fz_pixmap_bbox_no_ctx dst) (fz_pixmap_bbox_no_ctx src))
                (fz_pixmap_bbox_no_ctx msk)) as [Hx Hy].
  rewrite <- Hr in Hx, Hy.
  destruct (Z.ltb_spec (y1 r - y0 r) 0); [lia|].
  lazymatch goal with |- context [paint_rows ?f _ _ _ _ _ _ _ _] => set (row := f) end.
  destruct (paint_rows_inv row (λ _ m1, m1 = pix_samples dst) (Z.to_nat (y1 r - y0 r))
              (pix_samples dst) (pixel_offset dst (x0 r) (y0 r)) (pixel_offset src (x0 r) (y0 r))
              (pixel_offset msk (x0 r) (y0 r)) (pix_stride dst) (pix_stride src)
              (pix_stride msk)) as (m' & -> & ->); [done| |done].
  intros j m1 Hj ->. exists (pix_samples dst). split; [|done]. unfold row.
  eapply span_mask_painter_zero; [done|lia|].
  intros i Hi. apply Hzero; lia.
Qed.

Lemma paint_pixmap_with_zero_mask_witness :
  fz_paint_pixmap_with_mask default_config
    (Pixmap 0 0 2 1 1 0 2 true [5; 6]) (Pixmap 0 0 2 1 1 0 2 true [9; 9])
    (Pixmap 0 0 2 1 1 0 2 false [0; 0])
  = Returned [5; 6].
Proof.
  apply (paint_pixmap_with_zero_mask default_config
           (Pixmap 0 0 2 1 1 0 2 true [5; 6]) (Pixmap 0 0 2 1 1 0 2 true [9; 9])
           (Pixmap 0 0 2 1 1 0 2 false [0; 0]) (Irect 0 0 2 1));
    [reflexivity|reflexivity|reflexivity|].
  intros j i Hj Hi. simpl in Hj, Hi.
  assert (j = 0) as -> by lia. assert (i = 0 ∨ i = 1) as [-> | ->] by lia; reflexivity.
Defined.

Lemma pixel_offset_nonneg (p : fz_pixmap) x y : 0 ≤ pixel_offset p x y.
Proof. unfold pixel_offset, u32. apply Z.mod_pos_bound. lia. Qed.

Lemma span_copy_row cfg n f (m : mem) dp (src : list Z) sp w :
  fz_get_span_painter cfg 0 0 n 255 = Some f →
  1 ≤ n → 1 ≤ w →
  (∀ p, dp ≤ p < dp + w * n → byte_at m p) →
  (∀ p, sp ≤ p < sp + w * n → byte_at src p) →
  ∃ m',
    f m dp 0 src sp 0 n w 255 = Some m' ∧
    length m' = length m ∧
    same_outside m m' dp (dp + w * n) ∧
    ∀ q, 0 ≤ q < w * n → load m' (dp + q) = load src (sp + q).
Proof.
  intros Hf Hn Hw Hdst Hsrc.
  destruct (span_painter_copies_painted cfg n f m dp src sp w Hf Hn Hw Hdst Hsrc)
    as (m' & Hrun & Hlen & Hout & Hin).
  exists m'. split_and!; [done..|].
  intros q Hq.
  assert (q = q `div` n * n + q `mod` n) as Hqn.
  { rewrite Z.mul_comm. apply Z.div_mod. lia. }
  pose proof (Z.mod_pos_bound q n ltac:(lia)) as Hk.
  assert (0 ≤ q `div` n < w) as Hi.
  { split; [apply Z.div_pos; lia|apply Z.div_lt_upper_bound; lia]. }
  destruct (Hdst (dp + q)) as (d & Hd & _); [lia|].
  destruct (byte_at_load src (sp + q)) as [Hs _]; [apply Hsrc; lia|].
  rewrite Hs. rewrite Hqn at 1. rewrite Z.add_assoc.
  rewrite (Hin (q `div` n) (q `mod` n) d); [|done|done|].
  - by replace (sp + q `div` n * n + q `mod` n) with (sp + q) by lia.
  - by rewrite <- Z.add_assoc, <- Hqn.
Qed.

(** X20: a source without alpha painted at plane alpha 255 over a destination
    without alpha replaces, row by row, the samples of the rectangle the two
    pixmaps share, and nothing else. *)
Theorem paint_pixmap_copies cfg dst src bx0 by0 bx1 by1 n w h dp sp :
  pix_alpha dst = 0 → pix_alpha src = 0 →
  pix_n dst = n → pix_n src = n → 1 ≤ n →
  fz_intersect_irect (fz_pixmap_bbox_no_ctx dst) (fz_pixmap_bbox_no_ctx src)
  = Irect bx0 by0 bx1 by1 →
  w = bx1 - bx0 → h = by1 - by0 → 0 < w → 0 < h →
  dp = pixel_offset dst bx0 by0 → sp = pixel_offset src bx0 by0 →
  is_Some (fz_get_span_painter cfg 0 0 n 255) →
  w * n ≤ pix_stride dst →
  (∀ j q, 0 ≤ j < h → 0 ≤ q < w * n →
     byte_at (pix_samples dst) (dp + j * pix_stride dst + q)) →
  (∀ j q, 0 ≤ j < h → 0 ≤ q < w * n →
     byte_at (pix_samples src) (sp + j * pix_stride src + q)) →
  ∃ m',
    fz_paint_pixmap cfg dst src 255 = Returned m' ∧
    length m' = length (pix_samples dst) ∧
    (∀ j q, 0 ≤ j < h → 0 ≤ q < w * n →
       load m' (dp + j * pix_stride dst + q) = load (pix_samples src) (sp + j * pix_stride src + q)) ∧
    (∀ p, (∀ j, 0 ≤ j < h → ¬ (dp + j * pix_stride dst ≤ p < dp + j * pix_stride dst + w * n)) →
       load m' p = load (pix_samples dst) p).
Proof.
  intros Hda Hsa Hnd Hns Hn Hbox -> -> Hw Hh -> -> [fn Hfn] Hstride Hdst Hsrc.
  unfold fz_paint_pixmap, c_assert.
  rewrite Hda, Hsa, Hnd, Hns, Z.eqb_refl, andb_false_r. simpl.
  rewrite Hbox. unfold paint_pixmap_in, c_assert. simpl.
  destruct (Z.eqb_spec (bx1 - bx0) 0); [lia|].
  destruct (Z.eqb_spec (by1 - by0) 0); [lia|]. simpl.
  rewrite Hda, Hsa, Hns, Z.sub_0_r, Hfn.
  rewrite bool_decide_eq_true_2, andb_false_r by done.
  destruct (Z.ltb_spec (by1 - by0) 0); [lia|].
  set (m := pix_samples dst) in *. set (s := pix_samples src) in *.
  set (dp := pixel_offset dst bx0 by0) in *. set (sp := pixel_offset src bx0 by0) in *.
  set (ds := pix_stride dst) in *. set (ss := pix_stride src) in *.
  set (w := bx1 - bx0) in *.
  assert (0 ≤ dp) as Hdp by apply pixel_offset_nonneg.
  lazymatch goal with |- context [paint_rows ?f _ _ _ _ _ _ _ _] => set (row := f) end.
  destruct (paint_rows_inv row
    (λ r m1,
       length m1 = length m ∧
       (∀ j q, 0 ≤ j < Z.of_nat r → 0 ≤ q < w * n →
          load m1 (dp + j * ds + q) = load s (sp + j * ss + q)) ∧
       (∀ p, (∀ j, 0 ≤ j < Z.of_nat r → ¬ (dp + j * ds ≤ p < dp + j * ds + w * n)) →
          load m1 p = load m p))
    (Z.to_nat (by1 - by0)) m dp sp 0 ds ss 0) as (m' & -> & Hlen & Hin & Hout).
  - split_and!; [done|intros j q Hj; lia|done].
  - intros r m1 Hr (Hlen1 & Hin1 & Hout1). unfold row.
    destruct (span_copy_row cfg n fn m1 (dp + Z.of_nat r * ds) s (sp + Z.of_nat r * ss) w
                Hfn Hn ltac:(lia)) as (m2 & Hrun & Hlen2 & Hout2 & Hin2).
    { intros p Hp. destruct (Hdst (Z.of_nat r) (p - (dp + Z.of_nat r * ds))) as (d & Hd & Hbd);
        [lia|lia|].
      exists d. split; [|done]. rewrite Hout1.
      - rewrite <- Hd. f_equal. lia.
      - intros j Hj. nia. }
    { intros p Hp. specialize (Hsrc (Z.of_nat r) (p - (sp + Z.of_nat r * ss))).
      replace (sp + Z.of_nat r * ss + (p - (sp + Z.of_nat r * ss))) with p in Hsrc by lia.
      apply Hsrc; lia. }
    exists m2. split; [done|]. split_and!.
    + congruence.
    + intros j q Hj Hq. destruct (decide (j = Z.of_nat r)) as [-> | Hne].
      * by apply Hin2.
      * rewrite Hout2 by nia. apply Hin1; lia.
    + intros p Hp. rewrite Hout2.
      * apply Hout1. intros j Hj. apply Hp. lia.
      * apply Hp. lia.
  - exists m'. simpl. rewrite Z2Nat.id in * by lia. done.
Qed.

Lemma paint_pixmap_copies_witness :
  ∃ m',
    fz_paint_pixmap default_config
      (Pixmap 0 0 2 2 1 0 2 true [1; 2; 3; 4]) (Pixmap 1 0 2 2 1 0 2 true [10; 20; 30; 40]) 255
    = Returned m' ∧
    length m' = length [1; 2; 3; 4] ∧
    (∀ j q, 0 ≤ j < 2 → 0 ≤ q < 1 * 1 →
       load m' (1 + j * 2 + q) = load [10; 20; 30; 40] (0 + j * 2 + q)) ∧
    (∀ p, (∀ j, 0 ≤ j < 2 → ¬ (1 + j * 2 ≤ p < 1 + j * 2 + 1 * 1)) →
       load m' p = load [1; 2; 3; 4] p).
Proof.
  apply (paint_pixmap_copies default_config
           (Pixmap 0 0 2 2 1 0 2 true [1; 2; 3; 4])
           (Pixmap 1 0 2 2 1 0 2 true [10; 20; 30; 40]) 1 0 2 2 1 1 2 1 0);
    [reflexivity|reflexivity|reflexivity|reflexivity|lia|reflexivity|reflexivity|reflexivity
    |lia|lia|reflexivity|reflexivity|by eexists|simpl; lia| |].
  - intros j q Hj Hq. apply byte_at_Forall; [all_bytes|simpl; lia].
  - intros j q Hj Hq. apply byte_at_Forall; [all_bytes|simpl; lia].
Defined.

(** ** The glyph decoder only adds coverage *)

Lemma covers_more_refl (m : mem) : covers_more m m.
Proof. split; [done|]. intros p v Hv Hb. exists v. split_and!; [done|lia|done]. Qed.

Lemma covers_more_trans (m m1 m2 : mem) :
  covers_more m m1 → covers_more m1 m2 → covers_more m m2.
Proof.
  intros [Hlen1 H1] [Hlen2 H2]. split; [congruence|].
  intros p v Hv Hb. destruct (H1 p v Hv Hb) as (v1 & Hv1 & Hle1 & Hb1).
  destruct (H2 p v1 Hv1 Hb1) as (v2 & Hv2 & Hle2 & Hb2).
  exists v2. split_and!; [done|lia|done].
Qed.

Lemma store_covers_more (m m' : mem) p x v :
  store m p x = Some m' → load m p = Some v → (is_byte v → v ≤ x `mod` 256) →
  covers_more m m'.
Proof.
  intros Hst Hv Hle. split; [by rewrite (store_length _ _ _ _ Hst)|].
  intros q u Hu Hb. rewrite (load_store _ _ _ _ q Hst). case_decide as Hq.
  - subst q. assert (u = v) as -> by congruence.
    exists (x `mod` 256). split_and!; [done|by apply Hle|].
    unfold is_byte. apply Z.mod_pos_bound. lia.
  - exists u. split_and!; [done|lia|done].
Qed.

Lemma solid_run_covers_more (m m' : mem) ddp ww len ddp' ww' :
  solid_run m ddp ww len = Some (m', ddp', ww') → covers_more m m'.
Proof.
  unfold solid_run. intros Hrun.
  destruct (do_while _ _ _) as [[m1 d1]|] eqn:Hd; [|done]. simpl in Hrun. simplify_eq.
  apply (do_while_inv_partial _ (λ _ '(m1, _), covers_more m m1)) in Hd; [by destruct Hd| |].
  - apply covers_more_refl.
  - intros i [m1 d1] [m2 d2] Hi Hm1 Hb.
    destruct (store m1 d1 255) as [m3|] eqn:Hst; [|done]. simpl in Hb. simplify_eq.
    apply (covers_more_trans _ m1); [done|].
    destruct (load_is_Some m1 d1) as [v Hv]; [by apply store_inv in Hst as [? _]|].
    apply (store_covers_more _ _ _ _ _ Hst Hv). change (255 `mod` 256) with 255.
    unfold is_byte. lia.
Qed.

Lemma intermediate_run_covers_more (data : list Z) (m m' : mem) runp ddp ww len
    runp' ddp' ww' :
  (∀ p v, load data p = Some v → is_byte v) →
  intermediate_run data m runp ddp ww len = Some (m', runp', ddp', ww') → covers_more m m'.
Proof.
  unfold intermediate_run. intros Hdata Hrun.
  destruct (do_while _ _ _) as [[[m1 r1] d1]|] eqn:Hd; [|done]. simpl in Hrun. simplify_eq.
  apply (do_while_inv_partial _ (λ _ '(m1, _, _), covers_more m m1)) in Hd;
    [by destruct Hd| |].
  - apply covers_more_refl.
  - intros i [[m1 r1] d1] [[m2 r2] d2] Hi Hm1 Hb.
    destruct (load m1 d1) as [v|] eqn:Hv; [|done]. simpl in Hb.
    destruct (load data r1) as [a|] eqn:Ha; [|done]. simpl in Hb.
    apply Hdata in Ha.
    apply (covers_more_trans _ m1); [done|].
    destruct (Z.eqb_spec v 0) as [-> | Hnz].
    + destruct (store m1 d1 a) as [m3|] eqn:Hst; [|done]. simpl in Hb. simplify_eq.
      apply (store_covers_more _ _ _ _ _ Hst Hv). intros _.
      pose proof (Z.mod_pos_bound a 256). lia.
    + destruct (store m1 d1 (FZ_BLEND 255 v (FZ_EXPAND a))) as [m3|] eqn:Hst; [|done].
      simpl in Hb. simplify_eq.
      apply (store_covers_more _ _ _ _ _ Hst Hv). intros Hbv.
      pose proof (FZ_BLEND_255_range v (FZ_EXPAND a) Hbv (FZ_EXPAND_range a Ha)).
      unfold is_byte in Hbv. rewrite Z.mod_small by lia. lia.
Qed.

Lemma emit_switch_covers_more (data : list Z) (m m' : mem) v runp ddp ww extend eol
    runp' ddp' ww' extend' eol' :
  (∀ p v, load data p = Some v → is_byte v) →
  emit_switch data m v runp ddp ww extend eol = Some (m', runp', ddp', ww', extend', eol') →
  covers_more m m'.
Proof.
  intros Hdata. unfold emit_switch. run_cases v; intros Hsw.
  - simplify_eq. apply covers_more_refl.
  - destruct (transparent_run _ _ _). simplify_eq. apply covers_more_refl.
  - destruct (solid_run _ _ _ _) as [[[m1 d1] w1]|] eqn:Hrun; [|done].
    simpl in Hsw. simplify_eq. by eapply solid_run_covers_more.
  - destruct (intermediate_run _ _ _ _ _ _) as [[[[m1 r1] d1] w1]|] eqn:Hrun; [|done].
    simpl in Hsw. simplify_eq. by eapply intermediate_run_covers_more.
Qed.

Lemma emit_loop_covers_more (data : list Z) :
  (∀ p v, load data p = Some v → is_byte v) →
  ∀ (fuel : nat) (m m' : mem) runp ddp ww extend eol,
    emit_loop fuel data m runp ddp ww extend eol = Some m' → covers_more m m'.
Proof.
  intros Hdata. induction fuel as [|fuel IH]; intros m m' runp ddp ww extend eol Hrun.
  - simpl in Hrun. destruct (ww >? 0); [done|]. simplify_eq. apply covers_more_refl.
  - simpl in Hrun. destruct (ww >? 0).
    2:{ simplify_eq. apply covers_more_refl. }
    destruct (load data runp) as [v|] eqn:Hv; [|done]. simpl in Hrun.
    destruct (emit_switch _ _ _ _ _ _ _ _) as [[[[[[m1 r1] d1] w1] e1] l1]|] eqn:Hsw; [|done].
    simpl in Hrun. apply (emit_switch_covers_more _ _ _ _ _ _ _ _ _ _ _ _ _ _ Hdata) in Hsw.
    destruct (truthy l1).
    + by simplify_eq.
    + apply (covers_more_trans _ m1); [done|]. by eapply IH.
Qed.

Lemma skip_loop_covers_more (data : list Z) :
  (∀ p v, load data p = Some v → is_byte v) →
  ∀ (fuel : nat) (m m' : mem) runp ddp ww extend eol skip_xx,
    skip_loop fuel data m runp ddp ww extend eol skip_xx = Some m' → covers_more m m'.
Proof.
  intros Hdata. pose proof (emit_loop_covers_more data Hdata) as Hemit.
  induction fuel as [|fuel IH]; intros m m' runp ddp ww extend eol skip_xx Hrun.
  - simpl in Hrun. destruct (skip_xx =? 0); [|done].
    by apply (Hemit 0%nat m m' runp ddp ww extend eol).
  - simpl in Hrun. destruct (skip_xx =? 0).
    { by apply (Hemit (S fuel) m m' runp ddp ww extend eol). }
    destruct (load data runp) as [v|] eqn:Hv; [|done]. simpl in Hrun.
    unfold skip_switch, after_run in Hrun. revert Hrun.
    run_cases v; intros Hrun.
    + destruct (truthy eol); [by eapply Hemit|by eapply IH].
    + destruct (_ >? skip_xx).
      * unfold transparent_run in Hrun.
        destruct (truthy eol); [simplify_eq; apply covers_more_refl|].
        by eapply Hemit.
      * destruct (truthy eol); [by eapply Hemit|by eapply IH].
    + destruct (_ >? skip_xx).
      * destruct (solid_run _ _ _ _) as [[[m1 d1] w1]|] eqn:Hsr; [|done].
        simpl in Hrun. apply solid_run_covers_more in Hsr.
        destruct (truthy (Z.land v 4)); [by simplify_eq|].
        apply (covers_more_trans _ m1); [done|]. by eapply Hemit.
      * destruct (truthy (Z.land v 4)); [by eapply Hemit|by eapply IH].
    + destruct (_ >? skip_xx).
      * destruct (intermediate_run _ _ _ _ _ _) as [[[[m1 r1] d1] w1]|] eqn:Hsr; [|done].
        simpl in Hrun. apply (intermediate_run_covers_more _ _ _ _ _ _ _ _ _ _ Hdata) in Hsr.
        destruct (truthy (Z.land v 4)); [by simplify_eq|].
        apply (covers_more_trans _ m1); [done|]. by eapply Hemit.
      * destruct (truthy (Z.land v 4)); [by eapply Hemit|by eapply IH].
Qed.

(** X21: painting a glyph into a coverage mask never lowers a byte of the mask:
    with run bytes and mask bytes that are bytes, every byte of the result is
    at least what it was, and at most 255. *)
Theorem fz_paint_glyph_mask_accumulates cfg span (m m' : mem) dp da glyph w h skip_x skip_y :
  (∀ p v, load (glyph_data glyph) p = Some v → is_byte v) →
  (∀ p v, load m p = Some v → is_byte v) →
  fz_paint_glyph_mask cfg span m dp da glyph w h skip_x skip_y = Some m' →
  length m' = length m ∧
  ∀ p v, load m p = Some v → ∃ v', load m' p = Some v' ∧ v ≤ v' ≤ 255.
Proof.
  intros Hdata Hm. unfold fz_paint_glyph_mask.
  destruct (h <? 0); [done|].
  assert (∀ (k : nat) (m m' : mem) dp skip_y,
            glyph_mask_rows (isbigendian cfg) (glyph_data glyph) k m span dp w skip_x skip_y
              = Some m' → covers_more m m') as Haux.
  { induction k as [|k IH]; intros m0 m1 dp0 sy Hrows; simpl in Hrows.
    - simplify_eq. apply covers_more_refl.
    - destruct (load_int _ _ _) as [offset|]; [|done]. simpl in Hrows.
      destruct (if offset >=? 0 then glyph_mask_row (glyph_data glyph) m0 offset dp0 w skip_x
                else Some m0) as [m2|] eqn:Hrow; [|done].
      simpl in Hrows. apply (covers_more_trans _ m2); [|by eapply IH].
      destruct (offset >=? 0).
      + unfold glyph_mask_row in Hrow. by eapply (skip_loop_covers_more _ Hdata).
      + simplify_eq. apply covers_more_refl. }
  intros Hrows. destruct (Haux _ _ _ _ _ Hrows) as [Hlen Hmono].
  split; [done|]. intros p v Hv.
  destruct (Hmono p v Hv (Hm p v Hv)) as (v' & Hv' & Hle & Hb).
  exists v'. unfold is_byte in Hb. split; [done|lia].
Qed.

Lemma fz_paint_glyph_mask_accumulates_witness :
  length [0; 0; 255; 255; 255; 0; 7] = length [0; 0; 0; 0; 0; 0; 7] ∧
  ∀ p v, load [0; 0; 0; 0; 0; 0; 7] p = Some v →
         ∃ v', load [0; 0; 255; 255; 255; 0; 7] p = Some v' ∧ v ≤ v' ≤ 255.
Proof.
  apply (fz_paint_glyph_mask_accumulates default_config 7 [0; 0; 0; 0; 0; 0; 7]
           [0; 0; 255; 255; 255; 0; 7] 0 1 (Glyph [4; 0; 0; 0; 5; 22]) 6 1 0 0).
  - intros p v. apply load_Forall. all_bytes.
  - intros p v. apply load_Forall. all_bytes.
  - reflexivity.
Defined.
